(* ===== verification/_CoqProject ===== *)
-Q . S2P
Prelude.v
JsValue.v
JsonCodec.v
Store.v
ArrayOps.v
Handlers.v
JsonPrint.v
JsonParse.v
JsonLex.v
JsonText.v
Render.v
Concurrency.v
Scenarios.v
