(* ===== verification/Prelude.v ===== *)
(** * A verification library for the user-registration server [src/index.js]

    The program is one Express application (src/index.js).  It keeps every
    registered user in one JSON file, ["./users.json"], which every request
    reads and writes whole.

    - Record store: [readUsers] (lines 12-20) reads the file and
      [JSON.parse]s it.  On any failure it logs and returns [[]]
      (fail-open).  [writeUsers] (lines 22-30) writes
      [JSON.stringify(data, null, 2)] and returns [true], or logs and
      returns [false].
    - Request handlers (lines 33-144): GET /users (HTML list), GET /api/users,
      GET/PATCH/DELETE /api/users/:id, POST /api/users and
      POST /submit-registration.  Each handler reads the store, works on the
      parsed array in memory with the JavaScript array and object built-ins
      ([find], [findIndex], [splice], [push], object spread) and, except for
      the two reads, writes the whole array back.
    - Interaction: the handlers share no memory.  They interact only through
      the file, at their [await] points (read, write); requests in flight
      interleave at those points.

    Library layout (one file per component, in dependency order):
    - [Prelude] (this file): the [js_scope] notations, the exception monad
      [throws] used for JavaScript [TypeError]s, the [js] hint database,
      the development's tactics and the list lemmas shared by the components.
    - [JsValue]: JavaScript values as the program sees them: numbers as
      canonical decimals with [NaN], objects as ordered property lists
      (array-index keys ascending, then insertion order), [===],
      truthiness, property read ([user.id]), CreateDataProperty
      ([obj_set]) and object spread ([{...a, ...b}]), with the
      well-formedness invariant [value_wfb] every operation preserves and
      the shallow-merge law of spread ([prop_lookup_spread]).
    - [JsonCodec]: the interface ([Class JsonCodec]) the store needs of
      [JSON.stringify]/[JSON.parse]: [JSON.parse(JSON.stringify(v))] is
      [to_json v] (undefined properties dropped, undefined elements and
      [NaN] as [null]), and parsed values are well formed and clean.
    - [Store]: the effects of an async handler as a program type [io]
      (file read, file write, error log) with [readUsers] (lines 12-20) and
      [writeUsers] (lines 22-30), a sequential runner [run] whose writes
      succeed or fail as a list of outcomes decides, the store laws and the
      round trip [save_load_roundtrip].
    - [ArrayOps]: [find], [findIndex], indexed read and assignment,
      [splice(i, 1)] and [push] on arrays, with first-match specifications.
    - [Handlers]: every route of lines 33-144 as an [io response] program,
      proved against any [JsonCodec]: create-then-get, delete removes
      exactly one, delete of an absent id, update is a shallow merge,
      fail-open, the registration form, the identifier defects, and that
      every handler finishes after at most four effects.
    - [JsonPrint], [JsonParse]: [JSON.stringify(v, null, 2)] (with
      [Number::toString] and QuoteJSONString) and [JSON.parse] (ECMA-404
      grammar, [obj_set] for members) on byte lists.
    - [JsonLex]: the token round trips: whitespace, quoted strings, and
      numbers ([num_text_roundtrip]).
    - [JsonText]: the value round trip [ser_roundtrip], that parsed values
      are well formed and clean, and the instance [json_codec].
    - [Render]: GET /users (lines 37-47): ToString of template
      substitutions (which throws on an object with an own [toString]),
      [users.map] with a throwing callback, the page; the listing does not
      escape names, and a [null] record or an unconvertible name rejects it.
    - [Concurrency]: the route table ([handle]) and requests in flight as a
      pool of [io] programs interleaving at their effects on the shared
      file ([estep], [esteps], parametrised by the write outcomes allowed,
      and the scheduler [exec]).  Every interleaving stops within four
      effects per request ([requests_terminate]).  Liveness
      ([requests_answered]): on a store of objects whose printed fields
      convert, with request bodies that keep it so, no handler rejects, and
      every run can be completed to, and every run that stops is at, a
      state where every request has sent its response.  It is proved with
      a program logic [safe_io] (a postcondition predicate on [io] trees
      with a bind rule) and the pool invariant [pool_ok].  Two overlapping
      POSTs lose the first user (the lost update).
    - [Scenarios]: the handlers run with [json_codec]: the scenario of the
      specification (section 8), a POST that takes the listing down, and
      every theorem with hypotheses applied at concrete stores and
      schedules.

    Theorem groups: C1-C12 the handlers ([Handlers]); C13-C15 requests in
    flight ([Concurrency]); C16-C17 the JSON codec ([JsonText]); C18 the
    store round trip ([Store]); C19-C21 the listing ([Render]).

    Fuel: [parse_value] and its mutual functions take one unit per call;
    [json_parse_text] gives [2 * length + 2] units.  Each call of the parser
    on a list or object consumes a character or is followed by one, so two
    units per character suffice ([roundtrips] states the bound: fuel above
    twice the length of the remaining input).  [strip_zeros] and [digits]
    run on fuel [log2 |m| + 1], above the number of decimal digits.

    Not modelled: Express path matching, middleware and body parsers (a
    request reaches [handle] with its [Number(req.params.id)] number and
    its [req.body] value), [res.sendFile] of the static form, [app.listen],
    and the text of logged error objects.  A file read or write is one
    atomic step: a read interleaved inside another request's write (a torn
    file) is not modelled; a failed write may leave any content, which the
    write outcome gives.

    Numbers are exact decimals ([Fin m e] or [NaN]), not IEEE-754 doubles:
    there is no Infinity and no negative zero, a literal such as [1e400]
    stays finite (JavaScript reads it as Infinity and writes it back as
    [null]), there is no underflow to zero, and no rounding of literals
    with more significant digits than a double holds.  The model agrees
    with JavaScript on numbers [double_safe] accepts (at most 15
    significant digits, magnitude in [1e-307, 1e308)); the store round
    trip [save_load_roundtrip] is stated for collections of such numbers
    ([nums_safe]).  Strings are UTF-8 byte sequences: a lone surrogate
    escape [\uD800] parses to the bytes of U+FFFD, where JavaScript keeps
    the code unit (and [JSON.stringify] would write it back escaped). *)

From stdpp Require Import base list strings.
From Stdlib Require Import ZArith Lia.

Declare Scope js_scope.
Delimit Scope js_scope with js.

(** ** JavaScript exceptions *)

(** The program can only raise [TypeError] (reading a property of [null] or
    [undefined], calling an array method on a non-array, destructuring
    [undefined]).  An uncaught exception in an async Express 4 handler is an
    unhandled rejection: no response is sent. *)
Inductive js_error := TypeError (what : string).

Inductive throws (A : Type) : Type :=
| Ok (a : A)
| Throw (e : js_error).
Arguments Ok {A} a.
Arguments Throw {A} e.

Definition throws_bind {A B} (c : throws A) (k : A -> throws B) : throws B :=
  match c with
  | Ok a => k a
  | Throw e => Throw e
  end.

Notation "'let!' x := c 'in' k" := (throws_bind c (fun x => k))
  (at level 10, x name, c at level 100, k at level 200) : js_scope.

Open Scope js_scope.

Lemma throws_bind_Ok {A B} (c : throws A) (k : A -> throws B) b :
  throws_bind c k = Ok b -> exists a, c = Ok a /\ k a = Ok b.
Proof. destruct c; simpl; [eauto | discriminate]. Qed.

Lemma throws_bind_ret {A B} (a : A) (k : A -> throws B) :
  throws_bind (Ok a) k = k a.
Proof. reflexivity. Qed.

(** ** Tactics and hints *)

Create HintDb js.
Create Rewrite HintDb js_rw.

Ltac invc H := inversion H; subst; clear H.

(** Split a hypothesis [let! x := c in k = Ok b]. *)
Ltac throws_inv :=
  repeat match goal with
  | H : throws_bind ?c ?k = Ok _ |- _ =>
      let a := fresh "a" in let Ha := fresh "Ha" in
      apply throws_bind_Ok in H as (a & Ha & H)
  | H : Ok _ = Ok _ |- _ => injection H as H
  end.

(** ** Shared list lemmas *)

Section ListFacts.
Context {A : Type}.

Lemma length_delete_lt (l : list A) i :
  i < length l -> length (delete i l) = length l - 1.
Proof. intros Hi. destruct (lookup_lt_is_Some_2 l i Hi) as [x Hx].
       rewrite length_delete; [lia | eauto]. Qed.

Lemma lookup_snoc_last (l : list A) x : (l ++ [x]) !! length l = Some x.
Proof. rewrite lookup_app_r by lia. by rewrite Nat.sub_diag. Qed.

End ListFacts.

#[export] Hint Resolve lookup_snoc_last : js.
