(* ===== verification/JsValue.v ===== *)
(** * JavaScript values as [src/index.js] manipulates them

    The program handles only data: the result of [JSON.parse] on the store,
    the parsed request body, and objects it builds with literals and spread.
    The file holds:
    - [number]: a JavaScript number, as an exact decimal [m * 10^e] kept in
      canonical form (no trailing zero in [m]), or [NaN].  Equality of
      canonical decimals is equality of numbers, so [===] on numbers is a
      comparison of the two fields.  This is an abstraction of IEEE-754
      doubles: there is no [Infinity] and no [-0], a literal beyond the
      double range ([1e400]) stays finite where [JSON.parse] gives
      [Infinity] (which [JSON.stringify] writes as [null]), a tiny literal
      does not underflow to [0], and a literal with more than 17
      significant digits is not rounded.  The two agree on the numbers
      [double_safe] accepts: at most 15 significant digits and magnitude in
      [[1e-307, 1e308)] (or zero).  Such a decimal converts to a double and
      back ([Number::toString]) to itself, since two distinct decimals of at
      most 15 digits never round to the same double.  The program's own
      numbers (ids [users.length + 1]) are of this kind.
    - [value]: [undefined], [null], booleans, numbers, strings, arrays and
      objects.  An object is its list of own properties in JavaScript
      enumeration order.  Functions, symbols and prototypes are absent: the
      program reads only data properties that [Object.prototype] does not
      define ([id], [fullName], [email], [phone], [password],
      [confirmPassword]).
    - array-index keys (["0"], ["1"], ...) and their decimal printing, which
      decide the order of properties (ECMAScript OrdinaryOwnPropertyKeys). *)

From stdpp Require Import base list strings sets.
From Stdlib Require Import ZArith Lia DecimalString DecimalN.
From S2P Require Import Prelude.

(** ** Numbers *)

Inductive number :=
| NaN
| Fin (m : Z) (e : Z).

(** Strip the trailing decimal zeros of [m], adding them to the exponent.
    [fuel] bounds the number of zeros removed. *)
Fixpoint strip_zeros (fuel : nat) (m e : Z) : Z * Z :=
  match fuel with
  | O => (m, e)
  | S f =>
      if (m mod 10 =? 0)%Z then strip_zeros f (m / 10) (e + 1) else (m, e)
  end.

Definition norm_dec (m e : Z) : number :=
  if (m =? 0)%Z then Fin 0 0
  else let '(m', e') := strip_zeros (S (Z.to_nat (Z.log2 (Z.abs m)))) m e in
       Fin m' e'.

Definition num_of_Z (z : Z) : number := norm_dec z 0.
Definition num_of_nat (n : nat) : number := num_of_Z (Z.of_nat n).

Definition num_canonb (n : number) : bool :=
  match n with
  | NaN => true
  | Fin m e => if (m =? 0)%Z then (e =? 0)%Z else negb (m mod 10 =? 0)%Z
  end.

(** [===] on two numbers: [NaN] equals nothing, [+0] and [-0] are the same
    decimal. *)
Definition num_eqb (a b : number) : bool :=
  match a, b with
  | Fin m e, Fin m' e' => (m =? m')%Z && (e =? e')%Z
  | _, _ => false
  end.

(** ** Values *)

Unset Elimination Schemes.
Inductive value :=
| VUndef
| VNull
| VBool (b : bool)
| VNum (n : number)
| VStr (s : string)
| VArr (xs : list value)
| VObj (ps : list (string * value)).
Set Elimination Schemes.

(** The induction principle follows the nesting through lists. *)
Definition value_ind (P : value -> Prop)
    (fundef : P VUndef) (fnull : P VNull)
    (fbool : forall b, P (VBool b)) (fnum : forall n, P (VNum n))
    (fstr : forall s, P (VStr s))
    (farr : forall xs, Forall P xs -> P (VArr xs))
    (fobj : forall ps, Forall (fun kv => P kv.2) ps -> P (VObj ps)) :
    forall v, P v :=
  fix F v :=
    match v with
    | VUndef => fundef
    | VNull => fnull
    | VBool b => fbool b
    | VNum n => fnum n
    | VStr s => fstr s
    | VArr xs =>
        farr xs ((fix G xs : Forall P xs :=
                    match xs with
                    | [] => List.Forall_nil _
                    | x :: xs' => List.Forall_cons _ x xs' (F x) (G xs')
                    end) xs)
    | VObj ps =>
        fobj ps ((fix G ps : Forall (fun kv => P kv.2) ps :=
                    match ps with
                    | [] => List.Forall_nil _
                    | kv :: ps' => List.Forall_cons _ kv ps' (F kv.2) (G ps')
                    end) ps)
    end.

#[export] Instance number_eq_dec : EqDecision number.
Proof. solve_decision. Defined.

Fixpoint value_eqb (v w : value) : bool :=
  match v, w with
  | VUndef, VUndef | VNull, VNull => true
  | VBool b, VBool b' => Bool.eqb b b'
  | VNum n, VNum n' => bool_decide (n = n')
  | VStr s, VStr s' => String.eqb s s'
  | VArr xs, VArr ys =>
      (fix G xs ys := match xs, ys with
                      | [], [] => true
                      | x :: xs', y :: ys' => value_eqb x y && G xs' ys'
                      | _, _ => false end) xs ys
  | VObj ps, VObj qs =>
      (fix G ps qs := match ps, qs with
                      | [], [] => true
                      | (k, x) :: ps', (k', y) :: qs' =>
                          String.eqb k k' && value_eqb x y && G ps' qs'
                      | _, _ => false end) ps qs
  | _, _ => false
  end.

Lemma value_eqb_eq v w : value_eqb v w = true <-> v = w.
Proof.
  split.
  - revert w; induction v as [| | b | n | s | xs IH | ps IH] using value_ind;
      intros [| | b' | n' | s' | ys | qs] H; simpl in H; try discriminate; try done.
    + by apply Bool.eqb_prop in H as ->.
    + by apply bool_decide_eq_true in H as ->.
    + by apply String.eqb_eq in H as ->.
    + f_equal. revert ys H; induction IH as [|x xs Hx _ IHl]; intros [|y ys] H; try done.
      apply andb_prop in H as [H1 H2]. f_equal; [by apply Hx | by apply IHl].
    + f_equal. revert qs H; induction IH as [|[k x] ps Hx _ IHl];
        intros [|[k' y] qs] H; try done.
      apply andb_prop in H as [H H2]. apply andb_prop in H as [H0 H1].
      apply String.eqb_eq in H0 as ->. f_equal; [f_equal; by apply Hx | by apply IHl].
  - intros <-. induction v as [| | b | n | s | xs IH | ps IH] using value_ind; simpl.
    + done.
    + done.
    + apply Bool.eqb_reflx.
    + by apply bool_decide_eq_true_2.
    + apply String.eqb_refl.
    + induction IH as [|x xs Hx _ IHl]; [done|]. by rewrite Hx, IHl.
    + induction IH as [|[k x] ps Hx _ IHl]; [done|]. simpl in Hx. by rewrite String.eqb_refl, Hx, IHl.
Qed.

#[export] Instance value_eq_dec : EqDecision value.
Proof.
  intros v w. destruct (value_eqb v w) eqn:E.
  - left. by apply value_eqb_eq.
  - right. intros H. apply value_eqb_eq in H. congruence.
Defined.

(** ** Array-index keys *)

Definition string_of_N (n : N) : string :=
  NilEmpty.string_of_uint (N.to_uint n).

Definition string_of_nat (n : nat) : string := string_of_N (N.of_nat n).

(** The largest array index is [2^32 - 2]. *)
Definition max_index : N := 4294967295%N.

(** [Some i] when [k] is the canonical decimal form of an array index. *)
Definition index_of_key (k : string) : option N :=
  match NilEmpty.uint_of_string k with
  | Some u =>
      let n := N.of_uint u in
      if String.eqb (string_of_N n) k && (n <? max_index)%N then Some n else None
  | None => None
  end.

Definition is_index_key (k : string) : bool := bool_decide (is_Some (index_of_key k)).

(** ** Objects: ordered own properties *)

Abbreviation props := (list (string * value)).

Fixpoint prop_lookup (ps : props) (k : string) : option value :=
  match ps with
  | [] => None
  | (k', v) :: ps' => if String.eqb k k' then Some v else prop_lookup ps' k
  end.

(** Overwrite the value of an existing key in place. *)
Fixpoint prop_replace (ps : props) (k : string) (v : value) : props :=
  match ps with
  | [] => []
  | (k', v') :: ps' =>
      if String.eqb k k' then (k', v) :: ps' else (k', v') :: prop_replace ps' k v
  end.

(** A new array-index key goes before the first larger index key or the
    first non-index key. *)
Fixpoint insert_index_key (ps : props) (i : N) (k : string) (v : value) : props :=
  match ps with
  | [] => [(k, v)]
  | (k', v') :: ps' =>
      match index_of_key k' with
      | Some i' => if (i <? i')%N then (k, v) :: ps
                   else (k', v') :: insert_index_key ps' i k v
      | None => (k, v) :: ps
      end
  end.

(** A new key: array indices in ascending order, other strings last. *)
Definition prop_insert (ps : props) (k : string) (v : value) : props :=
  match index_of_key k with
  | Some i => insert_index_key ps i k v
  | None => ps ++ [(k, v)]
  end.

(** [CreateDataProperty(O, k, v)] on an ordinary object. *)
Definition obj_set (ps : props) (k : string) (v : value) : props :=
  match prop_lookup ps k with
  | Some _ => prop_replace ps k v
  | None => prop_insert ps k v
  end.

(** The own enumerable properties that spread copies out of a value:
    an object's properties, an array's or a string's indexed elements;
    [undefined], [null], booleans and numbers have none. *)
Definition own_props (v : value) : props :=
  match v with
  | VObj ps => ps
  | VArr xs => imap (fun i x => (string_of_nat i, x)) xs
  | VStr s => imap (fun i c => (string_of_nat i, VStr (String c EmptyString)))
                   (String.list_ascii_of_string s)
  | _ => []
  end.

(** [{...target, ...src}]: CopyDataProperties, one [obj_set] per source
    property, in the source's order. *)
Definition obj_spread (target : props) (src : value) : props :=
  fold_left (fun acc kv => obj_set acc kv.1 kv.2) (own_props src) target.

(** ** Property read, [===], truthiness *)

Definition read_undefined (k : string) : js_error :=
  TypeError ("Cannot read properties of undefined (reading '" ++ k ++ "')").
Definition read_null (k : string) : js_error :=
  TypeError ("Cannot read properties of null (reading '" ++ k ++ "')").

(** [v.k] for a data key [k]. *)
Definition get_prop (v : value) (k : string) : throws value :=
  match v with
  | VUndef => Throw (read_undefined k)
  | VNull => Throw (read_null k)
  | VObj ps => Ok (default VUndef (prop_lookup ps k))
  | VArr xs =>
      if String.eqb k "length" then Ok (VNum (num_of_nat (length xs)))
      else match index_of_key k with
           | Some i => Ok (default VUndef (xs !! N.to_nat i))
           | None => Ok VUndef
           end
  | VStr s =>
      if String.eqb k "length" then Ok (VNum (num_of_nat (String.length s)))
      else match index_of_key k with
           | Some i => Ok (default VUndef
                             ((fun c => VStr (String c EmptyString))
                                <$> String.list_ascii_of_string s !! N.to_nat i))
           | None => Ok VUndef
           end
  | VBool _ | VNum _ => Ok VUndef
  end.

(** [a === b].  Two objects or arrays are equal only when they are the same
    reference; the program never compares a reference with itself (it
    compares [user.id] with a number, and two distinct body fields), so
    they compare unequal here. *)
Definition strict_eq (a b : value) : bool :=
  match a, b with
  | VUndef, VUndef | VNull, VNull => true
  | VBool x, VBool y => Bool.eqb x y
  | VNum x, VNum y => num_eqb x y
  | VStr x, VStr y => String.eqb x y
  | _, _ => false
  end.

(** ToBoolean. *)
Definition truthy (v : value) : bool :=
  match v with
  | VUndef | VNull => false
  | VBool b => b
  | VNum NaN => false
  | VNum (Fin m _) => negb (m =? 0)%Z
  | VStr s => negb (String.eqb s "")
  | VArr _ | VObj _ => true
  end.

(** ** Well-formedness *)

Definition bound_ok (prev : option N) (i : N) : bool :=
  match prev with None => true | Some p => (p <? i)%N end.

(** Array-index keys strictly ascending, then only non-index keys. *)
Fixpoint keys_ok (prev : option N) (ks : list string) : bool :=
  match ks with
  | [] => true
  | k :: ks' =>
      match index_of_key k with
      | Some i => bound_ok prev i && keys_ok (Some i) ks'
      | None => forallb (fun k => negb (is_index_key k)) ks'
      end
  end.

Definition props_wfb (ps : props) : bool :=
  keys_ok None (map fst ps) && bool_decide (NoDup (map fst ps)).

(** Every object has ordered, distinct keys; every number is canonical. *)
Fixpoint value_wfb (v : value) : bool :=
  match v with
  | VNum n => num_canonb n
  | VArr xs => forallb value_wfb xs
  | VObj ps => props_wfb ps && forallb (fun kv => value_wfb kv.2) ps
  | _ => true
  end.

(** The numbers on which the exact-decimal model and doubles agree. *)
Definition double_safe (n : number) : bool :=
  match n with
  | NaN => false
  | Fin m e =>
      (m =? 0)%Z ||
      ((Z.abs m <? 10 ^ 15)%Z &&
       (if (0 <=? e)%Z then (Z.abs m * 10 ^ e <? 10 ^ 308)%Z
        else (10 ^ (- e) <=? Z.abs m * 10 ^ 307)%Z))
  end.

(** Every number of a value is [double_safe]. *)
Fixpoint nums_safe (v : value) : bool :=
  match v with
  | VNum n => double_safe n
  | VArr xs => forallb nums_safe xs
  | VObj ps => forallb (fun kv => nums_safe kv.2) ps
  | _ => true
  end.

Example obj_set_order :
  obj_set (obj_set (obj_set [] "b" VNull) "7" VNull) "10" VNull
  = [("7", VNull); ("10", VNull); ("b", VNull)].
Proof. reflexivity. Qed.

Example spread_overwrites_in_place :
  obj_spread [("id", VNum (num_of_nat 3)); ("email", VStr "a")]
             (VObj [("email", VStr "b"); ("phone", VStr "c")])
  = [("id", VNum (num_of_nat 3)); ("email", VStr "b"); ("phone", VStr "c")].
Proof. reflexivity. Qed.

(** ** Index keys: decimal printing and parsing agree *)

Lemma string_of_N_inj n m : string_of_N n = string_of_N m -> n = m.
Proof.
  unfold string_of_N. intros H. apply (f_equal NilEmpty.uint_of_string) in H.
  rewrite !NilEmpty.usu in H. injection H as H.
  rewrite <- (Unsigned.of_to n), <- (Unsigned.of_to m). by rewrite H.
Qed.

Lemma index_of_key_string_of_N n :
  (n < max_index)%N -> index_of_key (string_of_N n) = Some n.
Proof.
  intros Hn. unfold index_of_key, string_of_N at 1. rewrite NilEmpty.usu.
  rewrite Unsigned.of_to, String.eqb_refl. simpl.
  by replace (n <? max_index)%N with true by (symmetry; apply N.ltb_lt; lia).
Qed.

Lemma index_of_key_inv k i : index_of_key k = Some i -> k = string_of_N i.
Proof.
  unfold index_of_key. destruct (NilEmpty.uint_of_string k); [|done].
  destruct (String.eqb _ _) eqn:E; simpl; [|done].
  destruct (_ <? _)%N; intros; simplify_eq. by apply String.eqb_eq in E.
Qed.

Lemma index_of_key_same k k' i :
  index_of_key k = Some i -> index_of_key k' = Some i -> k = k'.
Proof. intros H H'. by rewrite (index_of_key_inv _ _ H), (index_of_key_inv _ _ H'). Qed.

(** ** Lookup in property lists *)

Lemma prop_lookup_app l1 l2 k :
  prop_lookup (l1 ++ l2) k =
  match prop_lookup l1 k with Some v => Some v | None => prop_lookup l2 k end.
Proof. induction l1 as [|[k' v'] l1 IH]; simpl; [done|]. by destruct (String.eqb k k'). Qed.

Lemma prop_lookup_None ps k : prop_lookup ps k = None <-> k ∉ map fst ps.
Proof.
  induction ps as [|[k' v'] ps IH]; simpl; [set_solver|].
  destruct (String.eqb_spec k k') as [->|Hne]; [split; [done|set_solver]|].
  rewrite IH. set_solver.
Qed.

Lemma prop_lookup_Some_elem ps k v : prop_lookup ps k = Some v -> k ∈ map fst ps.
Proof.
  intros H. destruct (decide (k ∈ map fst ps)) as [|Hn]; [done|].
  apply prop_lookup_None in Hn. congruence.
Qed.

Lemma prop_replace_keys ps k v : map fst (prop_replace ps k v) = map fst ps.
Proof.
  induction ps as [|[k' v'] ps IH]; simpl; [done|].
  destruct (String.eqb k k'); simpl; by rewrite ?IH.
Qed.

Lemma prop_lookup_replace ps k v k' :
  k ∈ map fst ps ->
  prop_lookup (prop_replace ps k v) k' =
  if String.eqb k' k then Some v else prop_lookup ps k'.
Proof.
  induction ps as [|[k0 v0] ps IH]; simpl; [set_solver|]. intros Hin.
  destruct (String.eqb_spec k k0) as [->|Hne]; simpl.
  - by destruct (String.eqb k' k0).
  - rewrite IH by set_solver.
    destruct (String.eqb_spec k' k0), (String.eqb_spec k' k); congruence.
Qed.

(** A fresh key is inserted somewhere, the other properties keep their
    order. *)
Lemma insert_index_key_split ps i k v :
  exists l1 l2, ps = l1 ++ l2 /\ insert_index_key ps i k v = l1 ++ (k, v) :: l2.
Proof.
  induction ps as [|[k' v'] ps IH]; simpl.
  - by exists [], [].
  - destruct (index_of_key k'); [destruct (i <? n)%N|].
    + by exists [], ((k', v') :: ps).
    + destruct IH as (l1 & l2 & -> & ->). by exists ((k', v') :: l1), l2.
    + by exists [], ((k', v') :: ps).
Qed.

Lemma prop_insert_split ps k v :
  exists l1 l2, ps = l1 ++ l2 /\ prop_insert ps k v = l1 ++ (k, v) :: l2.
Proof.
  unfold prop_insert. destruct (index_of_key k).
  - apply insert_index_key_split.
  - exists ps, []. by rewrite app_nil_r.
Qed.

Lemma prop_lookup_middle l1 l2 k v k' :
  k ∉ map fst l1 ->
  prop_lookup (l1 ++ (k, v) :: l2) k' =
  if String.eqb k' k then Some v else prop_lookup (l1 ++ l2) k'.
Proof.
  intros Hk. rewrite !prop_lookup_app. simpl.
  destruct (String.eqb_spec k' k) as [->|]; [|done].
  by rewrite (proj2 (prop_lookup_None l1 k) Hk).
Qed.

(** [obj_set] is a map update. *)
Lemma prop_lookup_obj_set ps k v k' :
  prop_lookup (obj_set ps k v) k' =
  if String.eqb k' k then Some v else prop_lookup ps k'.
Proof.
  unfold obj_set. destruct (prop_lookup ps k) eqn:E.
  - apply prop_lookup_replace. by eapply prop_lookup_Some_elem.
  - destruct (prop_insert_split ps k v) as (l1 & l2 & -> & ->).
    apply prop_lookup_None in E. rewrite prop_lookup_middle by set_solver. done.
Qed.

Lemma prop_lookup_obj_set_eq ps k v : prop_lookup (obj_set ps k v) k = Some v.
Proof. by rewrite prop_lookup_obj_set, String.eqb_refl. Qed.

Lemma prop_lookup_obj_set_ne ps k v k' :
  k' <> k -> prop_lookup (obj_set ps k v) k' = prop_lookup ps k'.
Proof. intros Hne. rewrite prop_lookup_obj_set. by destruct (String.eqb_spec k' k). Qed.

#[export] Hint Rewrite prop_lookup_obj_set_eq : js_rw.

(** ** [obj_set] keeps objects well formed *)

Lemma keys_ok_insert_index ps prev i k v :
  index_of_key k = Some i -> k ∉ map fst ps -> bound_ok prev i = true ->
  keys_ok prev (map fst ps) = true ->
  keys_ok prev (map fst (insert_index_key ps i k v)) = true.
Proof.
  intros Hk. revert prev. induction ps as [|[k' v'] ps IH]; intros prev Hfresh Hb Hok; simpl.
  - by rewrite Hk, Hb.
  - simpl in Hok. destruct (index_of_key k') as [i'|] eqn:Hk'.
    + apply andb_prop in Hok as [Hb' Hrest].
      destruct (i <? i')%N eqn:Hlt; simpl.
      * by rewrite Hk, Hk', Hb, Hlt, Hrest.
      * rewrite Hk', Hb'. simpl. apply IH; [set_solver| |done]. simpl.
        apply N.ltb_lt. apply N.ltb_ge in Hlt.
        destruct (decide (i = i')) as [->|]; [|lia].
        exfalso. apply Hfresh. rewrite (index_of_key_same _ _ _ Hk Hk'). set_solver.
    + simpl. by rewrite Hk, Hk', Hb.
Qed.

Lemma keys_ok_snoc prev ks k :
  index_of_key k = None -> keys_ok prev ks = true -> keys_ok prev (ks ++ [k]) = true.
Proof.
  intros Hk. revert prev. induction ks as [|k' ks IH]; intros prev Hok; simpl.
  - by rewrite Hk.
  - simpl in Hok. destruct (index_of_key k').
    + apply andb_prop in Hok as [-> ?]. by apply IH.
    + rewrite forallb_app, Hok. simpl. unfold is_index_key. by rewrite Hk.
Qed.

Lemma NoDup_keys_middle (l1 l2 : props) k v :
  k ∉ map fst (l1 ++ l2) -> NoDup (map fst (l1 ++ l2)) ->
  NoDup (map fst (l1 ++ (k, v) :: l2)).
Proof.
  intros Hk Hnd. rewrite map_app. simpl. rewrite map_app in Hk, Hnd.
  rewrite <- Permutation_middle. by constructor.
Qed.

Lemma props_wfb_obj_set ps k v :
  props_wfb ps = true -> props_wfb (obj_set ps k v) = true.
Proof.
  unfold props_wfb, obj_set. intros [Hok Hnd]%andb_prop.
  apply bool_decide_eq_true in Hnd. destruct (prop_lookup ps k) eqn:E.
  - rewrite prop_replace_keys, Hok. by apply bool_decide_eq_true.
  - apply prop_lookup_None in E. apply andb_true_intro. split.
    + unfold prop_insert. destruct (index_of_key k) eqn:Hk.
      * by apply keys_ok_insert_index.
      * rewrite map_app. by apply keys_ok_snoc.
    + apply bool_decide_eq_true.
      destruct (prop_insert_split ps k v) as (l1 & l2 & -> & ->).
      by apply NoDup_keys_middle.
Qed.

(** [obj_set] keeps a property of the keys and values. *)
Lemma forallb_obj_set_kv (P : string -> value -> bool) ps k v :
  forallb (fun kv => P kv.1 kv.2) ps = true -> P k v = true ->
  forallb (fun kv => P kv.1 kv.2) (obj_set ps k v) = true.
Proof.
  intros Hps Hv. unfold obj_set. destruct (prop_lookup ps k).
  - induction ps as [|[k' v'] ps IH]; simpl in *; [done|].
    apply andb_prop in Hps as [H1 H2].
    destruct (String.eqb_spec k k') as [<-|_]; simpl; rewrite ?Hv, ?H1, ?H2, ?IH; done.
  - destruct (prop_insert_split ps k v) as (l1 & l2 & -> & ->).
    rewrite forallb_app in Hps |- *. apply andb_prop in Hps as [H1 H2]. simpl.
    by rewrite H1, Hv, H2.
Qed.

Lemma forallb_obj_set (P : value -> bool) ps k v :
  forallb (fun kv => P kv.2) ps = true -> P v = true ->
  forallb (fun kv => P kv.2) (obj_set ps k v) = true.
Proof. apply (forallb_obj_set_kv (fun _ => P)). Qed.

Lemma values_wf_obj_set ps k v :
  forallb (fun kv => value_wfb kv.2) ps = true -> value_wfb v = true ->
  forallb (fun kv => value_wfb kv.2) (obj_set ps k v) = true.
Proof. apply forallb_obj_set. Qed.

Lemma value_wfb_obj_set ps k v :
  value_wfb (VObj ps) = true -> value_wfb v = true ->
  value_wfb (VObj (obj_set ps k v)) = true.
Proof.
  simpl. intros [H1 H2]%andb_prop Hv.
  by rewrite props_wfb_obj_set, values_wf_obj_set.
Qed.

#[export] Hint Resolve props_wfb_obj_set values_wf_obj_set value_wfb_obj_set : js.

(** ** Spread *)

Lemma prop_lookup_fold_obj_set (l t : props) k :
  NoDup (map fst l) ->
  prop_lookup (fold_left (fun acc kv => obj_set acc kv.1 kv.2) l t) k =
  match prop_lookup l k with Some v => Some v | None => prop_lookup t k end.
Proof.
  revert t. induction l as [|[k' v'] l IH]; intros t Hnd; simpl; [done|].
  inversion Hnd as [|? ? Hk' Hnd']; subst.
  rewrite IH by done. rewrite prop_lookup_obj_set.
  destruct (String.eqb_spec k k') as [->|]; [|done].
  by rewrite (proj2 (prop_lookup_None l k') Hk').
Qed.

Lemma map_fst_imap {A B C} (g : nat -> B) (f : nat -> A -> C) (xs : list A) :
  map fst (imap (fun i x => (g i, f i x)) xs) = imap (fun i _ => g i) xs.
Proof.
  revert g f; induction xs as [|x xs IH]; intros g f; simpl; [done|].
  f_equal. apply (IH (fun n => g (S n)) (fun n => f (S n))).
Qed.

Lemma own_props_keys_NoDup v :
  value_wfb v = true -> NoDup (map fst (own_props v)).
Proof.
  assert (Hidx : forall {A} (f : A -> value) (xs : list A),
             NoDup (map fst (imap (fun i x => (string_of_nat i, f x)) xs))).
  { intros A f xs.
    rewrite (map_fst_imap string_of_nat (fun _ => f)). apply NoDup_alt.
    intros i j s Hi Hj.
    apply list_lookup_imap_Some in Hi as (? & _ & ->).
    apply list_lookup_imap_Some in Hj as (? & _ & Hj).
    unfold string_of_nat in Hj. by apply string_of_N_inj, Nat2N.inj in Hj. }
  destruct v as [| | | | | | ps]; simpl; intros Hwf; try apply Hidx; try constructor.
  apply andb_prop in Hwf as [[_ Hnd]%andb_prop _]. by apply bool_decide_eq_true in Hnd.
Qed.

(** Spread is a shallow merge: the source's properties win, the target's
    other properties stay. *)
Lemma prop_lookup_spread t src k :
  value_wfb src = true ->
  prop_lookup (obj_spread t src) k =
  match prop_lookup (own_props src) k with Some v => Some v | None => prop_lookup t k end.
Proof. intros Hwf. apply prop_lookup_fold_obj_set, own_props_keys_NoDup, Hwf. Qed.

(** The values directly inside an array or object. *)
Definition children_ok (P : value -> bool) (v : value) : bool :=
  match v with
  | VArr xs => forallb P xs
  | VObj ps => forallb (fun kv => P kv.2) ps
  | _ => true
  end.

Lemma own_props_forallb (P : value -> bool) v :
  (forall s, P (VStr s) = true) -> children_ok P v = true ->
  forallb (fun kv => P kv.2) (own_props v) = true.
Proof.
  intros HP. destruct v as [| | | | s | xs | ps]; simpl; try done.
  - intros _. apply forallb_forall. intros [k x] Hin.
    apply list_elem_of_In, elem_of_lookup_imap in Hin as (i & c & Heq & _).
    injection Heq as _ ->. apply HP.
  - intros Hxs. apply forallb_forall. intros [k x] Hin.
    apply list_elem_of_In, elem_of_lookup_imap in Hin as (i & y & Heq & Hy).
    injection Heq as _ ->. rewrite forallb_forall in Hxs. apply Hxs.
    by eapply list_elem_of_In, list_elem_of_lookup_2.
Qed.

Lemma forallb_spread_kv (P : string -> value -> bool) t src :
  forallb (fun kv => P kv.1 kv.2) t = true ->
  forallb (fun kv => P kv.1 kv.2) (own_props src) = true ->
  forallb (fun kv => P kv.1 kv.2) (obj_spread t src) = true.
Proof.
  unfold obj_spread. revert t. induction (own_props src) as [|[k v] l IH];
    intros t Ht Hsrc; simpl in *; [done|].
  apply andb_prop in Hsrc as [Hv Hl]. apply IH; [|done]. by apply forallb_obj_set_kv.
Qed.

Lemma forallb_spread (P : value -> bool) t src :
  forallb (fun kv => P kv.2) t = true ->
  forallb (fun kv => P kv.2) (own_props src) = true ->
  forallb (fun kv => P kv.2) (obj_spread t src) = true.
Proof. apply (forallb_spread_kv (fun _ => P)). Qed.

Lemma own_props_wf v :
  value_wfb v = true -> forallb (fun kv => value_wfb kv.2) (own_props v) = true.
Proof.
  intros Hv. apply own_props_forallb; [done|].
  destruct v; simpl in *; try done. by apply andb_prop in Hv as [_ ->].
Qed.

Lemma value_wfb_spread t src :
  value_wfb (VObj t) = true -> value_wfb src = true ->
  value_wfb (VObj (obj_spread t src)) = true.
Proof.
  intros Ht Hsrc. unfold obj_spread. apply own_props_wf in Hsrc.
  revert t Ht. induction (own_props src) as [|[k v] l IH]; intros t Ht; simpl in *; [done|].
  apply andb_prop in Hsrc as [Hv Hl]. apply IH; [done|]. by apply value_wfb_obj_set.
Qed.

#[export] Hint Resolve value_wfb_spread : js.

(** ** Numbers: normalisation keeps the value, yields canonical form *)

Lemma strip_zeros_spec f m e :
  exists j : nat, (strip_zeros f m e).2 = (e + Z.of_nat j)%Z /\
                  m = ((strip_zeros f m e).1 * 10 ^ Z.of_nat j)%Z.
Proof.
  revert m e. induction f as [|f IH]; intros m e; simpl.
  - exists 0%nat. simpl. lia.
  - destruct (Z.eqb_spec (m mod 10) 0) as [Hm|]; simpl; [|exists 0%nat; simpl; lia].
    destruct (IH (m / 10)%Z (e + 1)%Z) as (j & He & Hv).
    remember (strip_zeros f (m / 10) (e + 1)) as r eqn:Er. clear Er.
    exists (S j). rewrite He. split; [lia|].
    rewrite Nat2Z.inj_succ, Z.pow_succ_r by lia.
    rewrite (Z.div_mod m 10) at 1 by lia. rewrite Hm, Hv. lia.
Qed.

Lemma strip_zeros_canon f m e :
  m <> 0%Z -> (Z.abs m < 10 ^ Z.of_nat f)%Z ->
  (strip_zeros f m e).1 <> 0%Z /\ ((strip_zeros f m e).1 mod 10 <> 0)%Z.
Proof.
  revert m e. induction f as [|f IH]; intros m e Hm Hlt; simpl in *; [lia|].
  destruct (Z.eqb_spec (m mod 10) 0) as [Hz|Hz]; [|done].
  assert (Hd : m = (10 * (m / 10))%Z) by (rewrite (Z.div_mod m 10) at 1; lia).
  apply IH; [lia|]. rewrite Nat2Z.inj_succ, Z.pow_succ_r in Hlt by lia. lia.
Qed.

Lemma num_canonb_norm_dec m e : num_canonb (norm_dec m e) = true.
Proof.
  unfold norm_dec. destruct (Z.eqb_spec m 0); [done|].
  set (f := S (Z.to_nat (Z.log2 (Z.abs m)))).
  destruct (strip_zeros_canon f m e) as [H0 H10]; [done| |].
  - assert (Hl := Z.log2_spec (Z.abs m)). subst f.
    rewrite Nat2Z.inj_succ, Z2Nat.id by apply Z.log2_nonneg.
    assert (2 ^ Z.succ (Z.log2 (Z.abs m)) <= 10 ^ Z.succ (Z.log2 (Z.abs m)))%Z.
    { apply Z.pow_le_mono_l. lia. }
    lia.
  - destruct (strip_zeros f m e) as [m' e'] eqn:E. simpl in *.
    apply Z.eqb_neq in H0. rewrite H0. apply negb_true_iff, Z.eqb_neq, H10.
Qed.

Lemma num_of_Z_value z :
  exists m e, num_of_Z z = Fin m e /\ (0 <= e)%Z /\ z = (m * 10 ^ e)%Z.
Proof.
  unfold num_of_Z, norm_dec. destruct (Z.eqb_spec z 0) as [->|].
  - by exists 0%Z, 0%Z.
  - destruct (strip_zeros_spec (S (Z.to_nat (Z.log2 (Z.abs z)))) z 0) as (j & He & Hv).
    destruct (strip_zeros _ z 0) as [m' e']. simpl in *.
    exists m', e'. split; [done|]. split; [lia|]. by rewrite He.
Qed.

Lemma num_of_Z_inj a b : num_of_Z a = num_of_Z b -> a = b.
Proof.
  destruct (num_of_Z_value a) as (m & e & -> & _ & ->).
  destruct (num_of_Z_value b) as (m' & e' & -> & _ & ->). congruence.
Qed.

Lemma num_of_nat_inj a b : num_of_nat a = num_of_nat b -> a = b.
Proof. unfold num_of_nat. intros H. by apply num_of_Z_inj, Nat2Z.inj in H. Qed.

Lemma num_of_Z_not_NaN z : num_of_Z z <> NaN.
Proof. by destruct (num_of_Z_value z) as (m & e & -> & _). Qed.

(** [===] on numbers is equality, except for [NaN]. *)
Lemma num_eqb_true a b : num_eqb a b = true <-> a = b /\ a <> NaN.
Proof.
  destruct a, b; simpl; split; try done; try naive_solver.
  - intros [?%Z.eqb_eq ?%Z.eqb_eq]%andb_prop. by subst.
  - intros [[= -> ->] _]. by rewrite !Z.eqb_refl.
Qed.

Lemma strict_eq_num a b : strict_eq (VNum a) (VNum b) = num_eqb a b.
Proof. reflexivity. Qed.

Lemma strict_eq_num_of_nat v n :
  strict_eq v (VNum (num_of_nat n)) = true <-> v = VNum (num_of_nat n).
Proof.
  destruct v; simpl; split; try done.
  - intros [-> _]%num_eqb_true. done.
  - intros [= ->]. apply num_eqb_true. split; [done|apply num_of_Z_not_NaN].
Qed.

#[export] Hint Resolve num_canonb_norm_dec num_of_Z_not_NaN : js.

(** Normalising [m * 10^j] with [m] free of trailing zeros gives back [m]. *)
Lemma strip_zeros_pow j f m e :
  (m mod 10 <> 0)%Z -> (j <= f)%nat ->
  strip_zeros f (m * 10 ^ Z.of_nat j) e = (m, (e + Z.of_nat j)%Z).
Proof.
  revert f e. induction j as [|j IH]; intros f e Hm Hj.
  - rewrite Z.mul_1_r, Z.add_0_r. destruct f; simpl; [done|].
    by destruct (Z.eqb_spec (m mod 10) 0).
  - destruct f as [|f]; [lia|]. simpl.
    rewrite Nat2Z.inj_succ, Z.pow_succ_r by lia.
    replace (m * (10 * 10 ^ Z.of_nat j))%Z with ((m * 10 ^ Z.of_nat j) * 10)%Z by lia.
    rewrite Z.mod_mul, Z.eqb_refl, Z.div_mul by lia.
    rewrite IH by lia. f_equal. lia.
Qed.

Lemma norm_dec_shift m e j :
  m <> 0%Z -> (m mod 10 <> 0)%Z ->
  norm_dec (m * 10 ^ Z.of_nat j) e = Fin m (e + Z.of_nat j).
Proof.
  intros Hm0 Hm. unfold norm_dec.
  assert (Hp : (0 < 10 ^ Z.of_nat j)%Z) by (apply Z.pow_pos_nonneg; lia).
  destruct (Z.eqb_spec (m * 10 ^ Z.of_nat j) 0) as [H0|_]; [nia|].
  rewrite strip_zeros_pow; [done|done|].
  assert (Hge : (2 ^ Z.of_nat j <= Z.abs (m * 10 ^ Z.of_nat j))%Z).
  { rewrite Z.abs_mul, (Z.abs_eq (10 ^ _)) by lia.
    assert (2 ^ Z.of_nat j <= 10 ^ Z.of_nat j)%Z by (apply Z.pow_le_mono_l; lia). nia. }
  apply Z.log2_le_mono in Hge. rewrite Z.log2_pow2 in Hge by lia. lia.
Qed.

Lemma norm_dec_canon m e :
  num_canonb (Fin m e) = true -> norm_dec m e = Fin m e.
Proof.
  simpl. destruct (Z.eqb_spec m 0) as [->|Hm].
  - intros ->%Z.eqb_eq. done.
  - intros Hc%negb_true_iff%Z.eqb_neq.
    pose proof (norm_dec_shift m e 0 Hm Hc) as H. simpl in H. by rewrite Z.mul_1_r, Z.add_0_r in H.
Qed.
