(* ===== verification/JsonCodec.v ===== *)
(** * The JSON codec the store relies on

    [writeUsers] stores [JSON.stringify(data, null, 2)] and [readUsers]
    returns [JSON.parse(data)].  This file states what the store needs of the
    pair as a class: [JSON.parse] of a text [JSON.stringify] produced gives
    back the value as JSON sees it ([to_json]).  [to_json] drops
    [undefined]-valued properties, writes [undefined] array elements and
    [NaN] as [null].  The store and the handlers are proved against the
    class; [JsonText] implements it with the concrete text format. *)

From stdpp Require Import base list strings.
From Stdlib Require Import ZArith.
From S2P Require Import Prelude JsValue.

Definition is_undef (v : value) : bool :=
  match v with VUndef => true | _ => false end.

Definition undef_to_null (v : value) : value :=
  match v with VUndef => VNull | _ => v end.

(** The value [JSON.parse(JSON.stringify(v))] denotes. *)
Fixpoint to_json (v : value) : value :=
  match v with
  | VNum NaN => VNull
  | VArr xs =>
      VArr ((fix G xs := match xs with
                         | [] => []
                         | x :: xs' => undef_to_null (to_json x) :: G xs'
                         end) xs)
  | VObj ps =>
      VObj ((fix G ps := match ps with
                         | [] => []
                         | (k, x) :: ps' =>
                             if is_undef x then G ps' else (k, to_json x) :: G ps'
                         end) ps)
  | _ => v
  end.

(** Values JSON can denote: no [undefined], no [NaN]. *)
Fixpoint json_cleanb (v : value) : bool :=
  match v with
  | VUndef | VNum NaN => false
  | VArr xs => forallb json_cleanb xs
  | VObj ps => forallb (fun kv => json_cleanb kv.2) ps
  | _ => true
  end.

Class JsonCodec := {
  (** [None] is JavaScript's [undefined] result (for [undefined] itself). *)
  stringify : value -> option string;
  (** [None] is a [SyntaxError]. *)
  parse : string -> option value;
  stringify_defined : forall v, v <> VUndef -> is_Some (stringify v);
  stringify_undefined : stringify VUndef = None;
  parse_stringify : forall v s,
    value_wfb v = true -> stringify v = Some s -> parse s = Some (to_json v);
  parse_json : forall s v,
    parse s = Some v -> value_wfb v = true /\ json_cleanb v = true
}.

(** ** [to_json] *)

Lemma to_json_undef v : to_json v = VUndef <-> v = VUndef.
Proof. destruct v as [| | | [|] | | |]; done. Qed.

Lemma to_json_clean v : json_cleanb v = true -> to_json v = v.
Proof.
  induction v as [| | | [|] | | xs IH | ps IH] using value_ind; simpl; try done.
  - intros Hc. f_equal. induction IH as [|x xs Hx _ IHl]; [done|].
    simpl in *. apply andb_prop in Hc as [H1 H2]. rewrite Hx, IHl by done.
    by destruct x.
  - intros Hc. f_equal. induction IH as [|[k x] ps Hx _ IHl]; [done|].
    simpl in *. apply andb_prop in Hc as [H1 H2]. rewrite Hx, IHl by done.
    by destruct x.
Qed.

Lemma undef_to_null_to_json x : x <> VUndef -> undef_to_null (to_json x) = to_json x.
Proof.
  intros Hx. destruct (to_json x) eqn:E; try done.
  exfalso. by apply Hx, to_json_undef.
Qed.

Lemma is_undef_false x : is_undef x = false <-> x <> VUndef.
Proof. by destruct x. Qed.

Lemma json_cleanb_to_json v : v <> VUndef -> json_cleanb (to_json v) = true.
Proof.
  induction v as [| | | [|] | | xs IH | ps IH] using value_ind; simpl; try done; intros _.
  - induction IH as [|x xs Hx _ IHl]; [done|]. simpl. rewrite IHl, andb_true_r.
    destruct (decide (x = VUndef)) as [->|Hne]; [done|].
    rewrite undef_to_null_to_json by done. by apply Hx.
  - induction IH as [|[k x] ps Hx _ IHl]; [done|]. simpl in *.
    destruct (is_undef x) eqn:Eu; [done|]. simpl. rewrite IHl, andb_true_r.
    by apply Hx, is_undef_false.
Qed.

#[export] Hint Resolve to_json_clean json_cleanb_to_json : js.

Lemma json_cleanb_spread t src :
  json_cleanb (VObj t) = true -> json_cleanb src = true ->
  json_cleanb (VObj (obj_spread t src)) = true.
Proof.
  simpl. intros Ht Hsrc. apply forallb_spread; [done|].
  apply own_props_forallb; [done|]. by destruct src.
Qed.

#[export] Hint Resolve json_cleanb_spread : js.
