(* ===== verification/Store.v ===== *)
(** * The record store: [readUsers] and [writeUsers] (src/index.js 12-30)

    A request handler is an async function whose only effects are the file
    read, the file write and [console.error].  It is written here as a
    program of type [io A]: a tree whose nodes are those three effects, each
    with the continuation the code runs after the [await] returns.
    Everything between two effects is pure Rocq computation.

    - [readUsers] reads the file.  A read error ([None]) or a [JSON.parse]
      failure is logged and gives [[]] (fail-open).
    - [writeUsers] writes [JSON.stringify(data, null, 2)], or logs and gives
      [false].  A failed write may leave any content behind: [writeFile]
      truncates before it writes, so the runner takes the content a failed
      write leaves.
    - [run] executes a program sequentially against a [world] (the file and
      the error log).  A list of [write_outcome]s decides, write by write,
      whether the write succeeds. *)

From stdpp Require Import base list strings.
From S2P Require Import Prelude JsValue JsonCodec.

Inductive io (A : Type) : Type :=
| Ret (a : A)
| ReadFile (k : option string -> io A)
| WriteFile (data : string) (k : bool -> io A)
| LogError (msg : string) (k : io A).
Arguments Ret {A} a.
Arguments ReadFile {A} k.
Arguments WriteFile {A} data k.
Arguments LogError {A} msg k.

Fixpoint io_bind {A B} (c : io A) (f : A -> io B) : io B :=
  match c with
  | Ret a => f a
  | ReadFile k => ReadFile (fun r => io_bind (k r) f)
  | WriteFile d k => WriteFile d (fun ok => io_bind (k ok) f)
  | LogError m k => LogError m (io_bind k f)
  end.

Notation "x <- c ;; k" := (io_bind c (fun x => k))
  (at level 100, c at next level, right associativity) : js_scope.

Section Store.
Context `{JsonCodec}.

(** [const readUsers = async () => { try { ... } catch (err) { ... } }] *)
Definition readUsers : io value :=
  ReadFile (fun r =>
    match r with
    | Some data =>
        match parse data with
        | Some users => Ret users
        | None => LogError "Error reading users file:" (Ret (VArr []))
        end
    | None => LogError "Error reading users file:" (Ret (VArr []))
    end).

(** [const writeUsers = async (data) => { ... }].  [writeFile] of
    [undefined] rejects before touching the file. *)
Definition writeUsers (data : value) : io bool :=
  match stringify data with
  | Some text =>
      WriteFile text (fun ok =>
        if ok then Ret true else LogError "Error writing users file:" (Ret false))
  | None => LogError "Error writing users file:" (Ret false)
  end.
End Store.

(** ** Sequential execution *)

Record world := World { file : option string; log : list string }.

Inductive write_outcome :=
| WriteOk
| WriteFail (left_behind : option string).

(** Apply one write outcome to the file. *)
Definition do_write (w : world) (data : string) (o : write_outcome) : world * bool :=
  match o with
  | WriteOk => (World (Some data) (log w), true)
  | WriteFail after => (World after (log w), false)
  end.

(** Writes take their outcome from [ws] in order; once [ws] is exhausted
    every write succeeds. *)
Fixpoint run {A} (c : io A) (w : world) (ws : list write_outcome) : A * world :=
  match c with
  | Ret a => (a, w)
  | ReadFile k => run (k (file w)) w ws
  | WriteFile d k =>
      let '(o, ws') := match ws with [] => (WriteOk, []) | o :: ws' => (o, ws') end in
      let '(w', ok) := do_write w d o in
      run (k ok) w' ws'
  | LogError m k => run k (World (file w) (log w ++ [m])) ws
  end.

(** The number of effects a program performs on every path: requests do
    not loop. *)
Fixpoint io_steps {A} (c : io A) (bound : nat) : Prop :=
  match c with
  | Ret _ => True
  | ReadFile k => match bound with 0 => False | S b => forall r, io_steps (k r) b end
  | WriteFile _ k => match bound with 0 => False | S b => forall ok, io_steps (k ok) b end
  | LogError _ k => match bound with 0 => False | S b => io_steps k b end
  end.

(** ** Laws of the store *)

Lemma run_bind {A B} (c : io A) (f : A -> io B) w ws :
  exists ws', run (io_bind c f) w ws = run (f (run c w ws).1) (run c w ws).2 ws'.
Proof.
  revert w ws. induction c as [a|k IH|d k IH|m k IH]; intros w ws; simpl.
  - by exists ws.
  - apply IH.
  - destruct (match ws with [] => _ | _ => _ end) as [o ws'].
    destruct (do_write w d o) as [w' ok]. apply IH.
  - apply IH.
Qed.

Section StoreLaws.
Context `{JsonCodec}.

(** The store holds [v] when the file parses to [v]. *)
Definition holds (w : world) (v : value) : Prop :=
  exists text, file w = Some text /\ parse text = Some v.

Lemma run_readUsers_holds {B} (f : value -> io B) w ws v :
  holds w v -> run (io_bind readUsers f) w ws = run (f v) w ws.
Proof. intros (text & Hf & Hp). simpl. by rewrite Hf, Hp. Qed.

Lemma run_readUsers_missing {B} (f : value -> io B) w ws :
  file w = None ->
  run (io_bind readUsers f) w ws =
  run (f (VArr [])) (World None (log w ++ ["Error reading users file:"])) ws.
Proof. intros Hf. simpl. rewrite Hf. simpl. by rewrite Hf. Qed.

Lemma run_readUsers_garbled {B} (f : value -> io B) w ws text :
  file w = Some text -> parse text = None ->
  run (io_bind readUsers f) w ws =
  run (f (VArr [])) (World (Some text) (log w ++ ["Error reading users file:"])) ws.
Proof. intros Hf Hp. simpl. rewrite Hf, Hp. simpl. by rewrite Hf. Qed.

(** A successful write stores the text [JSON.stringify] gives. *)
Lemma run_writeUsers_ok {B} (f : bool -> io B) w ws v text :
  stringify v = Some text ->
  run (io_bind (writeUsers v) f) w (WriteOk :: ws) =
  run (f true) (World (Some text) (log w)) ws.
Proof. intros Hs. unfold writeUsers. by rewrite Hs. Qed.

Lemma run_writeUsers_fail {B} (f : bool -> io B) w ws v text after :
  stringify v = Some text ->
  run (io_bind (writeUsers v) f) w (WriteFail after :: ws) =
  run (f false) (World after (log w ++ ["Error writing users file:"])) ws.
Proof. intros Hs. unfold writeUsers. by rewrite Hs. Qed.

(** After a successful write of a well-formed value, the store holds the
    value as JSON denotes it. *)
Lemma holds_after_write v text l :
  value_wfb v = true -> stringify v = Some text ->
  holds (World (Some text) l) (to_json v).
Proof. intros Hwf Hs. exists text. split; [done|]. by apply parse_stringify. Qed.

(** C18. Store round trip (specification, section 8): writing back the
    collection the store holds succeeds in storing a text from which
    [readUsers] reads the same collection again: [save(load())] is the
    identity on the data.  The collection's numbers are [double_safe]: for
    them the exact decimals of the model are what the doubles of the
    program print and re-read.  Outside that range the program differs: a
    stored [1e400] is read as [Infinity] and written back as [null]. *)
Theorem save_load_roundtrip w v ws :
  holds w v -> nums_safe v = true ->
  exists t, stringify v = Some t /\
    run (writeUsers v) w (WriteOk :: ws) = (true, World (Some t) (log w)) /\
    holds (World (Some t) (log w)) v.
Proof.
  intros (text & Hf & Hp) _.
  destruct (parse_json _ _ Hp) as [Hwf Hcl].
  destruct (stringify_defined v) as [t Ht]; [by intros ->|].
  exists t. split; [done|]. split; [unfold writeUsers; by rewrite Ht|].
  rewrite <- (to_json_clean v Hcl). by apply holds_after_write.
Qed.
End StoreLaws.

(** ** Bounded effects *)

Lemma io_steps_mono {A} (c : io A) n m : io_steps c n -> n <= m -> io_steps c m.
Proof.
  revert n m. induction c as [a|k IH|d k IH|msg k IH]; intros n m Hc Hle; [done|..];
    destruct n as [|n]; try done; destruct m as [|m]; try lia; simpl in *;
    [intros r|intros ok|]; eapply IH; eauto with lia.
Qed.

Lemma io_steps_bind {A B} (c : io A) (f : A -> io B) n m :
  io_steps c n -> (forall a, io_steps (f a) m) -> io_steps (io_bind c f) (n + m).
Proof.
  revert n. induction c as [a|k IH|d k IH|msg k IH]; intros n Hc Hf; simpl.
  - eapply io_steps_mono; [apply Hf|lia].
  - destruct n; [done|]. intros r. by apply IH.
  - destruct n; [done|]. intros ok. by apply IH.
  - destruct n; [done|]. by apply IH.
Qed.

Lemma io_steps_bind_le {A B} (c : io A) (f : A -> io B) n m b :
  io_steps c n -> (forall a, io_steps (f a) m) -> n + m <= b -> io_steps (io_bind c f) b.
Proof. intros Hc Hf Hle. eapply io_steps_mono; [by apply io_steps_bind|done]. Qed.

Section StoreSteps.
Context `{JsonCodec}.

Lemma readUsers_steps : io_steps readUsers 2.
Proof. intros [data|]; simpl; [destruct (parse data)|]; done. Qed.

Lemma writeUsers_steps v : io_steps (writeUsers v) 2.
Proof. unfold writeUsers. destruct (stringify v); simpl; [intros []|]; done. Qed.
End StoreSteps.
