(* ===== verification/ArrayOps.v ===== *)
(** * The Array built-ins the handlers call on the parsed store

    [users.find(cb)], [users.findIndex(cb)], [users[i]], [users[i] = v],
    [users.splice(i, 1)] and [users.push(v)], as ECMAScript defines them on
    an array without holes.  The callback may throw (reading [.id] of a
    [null] element), so it returns [throws bool].  The callback sees the
    elements in index order and the search stops at the first match.  A
    method call on a value that is not an array is a [TypeError]. *)

From stdpp Require Import base list strings.
From Stdlib Require Import ZArith Lia.
From S2P Require Import Prelude JsValue.

(** [users.meth]: reading the method of [null] or [undefined] throws; on
    any other value that is not an array the method is [undefined], and the
    call throws. *)
Definition as_array (v : value) (meth : string) : throws (list value) :=
  match v with
  | VArr xs => Ok xs
  | VNull => Throw (read_null meth)
  | VUndef => Throw (read_undefined meth)
  | _ => Throw (TypeError ("users." ++ meth ++ " is not a function"))
  end.

Section Search.
Context (p : value -> throws bool).

(** [Array.prototype.find]: the first element the callback accepts, or
    [undefined]. *)
Fixpoint js_find (xs : list value) : throws value :=
  match xs with
  | [] => Ok VUndef
  | x :: xs' => let! b := p x in if b then Ok x else js_find xs'
  end.

Fixpoint find_index_from (xs : list value) (i : nat) : throws Z :=
  match xs with
  | [] => Ok (-1)%Z
  | x :: xs' => let! b := p x in if b then Ok (Z.of_nat i) else find_index_from xs' (S i)
  end.

(** [Array.prototype.findIndex]: the first accepted index, or [-1]. *)
Definition js_findIndex (xs : list value) : throws Z := find_index_from xs 0.
End Search.

(** [users[i]]: an index in range reads the element; any other number names
    a property an array parsed from JSON does not have. *)
Definition array_get (xs : list value) (i : Z) : value :=
  if (0 <=? i)%Z then default VUndef (xs !! Z.to_nat i) else VUndef.

(** [users[i] = v]: in range it replaces the element; past the end it
    extends the array (the gap reads as [undefined]); a negative [i] creates
    the property ["-1"], which is not an element and which
    [JSON.stringify] does not write. *)
Definition array_set (xs : list value) (i : Z) (v : value) : list value :=
  if (i <? 0)%Z then xs
  else if (Z.to_nat i <? length xs)%nat then <[Z.to_nat i := v]> xs
  else xs ++ replicate (Z.to_nat i - length xs) VUndef ++ [v].

(** [users.splice(i, 1)]: a negative start counts from the end. *)
Definition js_splice_one (xs : list value) (i : Z) : list value :=
  let start := if (i <? 0)%Z then Z.to_nat (Z.max 0 (Z.of_nat (length xs) + i))
               else Z.to_nat i in
  delete start xs.

(** [users.push(v)]. *)
Definition js_push (xs : list value) (v : value) : list value := xs ++ [v].

(** ** Specifications *)

Section SearchSpec.
Context (p : value -> throws bool).

Definition rejects (xs : list value) : Prop := Forall (fun y => p y = Ok false) xs.

Lemma find_index_from_shift xs i :
  find_index_from p xs (S i) =
  let! r := find_index_from p xs i in Ok (if (r <? 0)%Z then r else (r + 1)%Z).
Proof.
  revert i. induction xs as [|x xs IH]; intros i; simpl; [done|].
  destruct (p x) as [[]|e]; simpl; [|by rewrite IH|done].
  f_equal. destruct (Z.ltb_spec (Z.of_nat i) 0); lia.
Qed.

(** The first accepted index is found when every earlier element is
    rejected. *)
Lemma js_findIndex_first xs i x :
  rejects (take i xs) -> xs !! i = Some x -> p x = Ok true ->
  js_findIndex p xs = Ok (Z.of_nat i).
Proof.
  unfold js_findIndex. revert xs. induction i as [|i IH]; intros [|y xs] Hrej Hx Hp;
    simpl in *; try done.
  - injection Hx as ->. by rewrite Hp.
  - inversion Hrej as [|? ? Hy Hrej']; subst. rewrite Hy. simpl.
    rewrite find_index_from_shift, (IH xs) by done. simpl. f_equal.
    destruct (Z.ltb_spec (Z.of_nat i) 0); lia.
Qed.

Lemma js_findIndex_none xs : rejects xs -> js_findIndex p xs = Ok (-1)%Z.
Proof.
  unfold js_findIndex. intros Hr. generalize 0%nat as n.
  induction Hr as [|y xs Hy _ IH]; intros n; simpl; [done|]. rewrite Hy. apply IH.
Qed.

Lemma js_find_first xs i x :
  rejects (take i xs) -> xs !! i = Some x -> p x = Ok true -> js_find p xs = Ok x.
Proof.
  revert xs. induction i as [|i IH]; intros [|y xs] Hrej Hx Hp; simpl in *; try done.
  - injection Hx as ->. by rewrite Hp.
  - inversion Hrej as [|? ? Hy Hrej']; subst. rewrite Hy. by apply IH.
Qed.

Lemma js_find_none xs : rejects xs -> js_find p xs = Ok VUndef.
Proof. induction 1 as [|y xs Hy _ IH]; simpl; [done|]. rewrite Hy. apply IH. Qed.

(** [findIndex] answers [-1] or an index in range. *)
Lemma js_findIndex_range xs i :
  js_findIndex p xs = Ok i -> i = (-1)%Z \/ (0 <= i < Z.of_nat (length xs))%Z.
Proof.
  unfold js_findIndex.
  assert (forall n, find_index_from p xs n = Ok i ->
                    i = (-1)%Z \/ (Z.of_nat n <= i < Z.of_nat (n + length xs))%Z)
    as Hgen by (induction xs as [|x xs IH]; intros n; simpl;
      [intros [= <-]; by left|
       destruct (p x) as [[]|]; simpl; [intros [= <-]; right; lia|
         intros H%IH; lia|done]]).
  intros H%Hgen. lia.
Qed.

(** [find] reads the element at the index [findIndex] returns. *)
Lemma js_find_findIndex xs :
  js_find p xs = let! i := js_findIndex p xs in Ok (array_get xs i).
Proof.
  unfold js_findIndex, array_get.
  assert (forall n ys, find_index_from p ys n =
            let! r := find_index_from p ys 0 in
            Ok (if (r <? 0)%Z then r else (r + Z.of_nat n)%Z)) as Hshift.
  { intros n ys. induction n as [|n IH].
    - destruct (find_index_from p ys 0) as [r|]; simpl; [|done].
      f_equal. destruct (Z.ltb_spec r 0); lia.
    - rewrite find_index_from_shift, IH.
      destruct (find_index_from p ys 0) as [r|]; simpl; [|done]. f_equal.
      destruct (Z.ltb_spec r 0); simpl.
      + by replace (r <? 0)%Z with true by lia.
      + destruct (Z.ltb_spec (r + Z.of_nat n) 0); lia. }
  induction xs as [|x xs IH]; simpl; [done|].
  destruct (p x) as [[]|]; simpl; [done| |done].
  rewrite (Hshift 1%nat xs), IH.
  destruct (find_index_from p xs 0) as [r|]; simpl; [|done].
  change (Z.of_nat 1) with 1%Z.
  destruct (Z.ltb_spec r 0); simpl.
  - by replace (0 <=? r)%Z with false by lia.
  - replace (0 <=? r + 1)%Z with true by lia. replace (0 <=? r)%Z with true by lia.
    f_equal. by replace (Z.to_nat (r + 1)) with (S (Z.to_nat r)) by lia.
Qed.
(** A callback that never throws makes the searches total. *)
Lemma js_find_total xs :
  Forall (fun x => exists b, p x = Ok b) xs -> exists u, js_find p xs = Ok u.
Proof.
  induction 1 as [|x xs [b Hb] _ [u Hu]]; [by eexists|]. simpl. rewrite Hb.
  destruct b; simpl; eauto.
Qed.

Lemma js_findIndex_total xs :
  Forall (fun x => exists b, p x = Ok b) xs -> exists i, js_findIndex p xs = Ok i.
Proof.
  intros Hxs. unfold js_findIndex. generalize 0%nat.
  induction Hxs as [|x xs [b Hb] _ IH]; intros n; [by eexists|]. simpl. rewrite Hb.
  destruct b; simpl; eauto.
Qed.

Lemma rejects_lookup xs :
  rejects xs <-> forall j y, xs !! j = Some y -> p y = Ok false.
Proof. apply Forall_lookup. Qed.

(** When only the element at [i] is accepted, everything before it and
    everything left after removing it is rejected. *)
Lemma rejects_take_unique xs i :
  (forall j y, xs !! j = Some y -> j <> i -> p y = Ok false) -> rejects (take i xs).
Proof.
  intros Hu. apply rejects_lookup. intros j y Hj.
  rewrite lookup_take_Some in Hj. destruct Hj as [Hj Hlt]. apply (Hu j); [done|lia].
Qed.

Lemma rejects_delete_unique xs i :
  (forall j y, xs !! j = Some y -> j <> i -> p y = Ok false) -> rejects (delete i xs).
Proof.
  intros Hu. apply rejects_lookup. intros j y Hj. rewrite list_lookup_delete in Hj.
  destruct (decide (j < i)); apply (Hu _ _ Hj); lia.
Qed.
End SearchSpec.

Lemma array_get_in_range xs (i : nat) x : xs !! i = Some x -> array_get xs (Z.of_nat i) = x.
Proof. intros H. unfold array_get. rewrite Nat2Z.id, H. by destruct (Z.leb_spec 0 (Z.of_nat i)); [|lia]. Qed.

Lemma array_get_neg xs i : (i < 0)%Z -> array_get xs i = VUndef.
Proof. intros H. unfold array_get. by destruct (Z.leb_spec 0 i); [lia|]. Qed.

Lemma array_set_neg xs i v : (i < 0)%Z -> array_set xs i v = xs.
Proof. intros H. unfold array_set. by destruct (Z.ltb_spec i 0); [|lia]. Qed.

Lemma array_set_in_range xs (i : nat) v :
  i < length xs -> array_set xs (Z.of_nat i) v = <[i := v]> xs.
Proof.
  intros H. unfold array_set. rewrite Nat2Z.id.
  destruct (Z.ltb_spec (Z.of_nat i) 0); [lia|]. by rewrite (proj2 (Nat.ltb_lt _ _) H).
Qed.

Lemma js_splice_one_in_range xs (i : nat) :
  js_splice_one xs (Z.of_nat i) = delete i xs.
Proof. unfold js_splice_one. destruct (Z.ltb_spec (Z.of_nat i) 0); [lia|]. by rewrite Nat2Z.id. Qed.

#[export] Hint Resolve js_findIndex_none js_find_none : js.
