(* ===== verification/Handlers.v ===== *)
(** * The request handlers (src/index.js 33-144)

    Each route handler is an [io response] program that reads the store
    with [readUsers], computes on the parsed value with the built-ins of
    [ArrayOps] and [JsValue], and writes with [writeUsers].  A [TypeError]
    thrown between two [await]s ends the program with [RUnhandled]: Express 4
    does not catch a rejected async handler, and no response is sent.
    Response bodies are the values given to [res.json]; Express serialises
    them with [JSON.stringify].

    The handler receives [Number(req.params.id)] as a [number] and
    [req.body] as the value the body parsers produced.  The handlers are
    defined, and their theorems proved, for any [JsonCodec]. *)

From stdpp Require Import base list strings.
From Stdlib Require Import ZArith Lia.
From S2P Require Import Prelude JsValue JsonCodec Store ArrayOps.

Inductive response :=
| RJson (status : nat) (body : value)
| RSend (text : string)
| RRedirect (path : string)
| RSendFile (path : string)
| RUnhandled (e : js_error).

(** Run the pure part of a handler; a thrown exception rejects it. *)
Definition lift {A} (c : throws A) (k : A -> io response) : io response :=
  match c with
  | Ok a => k a
  | Throw e => Ret (RUnhandled e)
  end.

(** The callback [(user) => user.id === id]. *)
Definition match_id (id : number) (user : value) : throws bool :=
  let! x := get_prop user "id" in Ok (strict_eq x (VNum id)).

Definition not_found : response := RJson 404 (VObj [("error", VStr "User not found")]).

Definition failed (what : string) : response :=
  RJson 500 (VObj [("error", VStr ("Failed to " ++ what ++ " user"))]).

(** [users.length + 1] then [users.push(newUser)]: [users.length] throws on
    [null]; [push] throws on anything but an array.  Nothing observable
    happens between the two. *)
Definition users_for_push (users : value) : throws (list value) :=
  let! _ := get_prop users "length" in as_array users "push".

(** [users.findIndex((user) => user.id === id)]. *)
Definition find_user_index (users : value) (id : number) : throws (list value * Z) :=
  let! xs := as_array users "findIndex" in
  let! index := js_findIndex (match_id id) xs in
  Ok (xs, index).

Section Handlers.
Context `{JsonCodec}.

(** GET /register *)
Definition get_register : io response := Ret (RSendFile "register.html").

(** GET /api/users *)
Definition get_api_users : io response :=
  users <- readUsers ;;
  Ret (RJson 200 users).

(** GET /api/users/:id *)
Definition get_user (id : number) : io response :=
  users <- readUsers ;;
  lift (let! xs := as_array users "find" in js_find (match_id id) xs) (fun user =>
  if negb (truthy user) then Ret not_found
  else Ret (RJson 200 user)).

(** PATCH /api/users/:id *)
Definition patch_user (id : number) (body : value) : io response :=
  users <- readUsers ;;
  lift (find_user_index users id) (fun '(xs, index) =>
  let updatedUser := VObj (obj_spread (obj_spread [] (array_get xs index)) body) in
  success <- writeUsers (VArr (array_set xs index updatedUser)) ;;
  if negb success then Ret (failed "update")
  else Ret (RJson 200 (VObj [("status", VStr "Updated"); ("user", updatedUser)]))).

(** DELETE /api/users/:id *)
Definition delete_user (id : number) : io response :=
  users <- readUsers ;;
  lift (find_user_index users id) (fun '(xs, index) =>
  if (index =? -1)%Z then Ret not_found
  else
  success <- writeUsers (VArr (js_splice_one xs index)) ;;
  if negb success then Ret (failed "delete")
  else Ret (RJson 200 (VObj [("status", VStr "Deleted"); ("id", VNum id)]))).

(** The object literal [{ id: users.length + 1, ...req.body }]. *)
Definition new_api_user (xs : list value) (body : value) : value :=
  VObj (obj_spread [("id", VNum (num_of_nat (length xs + 1)))] body).

(** POST /api/users *)
Definition post_user (body : value) : io response :=
  users <- readUsers ;;
  lift (users_for_push users) (fun xs =>
  let newUser := new_api_user xs body in
  success <- writeUsers (VArr (js_push xs newUser)) ;;
  if negb success then Ret (failed "create")
  else Ret (RJson 200 (VObj [("status", VStr "Success"); ("user", newUser)]))).

(** The object literal [{ id, fullName, email, phone, password }]. *)
Definition new_form_user (xs : list value) (fullName email phone password : value) : value :=
  VObj [("id", VNum (num_of_nat (length xs + 1))); ("fullName", fullName);
        ("email", email); ("phone", phone); ("password", password)].

(** POST /submit-registration.  The result of [writeUsers] is not
    checked. *)
Definition submit_registration (body : value) : io response :=
  lift (let! fullName := get_prop body "fullName" in
        let! email := get_prop body "email" in
        let! phone := get_prop body "phone" in
        let! password := get_prop body "password" in
        let! confirmPassword := get_prop body "confirmPassword" in
        Ok (fullName, email, phone, password, confirmPassword))
    (fun '(fullName, email, phone, password, confirmPassword) =>
  if negb (strict_eq password confirmPassword)
  then Ret (RSend "Passwords do not match. Please try again.")
  else
  users <- readUsers ;;
  lift (users_for_push users) (fun xs =>
  _ <- writeUsers (VArr (js_push xs (new_form_user xs fullName email phone password))) ;;
  Ret (RRedirect "/users"))).
End Handlers.

(** ** Shared lemmas *)

Lemma value_wfb_id_obj v : value_wfb v = true -> value_wfb (VObj [("id", v)]) = true.
Proof. intros Hv. simpl. by rewrite Hv. Qed.

Lemma json_cleanb_id_obj v : json_cleanb v = true -> json_cleanb (VObj [("id", v)]) = true.
Proof. intros Hv. simpl. by rewrite Hv. Qed.

Lemma value_wfb_num_of_nat n : value_wfb (VNum (num_of_nat n)) = true.
Proof. apply num_canonb_norm_dec. Qed.

Lemma json_cleanb_num_of_nat n : json_cleanb (VNum (num_of_nat n)) = true.
Proof. simpl. by destruct (num_of_nat n) eqn:E; [apply num_of_Z_not_NaN in E|]. Qed.

#[export] Hint Resolve value_wfb_num_of_nat json_cleanb_num_of_nat : js.

Lemma new_api_user_wf xs body :
  value_wfb body = true -> value_wfb (new_api_user xs body) = true.
Proof.
  intros Hb. apply value_wfb_spread; [|done]. apply value_wfb_id_obj. auto with js.
Qed.

Lemma new_api_user_clean xs body :
  json_cleanb body = true -> json_cleanb (new_api_user xs body) = true.
Proof.
  intros Hb. apply json_cleanb_spread; [|done]. apply json_cleanb_id_obj. auto with js.
Qed.

(** The id of the created user: the body's [id] when it has one, else
    [users.length + 1]. *)
Lemma new_api_user_id xs body :
  value_wfb body = true ->
  get_prop (new_api_user xs body) "id" =
  Ok (default (VNum (num_of_nat (length xs + 1))) (prop_lookup (own_props body) "id")).
Proof.
  intros Hb. unfold new_api_user. simpl. rewrite prop_lookup_spread by done.
  by destruct (prop_lookup (own_props body) "id").
Qed.

Lemma match_id_self n u :
  get_prop u "id" = Ok (VNum (num_of_nat n)) -> match_id (num_of_nat n) u = Ok true.
Proof.
  intros Hu. unfold match_id. rewrite Hu. simpl. f_equal.
  apply num_eqb_true. split; [done|apply num_of_Z_not_NaN].
Qed.

Lemma lift_Ok {A} (a : A) k : lift (Ok a) k = k a.
Proof. reflexivity. Qed.

Lemma users_for_push_arr xs : users_for_push (VArr xs) = Ok xs.
Proof. reflexivity. Qed.

Lemma as_array_arr xs m : as_array (VArr xs) m = Ok xs.
Proof. reflexivity. Qed.

Lemma forallb_app_snoc (P : value -> bool) xs x :
  forallb P xs = true -> P x = true -> forallb P (xs ++ [x]) = true.
Proof. intros H1 H2. rewrite forallb_app. simpl. by rewrite H1, H2. Qed.

Section HandlerLaws.
Context `{JsonCodec}.

Lemma holds_json w v : holds w v -> value_wfb v = true /\ json_cleanb v = true.
Proof. intros (t & _ & Hp). by eapply parse_json. Qed.

(** Writing an array: [JSON.stringify] gives a text, which a successful
    write stores. *)
Lemma run_write_arr xs w ws :
  exists t, stringify (VArr xs) = Some t /\
    forall B (k : bool -> io B),
    run (io_bind (writeUsers (VArr xs)) k) w (WriteOk :: ws) =
    run (k true) (World (Some t) (log w)) ws.
Proof.
  destruct (stringify_defined (VArr xs)) as [t Ht]; [done|].
  exists t. split; [done|]. intros B k. by apply run_writeUsers_ok.
Qed.

Lemma run_write_arr_fail xs w ws after :
  exists t, stringify (VArr xs) = Some t /\
    forall B (k : bool -> io B),
    run (io_bind (writeUsers (VArr xs)) k) w (WriteFail after :: ws) =
    run (k false) (World after (log w ++ ["Error writing users file:"])) ws.
Proof.
  destruct (stringify_defined (VArr xs)) as [t Ht]; [done|].
  exists t. split; [done|]. intros B k. by eapply run_writeUsers_fail.
Qed.

(** After a successful write of a clean, well-formed array the store holds
    exactly that array. *)
Lemma holds_written xs t l :
  value_wfb (VArr xs) = true -> json_cleanb (VArr xs) = true ->
  stringify (VArr xs) = Some t -> holds (World (Some t) l) (VArr xs).
Proof.
  intros Hwf Hc Ht. rewrite <- (to_json_clean (VArr xs) Hc).
  by apply holds_after_write.
Qed.
End HandlerLaws.

(** ** Create, then read back *)

Section CreateThenGet.
Context `{JsonCodec}.

(** C1. POST /api/users followed by GET /api/users/<assigned id> returns
    the user POST created, when the body is a JSON value without an [id]
    property and no stored user already has the id [users.length + 1]. *)
Theorem create_then_get w us body :
  holds w (VArr us) ->
  value_wfb body = true -> json_cleanb body = true ->
  prop_lookup (own_props body) "id" = None ->
  rejects (match_id (num_of_nat (length us + 1))) us ->
  (run (post_user body) w [WriteOk]).1 =
    RJson 200 (VObj [("status", VStr "Success"); ("user", new_api_user us body)]) /\
  (run (get_user (num_of_nat (length us + 1))) (run (post_user body) w [WriteOk]).2 []).1 =
    RJson 200 (new_api_user us body).
Proof.
  intros Hw Hb Hc Hid Hrej. destruct (holds_json _ _ Hw) as [Hwf Hcl].
  set (u := new_api_user us body).
  assert (Hu : match_id (num_of_nat (length us + 1)) u = Ok true).
  { apply match_id_self. subst u. by rewrite new_api_user_id, Hid. }
  unfold post_user. rewrite (run_readUsers_holds _ _ _ (VArr us)), users_for_push_arr, lift_Ok by done.
  destruct (run_write_arr (js_push us u) w []) as (t & Ht & Hrun).
  rewrite Hrun. cbn [negb run fst snd]. split; [done|].
  unfold get_user. rewrite (run_readUsers_holds _ _ _ (VArr (js_push us u))).
  2: { apply holds_written; [apply forallb_app_snoc| apply forallb_app_snoc|];
       try done; [apply new_api_user_wf | apply new_api_user_clean]; done. }
  rewrite as_array_arr, throws_bind_ret.
  rewrite (js_find_first _ _ (length us) u); [done| |apply lookup_snoc_last|done].
  unfold js_push. by rewrite take_app_length.
Qed.
End CreateThenGet.

(** ** Lookup by id *)

Lemma find_user_index_found us id i u :
  rejects (match_id id) (take i us) -> us !! i = Some u -> match_id id u = Ok true ->
  find_user_index (VArr us) id = Ok (us, Z.of_nat i).
Proof. intros Hr Hu Hm. unfold find_user_index. simpl. by erewrite js_findIndex_first. Qed.

Lemma find_user_index_none us id :
  rejects (match_id id) us -> find_user_index (VArr us) id = Ok (us, (-1)%Z).
Proof. intros Hr. unfold find_user_index. simpl. by rewrite js_findIndex_none. Qed.

(** The id [id] belongs to the user at [i] and to no other. *)
Definition unique_at (id : number) (us : list value) (i : nat) (u : value) : Prop :=
  us !! i = Some u /\ match_id id u = Ok true /\
  forall j y, us !! j = Some y -> j <> i -> match_id id y = Ok false.

Lemma list_insert_wf (P : value -> bool) (us : list value) i v :
  forallb P us = true -> P v = true -> forallb P (<[i := v]> us) = true.
Proof.
  intros Hus Hv. revert i. induction us as [|x us IH]; intros [|i]; simpl in *; try done;
    apply andb_prop in Hus as [H1 H2]; rewrite ?H1, ?H2, ?Hv; simpl; auto.
Qed.

Lemma list_delete_wf (P : value -> bool) (us : list value) i :
  forallb P us = true -> forallb P (delete i us) = true.
Proof.
  rewrite !forallb_forall. intros Hus x Hx%list_elem_of_In.
  apply Hus, list_elem_of_In. by eapply list_elem_of_delete_inv.
Qed.

Section DeleteUpdate.
Context `{JsonCodec}.

(** C2. DELETE /api/users/:id on a store where exactly one user has the
    id removes exactly that user: the response is [Deleted], the store
    keeps the other [N - 1] users in order, and none has the id. *)
Theorem delete_removes_exactly_one w us id i u :
  holds w (VArr us) -> unique_at id us i u ->
  exists t,
    run (delete_user id) w [WriteOk] =
      (RJson 200 (VObj [("status", VStr "Deleted"); ("id", VNum id)]),
       World (Some t) (log w)) /\
    holds (World (Some t) (log w)) (VArr (delete i us)) /\
    length (delete i us) = length us - 1 /\
    rejects (match_id id) (delete i us).
Proof.
  intros Hw (Hu & Hm & Huniq). destruct (holds_json _ _ Hw) as [Hwf Hcl].
  unfold delete_user. rewrite (run_readUsers_holds _ _ _ (VArr us)) by done.
  rewrite (find_user_index_found us id i u); [|by apply rejects_take_unique|done|done].
  rewrite lift_Ok. destruct (Z.eqb_spec (Z.of_nat i) (-1)) as [|_]; [lia|].
  rewrite js_splice_one_in_range.
  destruct (run_write_arr (delete i us) w []) as (t & Ht & Hrun).
  exists t. rewrite Hrun. split; [done|]. split; [|split].
  - apply holds_written; [by apply list_delete_wf..|done].
  - apply length_delete_lt. by eapply lookup_lt_Some.
  - by apply rejects_delete_unique.
Qed.

(** C3. DELETE /api/users/:id of an id no stored user has answers 404
    and performs no write: the store and the log are unchanged. *)
Theorem delete_absent w us id ws :
  holds w (VArr us) -> rejects (match_id id) us ->
  run (delete_user id) w ws = (not_found, w).
Proof.
  intros Hw Hr. unfold delete_user. rewrite (run_readUsers_holds _ _ _ (VArr us)) by done.
  by rewrite find_user_index_none.
Qed.

(** C4. PATCH /api/users/:id on a found user is a shallow merge: the
    stored user becomes an object whose properties are the body's where
    the body has them and the old user's elsewhere, at the same position;
    the other users are unchanged. *)
Theorem update_is_shallow_merge w us id i ps body :
  holds w (VArr us) -> rejects (match_id id) (take i us) ->
  us !! i = Some (VObj ps) -> match_id id (VObj ps) = Ok true ->
  value_wfb body = true -> json_cleanb body = true ->
  exists q,
    (run (patch_user id body) w [WriteOk]).1 =
      RJson 200 (VObj [("status", VStr "Updated"); ("user", VObj q)]) /\
    holds (run (patch_user id body) w [WriteOk]).2 (VArr (<[i := VObj q]> us)) /\
    forall k, prop_lookup q k =
      match prop_lookup (own_props body) k with
      | Some v => Some v
      | None => prop_lookup ps k
      end.
Proof.
  intros Hw Hr Hu Hm Hb Hc. destruct (holds_json _ _ Hw) as [Hwf Hcl].
  assert (Hi : i < length us) by (eapply lookup_lt_Some; eauto).
  assert (Hpw : value_wfb (VObj ps) = true /\ json_cleanb (VObj ps) = true).
  { split; [apply (proj1 (forallb_forall _ us) Hwf) | apply (proj1 (forallb_forall _ us) Hcl)];
      by eapply list_elem_of_In, list_elem_of_lookup_2. }
  destruct Hpw as [Hpw Hpc].
  set (q := obj_spread (obj_spread [] (VObj ps)) body).
  exists q. unfold patch_user. rewrite (run_readUsers_holds _ _ _ (VArr us)) by done.
  rewrite (find_user_index_found us id i (VObj ps)), lift_Ok by done.
  rewrite (array_get_in_range _ _ _ Hu), array_set_in_range by done.
  destruct (run_write_arr (<[i := VObj q]> us) w []) as (t & Ht & Hrun).
  rewrite Hrun. cbn [negb run fst snd]. split; [done|]. split.
  - apply holds_written; [apply list_insert_wf..|done]; try done.
    + apply value_wfb_spread; [apply value_wfb_spread|]; done.
    + apply json_cleanb_spread; [apply json_cleanb_spread|]; done.
  - intros k. subst q. rewrite !prop_lookup_spread by done. simpl.
    by destruct (prop_lookup ps k).
Qed.

(** C5. PATCH /api/users/:id of an id no stored user has still answers
    200 [Updated], with the body (spread into a fresh object) as the user.
    It rewrites the store with the same users: nothing is created. *)
Theorem patch_missing_id w us id body :
  holds w (VArr us) -> rejects (match_id id) us ->
  exists t,
    run (patch_user id body) w [WriteOk] =
      (RJson 200 (VObj [("status", VStr "Updated"); ("user", VObj (obj_spread [] body))]),
       World (Some t) (log w)) /\
    holds (World (Some t) (log w)) (VArr us).
Proof.
  intros Hw Hr. destruct (holds_json _ _ Hw) as [Hwf Hcl].
  unfold patch_user. rewrite (run_readUsers_holds _ _ _ (VArr us)) by done.
  rewrite find_user_index_none, lift_Ok by done.
  rewrite array_get_neg, array_set_neg by lia.
  destruct (run_write_arr us w []) as (t & Ht & Hrun).
  exists t. rewrite Hrun. split; [done|]. by apply holds_written.
Qed.
End DeleteUpdate.

(** ** Failure paths and identifier defects *)

Section Defects.
Context `{JsonCodec}.

(** The file cannot be read, or does not parse. *)
Definition unreadable (w : world) : Prop :=
  file w = None \/ exists t, file w = Some t /\ parse t = None.

Lemma run_readUsers_unreadable {B} (f : value -> io B) w ws :
  unreadable w ->
  run (io_bind readUsers f) w ws =
  run (f (VArr [])) (World (file w) (log w ++ ["Error reading users file:"])) ws.
Proof.
  intros [Hf|(t & Hf & Hp)].
  - rewrite run_readUsers_missing by done. by rewrite Hf.
  - rewrite (run_readUsers_garbled _ _ _ t) by done. by rewrite Hf.
Qed.

(** C6. Fail-open: when the store cannot be read or parsed, GET
    /api/users answers an empty list, logs the error and leaves the file
    as it was. *)
Theorem fail_open_list w ws :
  unreadable w ->
  run get_api_users w ws =
    (RJson 200 (VArr []), World (file w) (log w ++ ["Error reading users file:"])).
Proof. intros Hu. unfold get_api_users. by rewrite run_readUsers_unreadable. Qed.

(** C7. Fail-open loses data: after a read failure, a successful POST
    /api/users replaces the whole file with a one-user store whose user
    has id 1. *)
Theorem post_on_unreadable_store w body :
  unreadable w -> value_wfb body = true -> json_cleanb body = true ->
  holds (run (post_user body) w [WriteOk]).2 (VArr [new_api_user [] body]).
Proof.
  intros Hu Hb Hc. unfold post_user. rewrite run_readUsers_unreadable by done.
  rewrite users_for_push_arr, lift_Ok.
  destruct (run_write_arr (js_push [] (new_api_user [] body)) (World (file w) (log w ++ ["Error reading users file:"])) []) as (t & Ht & Hrun).
  rewrite Hrun. cbn [negb run snd]. apply holds_written; [| |done].
  - apply (forallb_app_snoc _ []); [done|]. by apply new_api_user_wf.
  - apply (forallb_app_snoc _ []); [done|]. by apply new_api_user_clean.
Qed.

(** C8. A registration whose two password fields differ answers the
    mismatch text and touches neither the file nor the log. *)
Theorem register_mismatch ps w ws :
  strict_eq (default VUndef (prop_lookup ps "password"))
            (default VUndef (prop_lookup ps "confirmPassword")) = false ->
  run (submit_registration (VObj ps)) w ws =
    (RSend "Passwords do not match. Please try again.", w).
Proof. intros Hne. unfold submit_registration. simpl. by rewrite Hne. Qed.

(** C9. The registration handler ignores a failed write: it still
    redirects to /users, although the user was not stored. *)
Theorem register_ignores_write_failure ps w us after :
  holds w (VArr us) ->
  strict_eq (default VUndef (prop_lookup ps "password"))
            (default VUndef (prop_lookup ps "confirmPassword")) = true ->
  run (submit_registration (VObj ps)) w [WriteFail after] =
    (RRedirect "/users", World after (log w ++ ["Error writing users file:"])).
Proof.
  intros Hw Heq. unfold submit_registration. cbn [lift get_prop throws_bind]. rewrite Heq. cbn [negb].
  rewrite (run_readUsers_holds _ _ _ (VArr us)), users_for_push_arr, lift_Ok by done.
  edestruct run_write_arr_fail as (t & Ht & Hrun). rewrite Hrun. done.
Qed.

(** C10. The client chooses the id: a POST body with an [id] property
    overrides the assigned [users.length + 1], in the stored user and in
    the response. *)
Theorem post_body_id_overrides w us body v :
  holds w (VArr us) -> value_wfb body = true -> json_cleanb body = true ->
  prop_lookup (own_props body) "id" = Some v ->
  holds (run (post_user body) w [WriteOk]).2 (VArr (us ++ [new_api_user us body])) /\
  get_prop (new_api_user us body) "id" = Ok v.
Proof.
  intros Hw Hb Hc Hid. destruct (holds_json _ _ Hw) as [Hwf Hcl].
  split; [|by rewrite new_api_user_id, Hid].
  unfold post_user. rewrite (run_readUsers_holds _ _ _ (VArr us)), users_for_push_arr, lift_Ok by done.
  destruct (run_write_arr (js_push us (new_api_user us body)) w []) as (t & Ht & Hrun).
  rewrite Hrun. cbn [negb run snd]. apply holds_written; [| |done].
  - apply forallb_app_snoc; [done|]. by apply new_api_user_wf.
  - apply forallb_app_snoc; [done|]. by apply new_api_user_clean.
Qed.

(** C11. A store that parses to an object, not an array, is served as is
    by GET /api/users, but GET /api/users/:id rejects with a [TypeError]
    and sends no response. *)
Theorem object_store_crashes_lookup w ps id ws :
  holds w (VObj ps) ->
  (run get_api_users w ws).1 = RJson 200 (VObj ps) /\
  (run (get_user id) w ws).1 = RUnhandled (TypeError "users.find is not a function").
Proof.
  intros Hw. unfold get_api_users, get_user.
  by rewrite !(run_readUsers_holds _ _ _ (VObj ps)).
Qed.

(** C12. Ids collide: when a stored user already has the id
    [users.length + 1] (as after a delete), POST /api/users gives the new
    user that id, and GET of the id returns the old user, not the new
    one. *)
Theorem create_then_get_collision w us body j old :
  holds w (VArr us) ->
  value_wfb body = true -> json_cleanb body = true ->
  prop_lookup (own_props body) "id" = None ->
  rejects (match_id (num_of_nat (length us + 1))) (take j us) ->
  us !! j = Some old -> match_id (num_of_nat (length us + 1)) old = Ok true ->
  get_prop (new_api_user us body) "id" = Ok (VNum (num_of_nat (length us + 1))) /\
  (run (get_user (num_of_nat (length us + 1))) (run (post_user body) w [WriteOk]).2 []).1 =
    RJson 200 old.
Proof.
  intros Hw Hb Hc Hid Hr Hj Hm. destruct (holds_json _ _ Hw) as [Hwf Hcl].
  split; [by rewrite new_api_user_id, Hid|].
  unfold post_user. rewrite (run_readUsers_holds _ _ _ (VArr us)), users_for_push_arr, lift_Ok by done.
  destruct (run_write_arr (js_push us (new_api_user us body)) w []) as (t & Ht & Hrun).
  rewrite Hrun. cbn [negb run fst snd].
  unfold get_user. rewrite (run_readUsers_holds _ _ _ (VArr (js_push us (new_api_user us body)))).
  2: { apply holds_written; [apply forallb_app_snoc..|]; try done;
       [apply new_api_user_wf | apply new_api_user_clean]; done. }
  rewrite as_array_arr, throws_bind_ret.
  rewrite (js_find_first _ _ j old); [|unfold js_push; rewrite take_app_le;
    [done | apply lookup_lt_Some in Hj; lia] | by apply lookup_app_l_Some | done].
  rewrite lift_Ok. assert (truthy old = true) as ->; [|done].
  unfold match_id in Hm. destruct old; try done; simpl in Hm; try discriminate.
Qed.
End Defects.

(** ** Every handler finishes *)

Lemma lift_steps {A} (c : throws A) k m :
  (forall a, io_steps (k a) m) -> io_steps (lift c k) m.
Proof. destruct c; simpl; auto. Qed.

Ltac after_read m :=
  eapply (io_steps_bind_le _ _ 2 m); [apply readUsers_steps| |lia]; intros ?.
Ltac after_write :=
  eapply (io_steps_bind_le _ _ 2 0); [apply writeUsers_steps| |lia]; intros ?.

Section Termination.
Context `{JsonCodec}.

(** Every handler finishes: on every path, whatever the file holds and
    however the writes turn out, it performs at most two effects per
    [await] of the store (the read or the write, and the error log), four
    in all, and then sends its response or rejects. *)
Lemma handlers_bounded id body :
  io_steps get_register 0 /\ io_steps get_api_users 2 /\ io_steps (get_user id) 2 /\
  io_steps (patch_user id body) 4 /\ io_steps (delete_user id) 4 /\
  io_steps (post_user body) 4 /\ io_steps (submit_registration body) 4.
Proof.
  split; [exact I|]. repeat split; unfold get_api_users, get_user, patch_user, delete_user,
    post_user, submit_registration.
  - after_read 0. exact I.
  - after_read 0. apply lift_steps. intros u. by case_match.
  - after_read 2. apply lift_steps. intros [xs index]. after_write. by case_match.
  - after_read 2. apply lift_steps. intros [xs index]. case_match; [exact I|].
    after_write. by case_match.
  - after_read 2. apply lift_steps. intros xs. after_write. by case_match.
  - apply lift_steps. intros [[[[? ?] ?] ?] ?]. case_match; [exact I|].
    after_read 2. apply lift_steps. intros xs. after_write. exact I.
Qed.
End Termination.
