(* ===== verification/JsonPrint.v ===== *)
(** * [JSON.stringify(value, null, 2)], the text [writeUsers] stores

    The printer follows ECMAScript's SerializeJSONProperty with the gap
    ["  "]:
    - a number prints as [Number::toString] (decimal, or exponent form
      outside [1e-7 .. 1e21]); [NaN] prints as [null];
    - a string is quoted by QuoteJSONString: a backslash escapes the double
      quote and the backslash, the short escapes serve backspace, tab, newline, form feed and carriage return, [\u00xx]
      for the other control characters.  Strings are byte strings (the UTF-8
      of the file): bytes from 0x80 up are copied;
    - a non-empty array or object opens a line per element or property,
      indented two spaces deeper, and closes on a line at the outer
      indentation; [undefined] array elements print as [null], and
      [undefined]-valued properties are skipped.
    Text is built as [list ascii]; [json_stringify] converts it to a
    string. *)

From stdpp Require Import base list strings.
From Stdlib Require Import ZArith Lia Ascii.
From S2P Require Import Prelude JsValue JsonCodec.

Local Open Scope char_scope.

(** ** Decimal digits *)

Definition digit_char (d : Z) : ascii := ascii_of_nat (48 + Z.to_nat d)%nat.

Fixpoint digits_fuel (fuel : nat) (n : Z) (acc : list ascii) : list ascii :=
  match fuel with
  | O => acc
  | S f =>
      let acc' := digit_char (n mod 10) :: acc in
      if (n <? 10)%Z then acc' else digits_fuel f (n / 10) acc'
  end.

(** The decimal digits of [n >= 0], without leading zeros. *)
Definition digits (n : Z) : list ascii :=
  digits_fuel (S (Z.to_nat (Z.log2 n))) n [].

Definition zeros (j : nat) : list ascii := replicate j "0".

(** ** Number::toString *)

Definition num_text (x : number) : list ascii :=
  match x with
  | NaN => ["n"; "u"; "l"; "l"]
  | Fin m e =>
      if (m =? 0)%Z then ["0"]
      else
        let sign := if (m <? 0)%Z then ["-"] else [] in
        let D := digits (Z.abs m) in
        let k := Z.of_nat (length D) in
        let n := (e + k)%Z in
        sign ++
        (if (k <=? n)%Z && (n <=? 21)%Z then D ++ zeros (Z.to_nat (n - k))
         else if (0 <? n)%Z && (n <=? 21)%Z then
           take (Z.to_nat n) D ++ "." :: drop (Z.to_nat n) D
         else if (-6 <? n)%Z && (n <=? 0)%Z then
           "0" :: "." :: zeros (Z.to_nat (- n)) ++ D
         else
           take 1 D ++ (if (k =? 1)%Z then [] else "." :: drop 1 D) ++
           "e" :: (if (0 <=? n - 1)%Z then "+" else "-") :: digits (Z.abs (n - 1)))
  end.

(** ** QuoteJSONString *)

Definition hex_digit (d : nat) : ascii :=
  if (d <? 10)%nat then ascii_of_nat (48 + d)%nat else ascii_of_nat (87 + d)%nat.

Definition escape_char (c : ascii) : list ascii :=
  match nat_of_ascii c with
  | 8%nat => ["\"; "b"]
  | 9%nat => ["\"; "t"]
  | 10%nat => ["\"; "n"]
  | 12%nat => ["\"; "f"]
  | 13%nat => ["\"; "r"]
  | 34%nat => ["\"; "034"]
  | 92%nat => ["\"; "\"]
  | n => if (n <? 32)%nat then ["\"; "u"; "0"; "0"; hex_digit (n / 16)%nat; hex_digit (n mod 16)%nat]
         else [c]
  end.

Definition quote (s : list ascii) : list ascii :=
  "034" :: (s ≫= escape_char) ++ ["034"].

(** ** Serialisation with a two-space gap *)

Definition nl_indent (d : nat) : list ascii := "010" :: replicate (2 * d)%nat " ".

Fixpoint join (sep : list ascii) (items : list (list ascii)) : list ascii :=
  match items with
  | [] => []
  | [x] => x
  | x :: xs => x ++ sep ++ join sep xs
  end.

Definition wrap (o c : ascii) (d : nat) (items : list (list ascii)) : list ascii :=
  match items with
  | [] => [o; c]
  | _ => o :: nl_indent (S d) ++ join ("," :: nl_indent (S d)) items ++ nl_indent d ++ [c]
  end.

(** [d] is the current indentation depth; [None] is [undefined]. *)
Fixpoint ser (d : nat) (v : value) : option (list ascii) :=
  match v with
  | VUndef => None
  | VNull => Some ["n"; "u"; "l"; "l"]
  | VBool true => Some ["t"; "r"; "u"; "e"]
  | VBool false => Some ["f"; "a"; "l"; "s"; "e"]
  | VNum x => Some (num_text x)
  | VStr s => Some (quote (String.list_ascii_of_string s))
  | VArr xs =>
      Some (wrap "[" "]" d
        ((fix G xs := match xs with
                      | [] => []
                      | x :: xs' => default ["n"; "u"; "l"; "l"] (ser (S d) x) :: G xs'
                      end) xs))
  | VObj ps =>
      Some (wrap "{" "}" d
        ((fix G ps := match ps with
                      | [] => []
                      | (k, x) :: ps' =>
                          match ser (S d) x with
                          | Some t => (quote (String.list_ascii_of_string k) ++ [":"; " "] ++ t) :: G ps'
                          | None => G ps'
                          end
                      end) ps))
  end.

Definition json_stringify (v : value) : option string :=
  String.string_of_list_ascii <$> ser 0 v.

Example num_text_forms :
  map num_text [Fin 1 21; Fin 1 20; Fin 125 (-2); Fin 5 (-7); Fin 5 (-6); Fin (-12) 30]
  = [["1"; "e"; "+"; "2"; "1"]; "1" :: zeros 20; ["1"; "."; "2"; "5"];
     ["5"; "e"; "-"; "7"]; ["0"; "."; "0"; "0"; "0"; "0"; "0"; "5"];
     ["-"; "1"; "."; "2"; "e"; "+"; "3"; "1"]].
Proof. reflexivity. Qed.

Local Close Scope char_scope.

(** A newline, and a double quote. *)
Definition nl : string := String "010" EmptyString.
Definition dq : string := String "034" EmptyString.

Example stringify_users :
  json_stringify (VArr [VObj [("id", VNum (num_of_nat 1)); ("fullName", VStr "Ann");
                              ("phone", VUndef)]; VNum (Fin 15 (-1))])
  = Some ("[" ++ nl ++ "  {" ++ nl ++ "    " ++ dq ++ "id" ++ dq ++ ": 1," ++ nl
          ++ "    " ++ dq ++ "fullName" ++ dq ++ ": " ++ dq ++ "Ann" ++ dq ++ nl
          ++ "  }," ++ nl ++ "  1.5" ++ nl ++ "]")%string.
Proof. reflexivity. Qed.

