(* ===== verification/JsonParse.v ===== *)
(** * [JSON.parse], the reader [readUsers] relies on

    A parser for the JSON grammar (ECMA-404) over the bytes of the file:
    - whitespace is space, tab, newline and carriage return;
    - numbers are [-? int frac? exp?], with [int] either [0] or a digit
      string without leading zero; the value is the exact decimal,
      normalised;
    - strings accept the escapes of JSON.  A [\uXXXX] escape is encoded in
      UTF-8, a surrogate pair as one four-byte sequence, and a lone
      surrogate as U+FFFD, the bytes Node writes for it in UTF-8
      (JavaScript keeps the lone code unit in the string, and
      [JSON.stringify] would write it back as the escape).  Raw control
      characters are an error;
    - objects build their properties with [obj_set], as [JSON.parse]
      does with CreateDataProperty: a repeated key keeps its first position
      and takes its last value, and array-index keys are ordered first.
    The recursion runs on fuel: the mutual functions take one unit per
    call, and [json_parse_text] gives [2 * length + 2] units, which is
    enough (see [JsonText]). *)

From stdpp Require Import base list strings.
From Stdlib Require Import ZArith Lia Ascii.
From S2P Require Import Prelude JsValue JsonPrint.

Local Open Scope char_scope.

Definition is_ws (c : ascii) : bool :=
  match nat_of_ascii c with 32 | 9 | 10 | 13 => true | _ => false end%nat.

Fixpoint skip_ws (s : list ascii) : list ascii :=
  match s with
  | c :: s' => if is_ws c then skip_ws s' else s
  | [] => []
  end.

Definition is_digit (c : ascii) : bool :=
  (48 <=? nat_of_ascii c)%nat && (nat_of_ascii c <=? 57)%nat.

Fixpoint span_digits (s : list ascii) : list ascii * list ascii :=
  match s with
  | c :: s' => if is_digit c then let '(d, r) := span_digits s' in (c :: d, r) else ([], s)
  | [] => ([], [])
  end.

Fixpoint digits_val (acc : Z) (l : list ascii) : Z :=
  match l with
  | [] => acc
  | c :: l' => digits_val (10 * acc + (Z.of_nat (nat_of_ascii c) - 48)) l'
  end.

(** ** Numbers *)

Definition parse_int (s : list ascii) : option (list ascii * list ascii) :=
  match s with
  | "0" :: r => Some (["0"], r)
  | c :: _ => if is_digit c then Some (span_digits s) else None
  | [] => None
  end.

Definition parse_frac (s : list ascii) : option (list ascii * list ascii) :=
  match s with
  | "." :: r => let '(fd, r') := span_digits r in
                match fd with [] => None | _ => Some (fd, r') end
  | _ => Some ([], s)
  end.

Definition parse_exp (s : list ascii) : option (Z * list ascii) :=
  let exp_digits sg r :=
    let '(ed, r') := span_digits r in
    match ed with [] => None | _ => Some ((sg * digits_val 0 ed)%Z, r') end in
  match s with
  | c :: r =>
      if (c =? "e")%char || (c =? "E")%char then
        match r with
        | "+" :: r' => exp_digits 1%Z r'
        | "-" :: r' => exp_digits (-1)%Z r'
        | _ => exp_digits 1%Z r
        end
      else Some (0%Z, s)
  | [] => Some (0%Z, [])
  end.

(** The number after its optional minus sign. *)
Definition parse_unsigned (neg : bool) (s1 : list ascii) : option (number * list ascii) :=
  match parse_int s1 with
  | None => None
  | Some (ip, r1) =>
      match parse_frac r1 with
      | None => None
      | Some (fd, r2) =>
          match parse_exp r2 with
          | None => None
          | Some (ex, r3) =>
              let m := digits_val 0 (ip ++ fd) in
              Some (norm_dec (if neg then - m else m)%Z (ex - Z.of_nat (length fd))%Z, r3)
          end
      end
  end.

Definition parse_number (s : list ascii) : option (number * list ascii) :=
  match s with
  | "-" :: r => parse_unsigned true r
  | _ => parse_unsigned false s
  end.

(** ** Strings *)

Definition hex_val (c : ascii) : option nat :=
  let n := nat_of_ascii c in
  if (48 <=? n)%nat && (n <=? 57)%nat then Some (n - 48)%nat
  else if (97 <=? n)%nat && (n <=? 102)%nat then Some (n - 87)%nat
  else if (65 <=? n)%nat && (n <=? 70)%nat then Some (n - 55)%nat
  else None.

Definition hex4 (a b c d : ascii) : option nat :=
  match hex_val a, hex_val b, hex_val c, hex_val d with
  | Some x, Some y, Some z, Some w => Some (((x * 16 + y) * 16 + z) * 16 + w)%nat
  | _, _, _, _ => None
  end.

Definition byte (n : nat) : ascii := ascii_of_nat n.

(** UTF-8 of a code point. *)
Definition utf8 (cp : nat) : list ascii :=
  if (cp <? 128)%nat then [byte cp]
  else if (cp <? 2048)%nat then [byte (192 + cp / 64); byte (128 + cp mod 64)]%nat
  else if (cp <? 65536)%nat then
    [byte (224 + cp / 4096); byte (128 + (cp / 64) mod 64); byte (128 + cp mod 64)]%nat
  else [byte (240 + cp / 262144); byte (128 + (cp / 4096) mod 64);
        byte (128 + (cp / 64) mod 64); byte (128 + cp mod 64)]%nat.

Definition replacement_char : list ascii := utf8 65533.

Definition is_high (u : nat) : bool := (55296 <=? u)%nat && (u <=? 56319)%nat.
Definition is_low (u : nat) : bool := (56320 <=? u)%nat && (u <=? 57343)%nat.

Definition simple_escape (e : ascii) : option ascii :=
  match nat_of_ascii e with
  | 34 => Some "034" | 92 => Some "\" | 47 => Some "/"
  | 98 => Some "008" | 102 => Some "012" | 110 => Some "010"
  | 114 => Some "013" | 116 => Some "009"
  | _ => None
  end%nat.

Definition prepend (bs : list ascii) (o : option (list ascii * list ascii)) :=
  (fun p => (bs ++ p.1, p.2)) <$> o.

(** The characters of a string after its opening quote, up to and
    without the closing quote. *)
Fixpoint parse_chars (s : list ascii) : option (list ascii * list ascii) :=
  match s with
  | [] => None
  | c :: s' =>
      if (c =? "034")%char then Some ([], s')
      else if (c =? "\")%char then
        match s' with
        | "u" :: a1 :: a2 :: a3 :: a4 :: r =>
            match hex4 a1 a2 a3 a4 with
            | None => None
            | Some u =>
                if is_high u then
                  match r with
                  | "\" :: "u" :: b1 :: b2 :: b3 :: b4 :: r' =>
                      match hex4 b1 b2 b3 b4 with
                      | Some l =>
                          if is_low l then
                            prepend (utf8 (65536 + (u - 55296) * 1024 + (l - 56320))%nat)
                                    (parse_chars r')
                          else prepend replacement_char (parse_chars r)
                      | None => None
                      end
                  | _ => prepend replacement_char (parse_chars r)
                  end
                else if is_low u then prepend replacement_char (parse_chars r)
                else prepend (utf8 u) (parse_chars r)
            end
        | e :: r =>
            match simple_escape e with
            | Some b => prepend [b] (parse_chars r)
            | None => None
            end
        | [] => None
        end
      else if (nat_of_ascii c <? 32)%nat then None
      else prepend [c] (parse_chars s')
  end.

(** ** Values *)

Fixpoint parse_value (fuel : nat) (s : list ascii) : option (value * list ascii) :=
  match fuel with
  | O => None
  | S f =>
      match skip_ws s with
      | "n" :: "u" :: "l" :: "l" :: r => Some (VNull, r)
      | "t" :: "r" :: "u" :: "e" :: r => Some (VBool true, r)
      | "f" :: "a" :: "l" :: "s" :: "e" :: r => Some (VBool false, r)
      | "034" :: r =>
          (fun p => (VStr (String.string_of_list_ascii p.1), p.2)) <$> parse_chars r
      | "[" :: r =>
          match skip_ws r with
          | "]" :: r' => Some (VArr [], r')
          | _ => parse_elems f r []
          end
      | "{" :: r =>
          match skip_ws r with
          | "}" :: r' => Some (VObj [], r')
          | _ => parse_members f r []
          end
      | t => (fun p => (VNum p.1, p.2)) <$> parse_number t
      end
  end
with parse_elems (fuel : nat) (s : list ascii) (acc : list value)
    : option (value * list ascii) :=
  match fuel with
  | O => None
  | S f =>
      match parse_value f s with
      | None => None
      | Some (v, r) =>
          match skip_ws r with
          | "," :: r' => parse_elems f r' (acc ++ [v])
          | "]" :: r' => Some (VArr (acc ++ [v]), r')
          | _ => None
          end
      end
  end
with parse_members (fuel : nat) (s : list ascii) (acc : props)
    : option (value * list ascii) :=
  match fuel with
  | O => None
  | S f =>
      match skip_ws s with
      | "034" :: r =>
          match parse_chars r with
          | None => None
          | Some (k, r1) =>
              match skip_ws r1 with
              | ":" :: r2 =>
                  match parse_value f r2 with
                  | None => None
                  | Some (v, r3) =>
                      let acc' := obj_set acc (String.string_of_list_ascii k) v in
                      match skip_ws r3 with
                      | "," :: r4 => parse_members f r4 acc'
                      | "}" :: r4 => Some (VObj acc', r4)
                      | _ => None
                      end
                  end
              | _ => None
              end
          end
      | _ => None
      end
  end.

(** [JSON.parse(text)]: one value, then only whitespace. *)
Definition json_parse_text (s : list ascii) : option value :=
  match parse_value (2 * length s + 2) s with
  | Some (v, r) => match skip_ws r with [] => Some v | _ => None end
  | None => None
  end.

Definition json_parse (s : string) : option value :=
  json_parse_text (String.list_ascii_of_string s).

Local Close Scope char_scope.
Local Open Scope string_scope.

Example parse_duplicate_keys :
  json_parse ("{" ++ dq ++ "b" ++ dq ++ ": 1, " ++ dq ++ "2" ++ dq ++ ": [true, null], "
              ++ dq ++ "b" ++ dq ++ ": -0.50e1}")
  = Some (VObj [("2", VArr [VBool true; VNull]); ("b", VNum (Fin (-5) 0))]).
Proof. reflexivity. Qed.

Example parse_rejects :
  map json_parse ["01"; "[1,]"; "{"; "tru"; "1 2"; dq ++ "a" ++ String "010" dq]
  = [None; None; None; None; None; None].
Proof. reflexivity. Qed.
