(* ===== verification/JsonLex.v ===== *)
(** * Lexical round trips: whitespace, strings and numbers

    The parser reads back the tokens the printer writes:
    - [skip_ws] skips the newline-and-indent the printer puts between
      tokens, and stops at the first character of a token;
    - [parse_chars] reads back a quoted string: [quote_roundtrip];
    - [parse_number] reads back [Number::toString] of a canonical
      decimal, when the next character cannot continue a number:
      [num_text_roundtrip]. *)

From stdpp Require Import base list strings.
From Stdlib Require Import ZArith Lia Ascii.
From S2P Require Import Prelude JsValue JsonPrint JsonParse.

Local Open Scope char_scope.

(** ** Whitespace *)

Lemma skip_ws_app_ws (ws s : list ascii) :
  forallb is_ws ws = true -> skip_ws (ws ++ s) = skip_ws s.
Proof. induction ws as [|c ws IH]; simpl; [done|]. intros [-> H]%andb_prop. by apply IH. Qed.

Lemma nl_indent_ws d : forallb is_ws (nl_indent d) = true.
Proof. unfold nl_indent. generalize (2 * d)%nat. intros n. induction n as [|n IH]; [done|]. exact IH. Qed.

Lemma skip_ws_nl_indent d s : skip_ws (nl_indent d ++ s) = skip_ws s.
Proof. apply skip_ws_app_ws, nl_indent_ws. Qed.

Lemma skip_ws_token c s : is_ws c = false -> skip_ws (c :: s) = c :: s.
Proof. simpl. by intros ->. Qed.

#[export] Hint Rewrite skip_ws_nl_indent : js_rw.

(** ** Strings *)

(** Each escaped byte reads back as itself (checked for all 256 bytes). *)
Lemma escape_char_parse c r :
  parse_chars (escape_char c ++ r) = prepend [c] (parse_chars r).
Proof. destruct c as [[] [] [] [] [] [] [] []]; reflexivity. Qed.

Lemma quote_body_parse s rest :
  parse_chars ((s ≫= escape_char) ++ "034" :: rest) = Some (s, rest).
Proof.
  induction s as [|c s IH]; [done|].
  change ((c :: s) ≫= escape_char) with (escape_char c ++ (s ≫= escape_char)).
  rewrite <- app_assoc, escape_char_parse, IH. done.
Qed.

Lemma quote_roundtrip s rest :
  quote s ++ rest = "034" :: ((s ≫= escape_char) ++ "034" :: rest).
Proof. unfold quote. simpl. by rewrite <- app_assoc. Qed.

(** ** Digit strings *)

Definition digit_list (l : list ascii) : Prop := Forall (fun c => is_digit c = true) l.

(** What may follow a number: the end of the text or a character that
    does not continue it. *)
Definition num_end (r : list ascii) : Prop :=
  match r with
  | [] => True
  | c :: _ => is_digit c = false /\ c <> "." /\ c <> "e" /\ c <> "E"
  end.

Lemma span_digits_app l r :
  digit_list l -> match r with [] => True | c :: _ => is_digit c = false end ->
  span_digits (l ++ r) = (l, r).
Proof.
  intros Hl Hr. induction Hl as [|c l Hc _ IH]; simpl.
  - destruct r as [|c r]; simpl; [done|]. by rewrite Hr.
  - by rewrite Hc, IH.
Qed.

Lemma digits_val_app acc l1 l2 : digits_val acc (l1 ++ l2) = digits_val (digits_val acc l1) l2.
Proof. revert acc. induction l1; simpl; auto. Qed.

Lemma digits_val_linear acc l :
  digits_val acc l = (acc * 10 ^ Z.of_nat (length l) + digits_val 0 l)%Z.
Proof.
  revert acc. induction l as [|c l IH]; intros acc; simpl; [lia|].
  rewrite (IH (10 * acc + _)%Z), (IH (10 * 0 + _)%Z).
  rewrite Nat2Z.inj_succ, Z.pow_succ_r by lia. lia.
Qed.

Lemma digits_val_zeros acc j : digits_val acc (zeros j) = (acc * 10 ^ Z.of_nat j)%Z.
Proof.
  revert acc. induction j as [|j IH]; intros acc; simpl; [lia|].
  rewrite IH, Nat2Z.inj_succ, Z.pow_succ_r by lia.
  change (Z.of_nat (nat_of_ascii "0")) with 48%Z. lia.
Qed.

Lemma zeros_digits j : digit_list (zeros j).
Proof. apply Forall_replicate. done. Qed.

Lemma digit_char_digit d : (0 <= d < 10)%Z -> is_digit (digit_char d) = true.
Proof.
  intros Hd. unfold is_digit, digit_char.
  rewrite nat_ascii_embedding by lia. apply andb_true_intro; split; apply Nat.leb_le; lia.
Qed.

Lemma digit_char_val d : (0 <= d < 10)%Z -> (Z.of_nat (nat_of_ascii (digit_char d)) - 48)%Z = d.
Proof. intros Hd. unfold digit_char. rewrite nat_ascii_embedding by lia. lia. Qed.

Lemma digit_char_not_zero d : (1 <= d < 10)%Z -> digit_char d <> "0".
Proof.
  intros Hd Heq. apply (f_equal nat_of_ascii) in Heq. unfold digit_char in Heq.
  rewrite nat_ascii_embedding in Heq by lia. change (nat_of_ascii "0") with 48%nat in Heq. lia.
Qed.

(** [digits n] for [0 <= n]: a non-empty digit string whose value is [n]
    and which starts with a non-zero digit when [n > 0]. *)
Lemma digits_fuel_spec f n acc :
  f <> 0%nat -> (0 <= n < 10 ^ Z.of_nat f)%Z ->
  exists D, digits_fuel f n acc = D ++ acc /\ D <> [] /\ digit_list D /\
            digits_val 0 D = n /\ ((0 < n)%Z -> head D <> Some "0").
Proof.
  revert n acc. induction f as [|f IH]; intros n acc Hf Hn; [done|].
  simpl. assert (Hm : (0 <= n mod 10 < 10)%Z) by (apply Z.mod_pos_bound; lia).
  destruct (Z.ltb_spec n 10).
  - exists [digit_char (n mod 10)]. split; [done|]. split; [done|]. split.
    + repeat constructor. by apply digit_char_digit.
    + simpl. rewrite digit_char_val by done. rewrite Z.mod_small by lia. split; [lia|].
      intros Hpos [= Hz]. revert Hz. apply digit_char_not_zero. lia.
  - destruct (IH (n / 10)%Z (digit_char (n mod 10) :: acc)) as (D & -> & HD & Hdl & Hv & Hh).
    { destruct f; [simpl in Hn; lia|done]. }
    { rewrite Nat2Z.inj_succ, Z.pow_succ_r in Hn by lia. split; [apply Z.div_pos; lia|].
      apply Z.div_lt_upper_bound; lia. }
    exists (D ++ [digit_char (n mod 10)]). rewrite <- app_assoc. split; [done|].
    split; [by destruct D|]. split.
    + apply Forall_app; split; [done|]. repeat constructor. by apply digit_char_digit.
    + rewrite digits_val_app, Hv. simpl. rewrite digit_char_val by done. split.
      * rewrite (Z.div_mod n 10) at 3 by lia. lia.
      * intros _. destruct D as [|c D]; [done|]. apply Hh. apply Z.div_str_pos; lia.
Qed.

Lemma digits_spec n :
  (0 <= n)%Z ->
  digits n <> [] /\ digit_list (digits n) /\ digits_val 0 (digits n) = n /\
  ((0 < n)%Z -> head (digits n) <> Some "0").
Proof.
  intros Hn. unfold digits.
  destruct (digits_fuel_spec (S (Z.to_nat (Z.log2 n))) n [])
    as (D & E & HD & Hdl & Hv & Hh); [done| |].
  - split; [done|]. destruct (Z.eq_dec n 0) as [->|]; [simpl; lia|].
    assert (Hl := Z.log2_spec n ltac:(lia)).
    rewrite Nat2Z.inj_succ, Z2Nat.id by apply Z.log2_nonneg.
    assert (2 ^ Z.succ (Z.log2 n) <= 10 ^ Z.succ (Z.log2 n))%Z
      by (apply Z.pow_le_mono_l; lia).
    lia.
  - rewrite E, app_nil_r. done.
Qed.

(** ** Numbers *)

(** Character tests the parser makes, checked for all 256 bytes. *)
Lemma parse_number_nominus c t :
  c <> "-" -> parse_number (c :: t) = parse_unsigned false (c :: t).
Proof. destruct c as [[] [] [] [] [] [] [] []]; intros H; try reflexivity; by destruct H. Qed.

Lemma parse_int_nonzero c t :
  c <> "0" -> parse_int (c :: t) = if is_digit c then Some (span_digits (c :: t)) else None.
Proof. destruct c as [[] [] [] [] [] [] [] []]; intros H; try reflexivity; by destruct H. Qed.

Lemma parse_frac_other c t : c <> "." -> parse_frac (c :: t) = Some ([], c :: t).
Proof. destruct c as [[] [] [] [] [] [] [] []]; intros H; try reflexivity; by destruct H. Qed.

Lemma parse_exp_other c t : c <> "e" -> c <> "E" -> parse_exp (c :: t) = Some (0%Z, c :: t).
Proof. destruct c as [[] [] [] [] [] [] [] []]; intros H1 H2; try reflexivity; by destruct H1 || destruct H2. Qed.

Definition nondigit_start (t : list ascii) : Prop :=
  match t with [] => True | c :: _ => is_digit c = false end.

Lemma num_end_nondigit r : num_end r -> nondigit_start r.
Proof. destruct r; simpl; tauto. Qed.

Lemma parse_frac_end r : num_end r -> parse_frac r = Some ([], r).
Proof. destruct r as [|c r]; [done|]. intros (_ & H & _). by apply parse_frac_other. Qed.

Lemma parse_exp_end r : num_end r -> parse_exp r = Some (0%Z, r).
Proof. destruct r as [|c r]; [done|]. intros (_ & _ & H1 & H2). by apply parse_exp_other. Qed.

Lemma parse_int_digits D t :
  D <> [] -> digit_list D -> head D <> Some "0" -> nondigit_start t ->
  parse_int (D ++ t) = Some (D, t).
Proof.
  destruct D as [|d D]; [done|]. intros _ Hd Hh Ht.
  change ((d :: D) ++ t) with (d :: D ++ t).
  rewrite parse_int_nonzero; [|intros ->; by apply Hh]. inversion Hd as [|? ? Hd0 _]; subst.
  rewrite Hd0. f_equal. change (d :: D ++ t) with ((d :: D) ++ t). by apply span_digits_app.
Qed.

Lemma parse_frac_digits fd t :
  fd <> [] -> digit_list fd -> nondigit_start t -> parse_frac ("." :: fd ++ t) = Some (fd, t).
Proof. intros Hne Hd Ht. simpl. rewrite span_digits_app by done. by destruct fd. Qed.

Lemma parse_exp_digits x t :
  nondigit_start t ->
  parse_exp ("e" :: (if (0 <=? x)%Z then "+" else "-") :: digits (Z.abs x) ++ t) = Some (x, t).
Proof.
  intros Ht. destruct (digits_spec (Z.abs x)) as (Hne & Hd & Hv & _); [lia|].
  destruct (Z.leb_spec 0 x); simpl; rewrite span_digits_app by done;
    destruct (digits (Z.abs x)); try done; rewrite Hv; f_equal; f_equal; lia.
Qed.

Lemma parse_unsigned_eq neg s1 ip r1 fd r2 ex r3 :
  parse_int s1 = Some (ip, r1) -> parse_frac r1 = Some (fd, r2) -> parse_exp r2 = Some (ex, r3) ->
  parse_unsigned neg s1 =
  Some (norm_dec (if neg then - digits_val 0 (ip ++ fd) else digits_val 0 (ip ++ fd))%Z
                 (ex - Z.of_nat (length fd))%Z, r3).
Proof. intros H1 H2 H3. unfold parse_unsigned. by rewrite H1, H2, H3. Qed.

Definition sgn (neg : bool) (a : Z) : Z := if neg then (- a)%Z else a.

Lemma norm_signed (neg : bool) (a v ex : Z) (j : nat) :
  a <> 0%Z -> (a mod 10 <> 0)%Z -> v = (a * 10 ^ Z.of_nat j)%Z ->
  norm_dec (if neg then - v else v)%Z ex = Fin (sgn neg a) (ex + Z.of_nat j).
Proof.
  intros Ha Ha10 ->. destruct neg; simpl; [|by apply norm_dec_shift].
  replace (- (a * 10 ^ Z.of_nat j))%Z with ((- a) * 10 ^ Z.of_nat j)%Z by lia.
  apply norm_dec_shift; [lia|]. rewrite Z.mod_opp_l_nz; [|lia|done].
  pose proof (Z.mod_pos_bound a 10). lia.
Qed.

Section NumberForms.
Context (a : Z) (D rest : list ascii).
Hypotheses (Ha : a <> 0%Z) (Ha10 : (a mod 10 <> 0)%Z) (HDne : D <> [])
  (HDd : digit_list D) (HDv : digits_val 0 D = a) (HDh : head D <> Some "0")
  (Hr : num_end rest).

Lemma norm_signed0 (neg : bool) (ex : Z) :
  norm_dec (if neg then - a else a)%Z ex = Fin (sgn neg a) ex.
Proof. rewrite (norm_signed neg a a ex 0); [f_equal; lia|done|done|simpl; lia]. Qed.

Lemma body_int j neg :
  parse_unsigned neg ((D ++ zeros j) ++ rest) = Some (Fin (sgn neg a) (Z.of_nat j), rest).
Proof.
  rewrite (parse_unsigned_eq _ _ (D ++ zeros j) rest [] rest 0 rest).
  - rewrite app_nil_r, digits_val_app, HDv, digits_val_zeros.
    rewrite (norm_signed _ a _ _ j); [f_equal; f_equal; simpl; lia|done|done|lia].
  - apply parse_int_digits; [by destruct D| |by destruct D|by apply num_end_nondigit].
    apply Forall_app; split; [done|apply zeros_digits].
  - by apply parse_frac_end.
  - by apply parse_exp_end.
Qed.

Lemma body_point p neg :
  (1 <= p < length D)%nat ->
  parse_unsigned neg ((take p D ++ "." :: drop p D) ++ rest) =
  Some (Fin (sgn neg a) (- Z.of_nat (length D - p)), rest).
Proof.
  intros Hp. rewrite <- app_assoc. simpl.
  assert (Hdrop : drop p D <> []) by (intros H; apply (f_equal length) in H;
    rewrite length_drop in H; simpl in H; lia).
  rewrite (parse_unsigned_eq _ _ (take p D) ("." :: drop p D ++ rest) (drop p D) rest 0 rest).
  - rewrite take_drop, HDv, norm_signed0.
    rewrite length_drop. repeat f_equal; lia.
  - apply parse_int_digits.
    + destruct D, p; simpl in *; try lia; done.
    + by apply Forall_take.
    + destruct D, p; simpl in *; try lia; done.
    + done.
  - apply parse_frac_digits; [done|by apply Forall_drop|by apply num_end_nondigit].
  - by apply parse_exp_end.
Qed.

Lemma body_small q neg :
  parse_unsigned neg (("0" :: "." :: zeros q ++ D) ++ rest) =
  Some (Fin (sgn neg a) (- Z.of_nat (q + length D)), rest).
Proof.
  simpl. rewrite <- app_assoc.
  rewrite (parse_unsigned_eq _ _ ["0"] ("." :: zeros q ++ D ++ rest) (zeros q ++ D) rest 0 rest).
  - rewrite (digits_val_app 0 ["0"]). change (digits_val 0 ["0"]) with 0%Z.
    rewrite digits_val_app, digits_val_zeros, Z.mul_0_l, HDv, norm_signed0. rewrite length_app; unfold zeros; rewrite length_replicate.
    repeat f_equal; lia.
  - reflexivity.
  - rewrite app_assoc. apply parse_frac_digits; [by destruct q, D| |by apply num_end_nondigit].
    apply Forall_app; split; [apply zeros_digits|done].
  - by apply parse_exp_end.
Qed.

Lemma body_exp x neg :
  parse_unsigned neg ((take 1 D ++ (if (Z.of_nat (length D) =? 1)%Z then [] else "." :: drop 1 D)
                        ++ "e" :: (if (0 <=? x)%Z then "+" else "-") :: digits (Z.abs x)) ++ rest) =
  Some (Fin (sgn neg a) (x - Z.of_nat (length D - 1)), rest).
Proof.
  destruct D as [|d D']; [done|]. simpl take. rewrite <- !app_assoc.
  assert (Hd0 : is_digit d = true) by (by inversion HDd).
  assert (HD' : digit_list D') by (by inversion HDd).
  destruct (Z.eqb_spec (Z.of_nat (length (d :: D'))) 1) as [Hk|Hk].
  - assert (D' = []) as -> by (destruct D'; simpl in Hk; [done|lia]).
    rewrite (parse_unsigned_eq _ _ [d] ("e" :: (if (0 <=? x)%Z then "+" else "-") :: digits (Z.abs x) ++ rest) [] ("e" :: (if (0 <=? x)%Z then "+" else "-") :: digits (Z.abs x) ++ rest) x rest).
    + simpl in HDv |- *. rewrite HDv, norm_signed0. repeat f_equal; lia.
    + apply (parse_int_digits [d]); [done|by repeat constructor|done|done].
    + by apply parse_frac_other.
    + by apply parse_exp_digits, num_end_nondigit.
  - assert (D' <> []) by (intros ->; simpl in Hk; lia).
    rewrite (parse_unsigned_eq _ _ [d] ("." :: D' ++ "e" :: (if (0 <=? x)%Z then "+" else "-") :: digits (Z.abs x) ++ rest) D' ("e" :: (if (0 <=? x)%Z then "+" else "-") :: digits (Z.abs x) ++ rest) x rest).
    + change ([d] ++ D') with (d :: D'). rewrite HDv, norm_signed0.
      repeat f_equal; simpl; lia.
    + apply (parse_int_digits [d]); [done|by repeat constructor|done|done].
    + apply parse_frac_digits; [done|done|done].
    + by apply parse_exp_digits, num_end_nondigit.
Qed.
End NumberForms.

Definition digit_start (s : list ascii) : Prop :=
  match s with c :: _ => is_digit c = true | [] => False end.

Lemma parse_number_sign (neg : bool) s :
  digit_start s -> parse_number ((if neg then ["-"] else []) ++ s) = parse_unsigned neg s.
Proof.
  destruct s as [|c s]; [done|]. intros Hc. destruct neg; [done|].
  apply parse_number_nominus. by intros ->.
Qed.

Lemma sgn_abs m : sgn (m <? 0)%Z (Z.abs m) = m.
Proof. unfold sgn. destruct (Z.ltb_spec m 0); lia. Qed.

(** The text [Number::toString] prints for a canonical finite number
    reads back as that number, whatever follows that cannot continue it. *)
Lemma num_text_roundtrip x rest :
  num_canonb x = true -> x <> NaN -> num_end rest ->
  parse_number (num_text x ++ rest) = Some (x, rest).
Proof.
  destruct x as [|m e]; [done|]. intros Hc _ Hr. simpl in Hc. unfold num_text.
  destruct (Z.eqb_spec m 0) as [->|Hm].
  { apply Z.eqb_eq in Hc as ->. change (["0"] ++ rest) with ("0" :: rest)%char.
    rewrite parse_number_nominus by done. unfold parse_unsigned. simpl. by rewrite parse_frac_end, parse_exp_end. }
  apply negb_true_iff, Z.eqb_neq in Hc.
  destruct (digits_spec (Z.abs m)) as (HDne & HDd & HDv & HDh); [lia|].
  specialize (HDh ltac:(lia)).
  assert (Ha10 : (Z.abs m mod 10 <> 0)%Z).
  { destruct (Z.abs_spec m) as [[_ ->]|[_ ->]]; [done|].
    rewrite Z.mod_opp_l_nz; [|lia|done]. pose proof (Z.mod_pos_bound m 10). lia. }
  cbv zeta. set (D := digits (Z.abs m)) in *. rewrite <- app_assoc.
  destruct D as [|d D'] eqn:HD; [done|].
  assert (Hd : is_digit d = true) by (by inversion HDd).
  rewrite <- HD in *. rewrite <- (sgn_abs m) at 2.
  destruct ((Z.of_nat (length D) <=? e + Z.of_nat (length D)) &&
            (e + Z.of_nat (length D) <=? 21))%Z eqn:E1;
    [apply andb_true_iff in E1 as [E1 E1']; apply Z.leb_le in E1, E1'|].
  { rewrite parse_number_sign by (by rewrite HD).
    rewrite (body_int (Z.abs m) D rest) by (done || lia).
    rewrite Z2Nat.id by lia. repeat f_equal. lia. }
  destruct ((0 <? e + Z.of_nat (length D)) && (e + Z.of_nat (length D) <=? 21))%Z eqn:E2;
    [apply andb_true_iff in E2 as [E2 E2']; apply Z.ltb_lt in E2; apply Z.leb_le in E2'|].
  { rewrite parse_number_sign
      by (destruct (Z.to_nat (e + Z.of_nat (length D))) eqn:?; [lia|rewrite HD; simpl; done]).
    apply andb_false_iff in E1 as [E1|E1]; apply Z.leb_gt in E1; [|lia].
    rewrite (body_point (Z.abs m) D rest) by (done || lia).
    repeat f_equal. lia. }
  destruct ((-6 <? e + Z.of_nat (length D)) && (e + Z.of_nat (length D) <=? 0))%Z eqn:E3;
    [apply andb_true_iff in E3 as [E3 E3']; apply Z.ltb_lt in E3; apply Z.leb_le in E3'|].
  { rewrite parse_number_sign by done.
    rewrite (body_small (Z.abs m) D rest) by (done || lia).
    repeat f_equal. lia. }
  rewrite parse_number_sign by (by rewrite HD).
  rewrite (body_exp (Z.abs m) D rest) by (done || lia).
  assert (length D <> 0%nat) by (rewrite HD; done). repeat f_equal. lia.
Qed.
