(* ===== verification/JsonText.v ===== *)
(** * The concrete codec: [JSON.parse] reads back [JSON.stringify]

    This file discharges the [JsonCodec] interface with the printer of
    [JsonPrint] and the parser of [JsonParse]:
    - an object the parser builds with [obj_set] from a well-formed
      property list is that list ([obj_set_snoc], [fold_members]);
    - every well-formed value printed at any depth parses back as
      [to_json] of it, whatever follows that cannot continue a number
      ([ser_roundtrip]), with fuel larger than the length of the text:
      each call of the parser consumes a character;
    - everything the parser returns is well formed and JSON-clean
      ([parse_value_wf]);
    - [json_codec] is the instance. *)

From stdpp Require Import base list strings.
From Stdlib Require Import ZArith Lia Ascii.
From S2P Require Import Prelude JsValue JsonCodec JsonPrint JsonParse JsonLex.

(** ** Keys of an object *)

Lemma is_index_key_Some k i : index_of_key k = Some i -> is_index_key k = true.
Proof. unfold is_index_key. intros ->. by apply bool_decide_eq_true_2. Qed.

Lemma is_index_key_None k : index_of_key k = None -> is_index_key k = false.
Proof. unfold is_index_key. intros ->. apply bool_decide_eq_false_2. by intros []. Qed.

Lemma forallb_sublist {A} (P : A -> bool) l1 l2 :
  l1 `sublist_of` l2 -> forallb P l2 = true -> forallb P l1 = true.
Proof.
  induction 1 as [|x l1 l2 _ IH|x l1 l2 _ IH]; simpl; [done| |];
    intros [H1 H2]%andb_prop; [rewrite H1|]; auto.
Qed.

Lemma keys_ok_nonindex prev ks :
  forallb (fun k => negb (is_index_key k)) ks = true -> keys_ok prev ks = true.
Proof.
  destruct ks as [|k ks]; [done|]. simpl. intros [Hk Hks]%andb_prop.
  destruct (index_of_key k) eqn:E; [|done]. by rewrite (is_index_key_Some _ _ E) in Hk.
Qed.

Lemma keys_ok_weaken p q ks :
  (forall i, bound_ok p i = true -> bound_ok q i = true) ->
  keys_ok p ks = true -> keys_ok q ks = true.
Proof.
  destruct ks as [|k ks]; simpl; [done|]. destruct (index_of_key k); [|done].
  intros H [H1 H2]%andb_prop. by rewrite H, H2.
Qed.

Lemma keys_ok_sublist l1 l2 prev :
  l1 `sublist_of` l2 -> keys_ok prev l2 = true -> keys_ok prev l1 = true.
Proof.
  intros Hs. revert prev. induction Hs as [|x l1 l2 Hs IH|x l1 l2 Hs IH]; intros prev; simpl.
  - done.
  - destruct (index_of_key x).
    + intros [H1 H2]%andb_prop. rewrite H1. by apply IH.
    + by apply forallb_sublist.
  - destruct (index_of_key x) as [i|] eqn:E.
    + intros [H1 H2]%andb_prop. apply (keys_ok_weaken (Some i)); [|by apply IH].
      intros j. destruct prev; simpl in *; [|done]. intros. apply N.ltb_lt.
      apply N.ltb_lt in H1. apply N.ltb_lt in H. lia.
    + intros H. apply keys_ok_nonindex. by apply (forallb_sublist _ l1 l2).
Qed.

Lemma props_wfb_sublist (l1 l2 : props) :
  map fst l1 `sublist_of` map fst l2 -> props_wfb l2 = true -> props_wfb l1 = true.
Proof.
  unfold props_wfb. intros Hs [H1 H2]%andb_prop. apply andb_true_intro. split.
  - by apply (keys_ok_sublist _ (map fst l2)).
  - apply bool_decide_eq_true_2. apply bool_decide_eq_true_1 in H2.
    by apply (sublist_NoDup _ (map fst l2)).
Qed.

(** An index key appended after ascending index keys exceeds them all. *)
Lemma keys_ok_snoc_index prev ks k i :
  index_of_key k = Some i -> keys_ok prev (ks ++ [k]) = true -> bound_ok prev i = true.
Proof.
  intros Hk. revert prev. induction ks as [|k' ks IH]; intros prev; simpl.
  - rewrite Hk. by intros [? _]%andb_prop.
  - destruct (index_of_key k') as [j|] eqn:E.
    + intros [H1 H2]%andb_prop. specialize (IH _ H2). destruct prev; simpl in *; [|done].
      apply N.ltb_lt in H1, IH. apply N.ltb_lt. lia.
    + rewrite forallb_app. simpl. rewrite (is_index_key_Some _ _ Hk). by rewrite !andb_false_r.
Qed.

Lemma insert_index_key_end (ps : props) prev i k v :
  index_of_key k = Some i -> keys_ok prev (map fst ps ++ [k]) = true ->
  insert_index_key ps i k v = ps ++ [(k, v)].
Proof.
  intros Hk. revert prev. induction ps as [|[k' v'] ps IH]; intros prev; simpl; [done|].
  destruct (index_of_key k') as [j|] eqn:E.
  - intros [_ H2]%andb_prop. pose proof (keys_ok_snoc_index _ _ _ _ Hk H2) as Hb.
    simpl in Hb. apply N.ltb_lt in Hb. destruct (N.ltb_spec i j); [lia|].
    f_equal. by apply (IH (Some j)).
  - rewrite forallb_app. simpl. rewrite (is_index_key_Some _ _ Hk). by rewrite !andb_false_r.
Qed.

(** [CreateDataProperty] of a key that may come last leaves the list
    ending with it. *)
Lemma obj_set_snoc (ps : props) k v :
  props_wfb (ps ++ [(k, v)]) = true -> obj_set ps k v = ps ++ [(k, v)].
Proof.
  unfold props_wfb, obj_set. rewrite map_app. simpl.
  intros [H1 H2]%andb_prop. apply bool_decide_eq_true_1 in H2.
  assert (Hn : prop_lookup ps k = None).
  { apply prop_lookup_None. apply NoDup_app in H2 as (_ & H & _). intros Hin.
    apply (H k Hin). by apply list_elem_of_singleton. }
  rewrite Hn. unfold prop_insert. destruct (index_of_key k) as [i|] eqn:E; [|done].
  by apply (insert_index_key_end _ None).
Qed.

(** ** The printer and [to_json], one element at a time *)

Local Open Scope char_scope.

Definition null_text : list ascii := ["n"; "u"; "l"; "l"].

Fixpoint arr_items (d : nat) (xs : list value) : list (list ascii) :=
  match xs with
  | [] => []
  | x :: xs' => default null_text (ser (S d) x) :: arr_items d xs'
  end.

Definition member_text (k : string) (t : list ascii) : list ascii :=
  quote (String.list_ascii_of_string k) ++ [":"; " "] ++ t.

Fixpoint obj_items (d : nat) (ps : props) : list (list ascii) :=
  match ps with
  | [] => []
  | (k, x) :: ps' =>
      match ser (S d) x with
      | Some t => member_text k t :: obj_items d ps'
      | None => obj_items d ps'
      end
  end.

Fixpoint json_elems (xs : list value) : list value :=
  match xs with [] => [] | x :: xs' => undef_to_null (to_json x) :: json_elems xs' end.

Fixpoint json_props (ps : props) : props :=
  match ps with
  | [] => []
  | (k, x) :: ps' => if is_undef x then json_props ps' else (k, to_json x) :: json_props ps'
  end.

Lemma ser_arr d xs : ser d (VArr xs) = Some (wrap "[" "]" d (arr_items d xs)).
Proof. simpl. do 3 f_equal. induction xs; simpl; by f_equal. Qed.

Lemma ser_obj d ps : ser d (VObj ps) = Some (wrap "{" "}" d (obj_items d ps)).
Proof.
  simpl. do 3 f_equal. induction ps as [|[k x] ps IH]; simpl; [done|].
  destruct (ser (S d) x); by f_equal.
Qed.

Lemma to_json_arr xs : to_json (VArr xs) = VArr (json_elems xs).
Proof. reflexivity. Qed.

Lemma to_json_obj ps : to_json (VObj ps) = VObj (json_props ps).
Proof. reflexivity. Qed.

Lemma ser_None d v : ser d v = None <-> v = VUndef.
Proof. destruct v as [| | [] | | | |]; done. Qed.

Lemma json_props_keys ps : map fst (json_props ps) `sublist_of` map fst ps.
Proof.
  induction ps as [|[k x] ps IH]; simpl; [done|].
  destruct (is_undef x); simpl; [by apply sublist_cons|by apply sublist_skip].
Qed.

Lemma obj_items_nil d ps : obj_items d ps = [] -> json_props ps = [].
Proof.
  induction ps as [|[k x] ps IH]; simpl; [done|].
  destruct (ser (S d) x) eqn:E; [done|]. apply ser_None in E as ->. done.
Qed.

Lemma arr_items_nil d xs : arr_items d xs = [] -> xs = [].
Proof. by destruct xs. Qed.

(** ** One step of the parser on the printer's tokens *)

Lemma parse_value_ws F ws s :
  forallb is_ws ws = true -> parse_value F (ws ++ s) = parse_value F s.
Proof. intros Hws. destruct F; [done|]. simpl. by rewrite skip_ws_app_ws. Qed.

Lemma parse_value_arr f r :
  (forall r', skip_ws r <> "]" :: r') -> parse_value (S f) ("[" :: r) = parse_elems f r [].
Proof.
  intros H. simpl. destruct (skip_ws r) as [|c r']; [done|].
  destruct c as [[] [] [] [] [] [] [] []]; try reflexivity. exfalso. by eapply H.
Qed.

Lemma parse_value_obj f r :
  (forall r', skip_ws r <> "}" :: r') -> parse_value (S f) ("{" :: r) = parse_members f r [].
Proof.
  intros H. simpl. destruct (skip_ws r) as [|c r']; [done|].
  destruct c as [[] [] [] [] [] [] [] []]; try reflexivity. exfalso. by eapply H.
Qed.

Lemma parse_value_num f c s :
  c = "-" \/ is_digit c = true ->
  parse_value (S f) (c :: s) = (fun p => (VNum p.1, p.2)) <$> parse_number (c :: s).
Proof.
  intros H. destruct c as [[] [] [] [] [] [] [] []];
    try reflexivity; destruct H as [H|H]; discriminate.
Qed.

(** A token the printer writes starts with a character that is neither
    whitespace nor a closing bracket. *)
Definition token_start (c : ascii) : Prop := is_ws c = false /\ c <> "]" /\ c <> "}".

Lemma num_token_start c : c = "-" \/ is_digit c = true -> token_start c.
Proof.
  unfold token_start. intros H. destruct c as [[] [] [] [] [] [] [] []];
    (done || (destruct H as [H|H]; discriminate)).
Qed.

Lemma num_text_head m e :
  exists c t, num_text (Fin m e) = c :: t /\ (c = "-" \/ is_digit c = true).
Proof.
  unfold num_text.
  destruct (Z.eqb_spec m 0); [eexists _, _; split; [reflexivity|auto]|].
  destruct (Z.ltb_spec m 0); [eexists _, _; split; [reflexivity|auto]|]. simpl app. cbv zeta.
  destruct (digits_spec (Z.abs m)) as (_ & HDd & _); [lia|].
  destruct (digits (Z.abs m)) as [|d D'] eqn:HD.
  { exfalso. destruct (digits_spec (Z.abs m)) as (HDne & _); [lia|]. by rewrite HD in HDne. }
  assert (Hd : is_digit d = true) by (by inversion HDd).
  destruct (_ && _)%Z; [eexists _, _; split; [reflexivity|auto]|].
  destruct (_ && _)%Z eqn:E.
  - apply andb_true_iff in E as [E _]. apply Z.ltb_lt in E.
    destruct (Z.to_nat _) eqn:En; [lia|]. eexists _, _; split; [reflexivity|auto].
  - repeat case_match. all: eexists _, _; split; [reflexivity|auto].
Qed.

Lemma ser_head d v t : ser d v = Some t -> exists c t', t = c :: t' /\ token_start c.
Proof.
  destruct v as [| | [] | [|m e] | s | xs | ps]; cbn [ser]; intros H; simplify_eq;
    try (eexists _, _; split; [reflexivity|done]).
  - destruct (num_text_head m e) as (c & t' & -> & Hc). eexists _, _. split; [done|].
    by apply num_token_start.
  - destruct (_ : list (list ascii)); (eexists _, _; split; [reflexivity|done]).
  - destruct (_ : list (list ascii)); (eexists _, _; split; [reflexivity|done]).
Qed.

Lemma skip_ws_token_start c t : token_start c -> skip_ws (c :: t) = c :: t.
Proof. intros [H _]. by apply skip_ws_token. Qed.

(** ** Values read back *)

(** The round trip of one value printed at depth [d]: two units of fuel
    per character of input are enough. *)
Definition roundtrips (v : value) : Prop :=
  forall d t F rest, value_wfb v = true -> ser d v = Some t ->
    (2 * length (t ++ rest) < F)%nat -> num_end rest ->
    parse_value F (t ++ rest) = Some (to_json v, rest).

Lemma num_end_comma r : num_end ("," :: r).
Proof. done. Qed.

Lemma num_end_nl d r : num_end (nl_indent d ++ r).
Proof. done. Qed.

#[local] Hint Resolve num_end_comma num_end_nl nl_indent_ws : core.

Lemma length_nl_indent d : length (nl_indent d) = S (2 * d).
Proof. unfold nl_indent. cbn [length]. by rewrite length_replicate. Qed.

Ltac len := repeat progress (rewrite ?length_app, ?length_nl_indent in *; cbn [length] in * ); lia.

(** An element of an array after its indentation: [undefined] prints and
    reads back as [null]. *)
Lemma elem_parse d x F ws rest :
  roundtrips x -> value_wfb x = true -> forallb is_ws ws = true ->
  (2 * length (ws ++ default null_text (ser (S d) x) ++ rest) < F)%nat -> num_end rest ->
  parse_value F (ws ++ default null_text (ser (S d) x) ++ rest)
  = Some (undef_to_null (to_json x), rest).
Proof.
  intros Hx Hwf Hws HF Hr. rewrite parse_value_ws by done.
  destruct (ser (S d) x) as [t|] eqn:E; simpl in *.
  - rewrite undef_to_null_to_json by (intros ->; done). apply (Hx (S d)); [done|done| |done]. len.
  - apply ser_None in E as ->. destruct F; [lia|]. reflexivity.
Qed.

Lemma item_nonempty d x : (1 <= length (default null_text (ser (S d) x)))%nat.
Proof.
  destruct (ser (S d) x) eqn:E; simpl; [|lia].
  destruct (ser_head _ _ _ E) as (c & t & -> & _). simpl. lia.
Qed.

Lemma item_start d x rest :
  exists c r, default null_text (ser (S d) x) ++ rest = c :: r /\ token_start c.
Proof.
  destruct (ser (S d) x) eqn:E; simpl; [|by eexists _, _].
  destruct (ser_head _ _ _ E) as (c & t & -> & Hc). by eexists _, _.
Qed.

Definition sep (d : nat) : list ascii := "," :: nl_indent (S d).

Lemma join_cons (x : list ascii) ys s : ys <> [] -> join s (x :: ys) = x ++ s ++ join s ys.
Proof. by destruct ys. Qed.

Lemma elems_roundtrip d xs :
  Forall roundtrips xs -> forallb value_wfb xs = true -> xs <> [] ->
  forall f acc rest,
  (2 * length (nl_indent (S d) ++ join (sep d) (arr_items d xs) ++ nl_indent d ++ "]" :: rest)
     + 1 < f)%nat ->
  parse_elems f (nl_indent (S d) ++ join (sep d) (arr_items d xs) ++ nl_indent d ++ "]" :: rest) acc
  = Some (VArr (acc ++ json_elems xs), rest).
Proof.
  induction 1 as [|x xs Hx Hxs IH]; [done|]. simpl forallb.
  intros [Hwx Hwxs]%andb_prop _ f acc rest Hf.
  destruct f as [|f]; [lia|]. pose proof (item_nonempty d x).
  destruct xs as [|x' xs'].
  - cbn [parse_elems arr_items join] in Hf |- *. rewrite elem_parse by (done || len).
    rewrite skip_ws_nl_indent. done.
  - cbn [parse_elems].
    change (arr_items d (x :: x' :: xs'))
      with (default null_text (ser (S d) x) :: arr_items d (x' :: xs')) in Hf |- *.
    rewrite join_cons in Hf |- * by done. unfold sep at 1 in Hf. unfold sep at 1. rewrite <- !app_assoc in Hf |- *.
    cbn [app] in Hf |- *.
    rewrite (elem_parse d x f (nl_indent (S d))) by (done || len). cbv iota beta.
    rewrite skip_ws_token by done. cbv iota beta.
    rewrite (IH Hwxs ltac:(done)) by len. by rewrite <- app_assoc.
Qed.

Lemma member_text_app k t r :
  member_text k t ++ r
  = "034" :: (String.list_ascii_of_string k ≫= escape_char) ++ "034" :: ":" :: " " :: t ++ r.
Proof. unfold member_text, quote. simpl. by rewrite <- !app_assoc. Qed.

(** One property: its key, the colon, and its value read back, then the
    parser looks at what follows. *)
Lemma member_parse d k x t f acc r :
  roundtrips x -> value_wfb x = true -> ser (S d) x = Some t -> num_end r ->
  (2 * length (nl_indent (S d) ++ member_text k t ++ r) < f)%nat ->
  props_wfb (acc ++ [(k, to_json x)]) = true ->
  parse_members (S f) (nl_indent (S d) ++ member_text k t ++ r) acc =
  match skip_ws r with
  | "," :: r4 => parse_members f r4 (acc ++ [(k, to_json x)])
  | "}" :: r4 => Some (VObj (acc ++ [(k, to_json x)]), r4)
  | _ => None
  end.
Proof.
  intros Hx Hwf Ht Hr Hf Hp. rewrite member_text_app in Hf |- *.
  cbn [parse_members]. rewrite skip_ws_nl_indent, skip_ws_token by done. cbv iota beta.
  rewrite quote_body_parse. cbv iota beta. rewrite skip_ws_token by done. cbv iota beta.
  change (" " :: t ++ r) with ([" "] ++ t ++ r). rewrite parse_value_ws by done.
  rewrite (Hx (S d)) by (done || len). cbv iota beta zeta.
  rewrite String.string_of_list_ascii_of_string, obj_set_snoc by done. reflexivity.
Qed.

Lemma props_wfb_snoc_prefix (acc ps : props) kv :
  props_wfb (acc ++ kv :: ps) = true -> props_wfb (acc ++ [kv]) = true.
Proof.
  apply props_wfb_sublist. rewrite !map_app. apply sublist_app; [done|].
  simpl. apply sublist_skip, sublist_nil_l.
Qed.

Lemma members_roundtrip d ps :
  Forall (fun kv => roundtrips kv.2) ps -> forallb (fun kv => value_wfb kv.2) ps = true ->
  obj_items d ps <> [] ->
  forall f acc rest, props_wfb (acc ++ json_props ps) = true ->
  (2 * length (nl_indent (S d) ++ join (sep d) (obj_items d ps) ++ nl_indent d ++ "}" :: rest)
     + 1 < f)%nat ->
  parse_members f (nl_indent (S d) ++ join (sep d) (obj_items d ps) ++ nl_indent d ++ "}" :: rest) acc
  = Some (VObj (acc ++ json_props ps), rest).
Proof.
  induction 1 as [|[k x] ps Hx Hps IH]; [done|]. simpl forallb.
  intros [Hwx Hwps]%andb_prop Hne f acc rest Hp Hf. cbn [obj_items json_props] in *.
  destruct (ser (S d) x) as [t|] eqn:Et.
  2:{ apply ser_None in Et as ->. by apply IH. }
  assert (Hu : is_undef x = false) by (apply is_undef_false; intros ->; done).
  rewrite Hu in Hp |- *. destruct f as [|f]; [lia|].
  destruct (obj_items d ps) as [|it its] eqn:Eo.
  - cbn [join] in Hf |- *. rewrite (obj_items_nil d ps Eo) in Hp |- *.
    rewrite (member_parse d k x t) by (done || len). by rewrite skip_ws_nl_indent.
  - rewrite join_cons in Hf |- * by done.
    unfold sep at 1 in Hf. unfold sep at 1. rewrite <- !app_assoc in Hf |- *. cbn [app] in Hf |- *.
    rewrite (member_parse d k x t) by (eauto using props_wfb_snoc_prefix || len).
    rewrite skip_ws_token by done. cbv iota beta.
    rewrite (IH Hwps) by (rewrite <- ?app_assoc; done || len). by rewrite <- app_assoc.
Qed.

Lemma join_cons_app (i : list ascii) its s r : exists r', join s (i :: its) ++ r = i ++ r'.
Proof. destruct its; simpl; eexists; [done|by rewrite <- app_assoc]. Qed.

(** After the opening bracket and the indentation, the parser sees the
    first token of the first item. *)
Lemma first_token (i : list ascii) its sp d r :
  (forall r0, exists c r1, i ++ r0 = c :: r1 /\ token_start c) ->
  exists c r1, skip_ws (nl_indent d ++ join sp (i :: its) ++ r) = c :: r1 /\ token_start c.
Proof.
  intros Hi. rewrite skip_ws_nl_indent. destruct (join_cons_app i its sp r) as [r' ->].
  destruct (Hi r') as (c & r1 & -> & Hc). exists c, r1. split; [|done].
  by apply skip_ws_token_start.
Qed.

Lemma member_start k t r0 : exists c r1, member_text k t ++ r0 = c :: r1 /\ token_start c.
Proof. rewrite member_text_app. by eexists _, _. Qed.

Lemma not_close (o : ascii) s : (exists c r1, s = c :: r1 /\ token_start c) ->
  o = "]" \/ o = "}" -> forall r', s <> o :: r'.
Proof. intros (c & r1 & -> & _ & H1 & H2) [-> | ->] r' [= ->]; done. Qed.

Lemma string_roundtrip s F rest :
  (0 < F)%nat ->
  parse_value F (quote (String.list_ascii_of_string s) ++ rest) = Some (VStr s, rest).
Proof.
  intros HF. destruct F as [|f]; [lia|]. rewrite quote_roundtrip. cbn [parse_value].
  rewrite skip_ws_token by done. cbv iota beta. rewrite quote_body_parse. simpl.
  by rewrite String.string_of_list_ascii_of_string.
Qed.

Lemma number_roundtrip m e F rest :
  num_canonb (Fin m e) = true -> num_end rest -> (0 < F)%nat ->
  parse_value F (num_text (Fin m e) ++ rest) = Some (VNum (Fin m e), rest).
Proof.
  intros Hc Hr HF. destruct F as [|f]; [lia|].
  destruct (num_text_head m e) as (c & t & Ht & Hh). rewrite Ht. simpl app.
  rewrite parse_value_num by done. change (c :: t ++ rest) with ((c :: t) ++ rest).
  by rewrite <- Ht, num_text_roundtrip.
Qed.

Lemma obj_items_start d ps i its :
  obj_items d ps = i :: its -> forall r0, exists c r1, i ++ r0 = c :: r1 /\ token_start c.
Proof.
  induction ps as [|[k x] ps IH]; cbn [obj_items]; [done|].
  destruct (ser (S d) x); [|done]. intros [= <- _] r0. apply member_start.
Qed.

(** Every well-formed value printed at any depth reads back as [to_json] of
    it. *)
Lemma ser_roundtrip v : roundtrips v.
Proof.
  induction v as [| | b | [|m e] | s | xs IH | ps IH] using value_ind;
    intros d t F rest Hwf Ht HF Hr.
  1-6: cbn [ser] in Ht; try destruct b; simplify_eq; (destruct F as [|f]; [lia|]).
  1-4: done.
  - apply number_roundtrip; [done|done|lia].
  - apply string_roundtrip. lia.
  - rewrite ser_arr in Ht. injection Ht as <-. rewrite to_json_arr.
    destruct xs as [|x xs']; destruct F as [|f]; try lia; [done|].
    change (arr_items d (x :: xs')) with (default null_text (ser (S d) x) :: arr_items d xs') in *.
    unfold wrap in *. change ("," :: nl_indent (S d)) with (sep d) in *.
    cbn [app] in HF |- *. rewrite <- !app_assoc in HF |- *. cbn [app] in HF |- *.
    rewrite parse_value_arr.
    2:{ apply not_close; [|by left]. apply first_token. intros r0. apply item_start. }
    change (default null_text (ser (S d) x) :: arr_items d xs') with (arr_items d (x :: xs')) in *.
    rewrite elems_roundtrip by (done || len). done.
  - rewrite ser_obj in Ht. injection Ht as <-. rewrite to_json_obj.
    cbn [value_wfb] in Hwf. apply andb_prop in Hwf as [Hp Hwf].
    destruct (obj_items d ps) as [|i its] eqn:Eo; destruct F as [|f]; try lia.
    { rewrite (obj_items_nil d ps Eo). done. }
    unfold wrap in *. change ("," :: nl_indent (S d)) with (sep d) in *.
    cbn [app] in HF |- *. rewrite <- !app_assoc in HF |- *. cbn [app] in HF |- *.
    rewrite parse_value_obj.
    2:{ apply not_close; [|by right]. apply first_token. by apply (obj_items_start d ps _ its). }
    assert (Hj : props_wfb ([] ++ json_props ps) = true)
      by (apply (props_wfb_sublist _ ps); [apply json_props_keys|done]).
    rewrite <- Eo in HF |- *. rewrite members_roundtrip by (done || len || (rewrite Eo; done)).
    done.
Qed.

(** ** What the parser returns *)

Definition good (v : value) : bool := value_wfb v && json_cleanb v.

Lemma good_arr xs : good (VArr xs) = forallb good xs.
Proof.
  unfold good. induction xs as [|x xs IH]; [done|]. simpl in *.
  rewrite <- IH. by destruct (value_wfb x), (json_cleanb x), (forallb value_wfb xs).
Qed.

Lemma good_obj ps : good (VObj ps) = props_wfb ps && forallb (fun kv => good kv.2) ps.
Proof.
  unfold good. simpl. destruct (props_wfb ps); [simpl|done].
  induction ps as [|[k x] ps IH]; [done|]. simpl in *. rewrite <- IH.
  by destruct (value_wfb x), (json_cleanb x), (forallb (fun kv => value_wfb kv.2) ps).
Qed.

Lemma norm_dec_not_NaN m e : norm_dec m e <> NaN.
Proof. unfold norm_dec. case_match; [done|]. by destruct strip_zeros. Qed.

Lemma parse_unsigned_good neg s x r :
  parse_unsigned neg s = Some (x, r) -> good (VNum x) = true.
Proof.
  unfold parse_unsigned. repeat case_match; intros; simplify_eq.
  all: unfold good; simpl; rewrite num_canonb_norm_dec; case_match; [|done]; by edestruct norm_dec_not_NaN.
Qed.

Lemma parse_number_good s x r : parse_number s = Some (x, r) -> good (VNum x) = true.
Proof.
  destruct s as [|c s]; [apply parse_unsigned_good|].
  destruct (ascii_dec c "-") as [->|Hc]; [apply parse_unsigned_good|].
  rewrite parse_number_nominus by done. apply parse_unsigned_good.
Qed.

Lemma good_obj_set acc k x :
  good (VObj acc) = true -> good x = true -> good (VObj (obj_set acc k x)) = true.
Proof.
  rewrite !good_obj. intros [Hp Hf]%andb_prop Hx.
  by rewrite props_wfb_obj_set, (forallb_obj_set good).
Qed.

Lemma good_obj_nil : good (VObj []) = true.
Proof. rewrite good_obj. unfold props_wfb. simpl. by rewrite ?bool_decide_eq_true_2 by constructor. Qed.

Lemma good_snoc acc x : forallb good acc = true -> good x = true -> forallb good (acc ++ [x]) = true.
Proof. intros H1 H2. rewrite forallb_app. simpl. by rewrite H1, H2. Qed.

(** Everything the parser returns is well formed and JSON-clean, whatever
    the text and the fuel. *)
Lemma parse_good f :
  (forall s v r, parse_value f s = Some (v, r) -> good v = true) /\
  (forall s acc v r, forallb good acc = true -> parse_elems f s acc = Some (v, r) -> good v = true) /\
  (forall s acc v r, good (VObj acc) = true -> parse_members f s acc = Some (v, r) -> good v = true).
Proof.
  induction f as [|f (IHv & IHe & IHm)]; [done|]. split; [|split].
  - intros s v r. cbn [parse_value]. repeat case_match; intros Hres; simplify_eq; try done.
    all: try (eapply IHe; [|eassumption]; done). all: try (eapply IHm; [apply good_obj_nil|done]).
    all: apply fmap_Some in Hres as ([x r'] & E & [= -> ->]).
    all: first [done | by eapply parse_number_good].
  - intros s acc v r Hacc. cbn [parse_elems].
    destruct (parse_value f s) as [[x r1]|] eqn:E; [|done]. apply IHv in E.
    repeat case_match; intros Hres; simplify_eq; try done.
    all: try (eapply IHe; [|done]; by apply good_snoc).
    rewrite good_arr. by apply good_snoc.
  - intros s acc v r Hacc. cbn [parse_members]. repeat case_match; intros Hres; simplify_eq; try done.
    all: try (eapply IHm; [|done]; apply good_obj_set; [done|by eapply IHv]).
    all: apply good_obj_set; [done|by eapply IHv].
Qed.

(** ** The codec *)

Local Close Scope char_scope.

Lemma json_parse_text_ser v t :
  value_wfb v = true -> ser 0 v = Some t -> json_parse_text t = Some (to_json v).
Proof.
  intros Hwf Ht. unfold json_parse_text.
  pose proof (ser_roundtrip v 0 t (2 * length t + 2) [] Hwf Ht) as H.
  rewrite app_nil_r in H. rewrite H by (done || len). done.
Qed.

Lemma json_stringify_defined v : v <> VUndef -> is_Some (json_stringify v).
Proof.
  intros Hv. unfold json_stringify. destruct (ser 0 v) eqn:E; [by eexists|].
  by apply ser_None in E.
Qed.

Lemma json_parse_of_text t : json_parse (String.string_of_list_ascii t) = json_parse_text t.
Proof. unfold json_parse. by rewrite String.list_ascii_of_string_of_list_ascii. Qed.

Lemma json_parse_text_good t v : json_parse_text t = Some v -> good v = true.
Proof.
  unfold json_parse_text.
  destruct (parse_value _ _) as [[v' r]|] eqn:E; [|done]. case_match; [|done].
  intros [= <-]. by apply (proj1 (parse_good _)) in E.
Qed.

#[export] Instance json_codec : JsonCodec.
Proof.
  refine {| stringify := json_stringify; parse := json_parse;
            stringify_defined := json_stringify_defined; stringify_undefined := eq_refl |}.
  - intros v s Hwf (t & Ht & ->)%fmap_Some. rewrite json_parse_of_text.
    by apply json_parse_text_ser.
  - unfold json_parse. intros s v Hv%json_parse_text_good. by apply andb_prop in Hv.
Defined.

(** C16. With the codec [json_codec], [JSON.parse(JSON.stringify(v, null,
    2))] is [to_json v] for every well-formed value [v] that
    [JSON.stringify] prints: what [writeUsers] stores, [readUsers] reads
    back. *)
Theorem json_parse_stringify v s :
  value_wfb v = true -> @stringify json_codec v = Some s -> @parse json_codec s = Some (to_json v).
Proof.
  simpl. intros Hwf (t & Ht & ->)%fmap_Some. rewrite json_parse_of_text.
  by apply json_parse_text_ser.
Qed.

(** C17. Whatever text [JSON.parse] (the [parse] of [json_codec]) accepts, the value it returns is well
    formed (ordered distinct keys, canonical numbers) and JSON-clean (no
    [undefined], no [NaN]). *)
Theorem json_parse_good s v :
  @parse json_codec s = Some v -> value_wfb v = true /\ json_cleanb v = true.
Proof. simpl. unfold json_parse. intros Hv%json_parse_text_good. by apply andb_prop in Hv. Qed.
