(* ===== verification/Render.v ===== *)
(** * GET /users: the HTML listing (src/index.js 37-47)

    The handler reads the store, maps each user to
    [`<li>${user.fullName} - ${user.email}</li>`], joins the items with the
    empty string and sends them inside a fixed page.  A template literal
    converts each substitution with ToString ([js_to_string]): [undefined]
    and [null] print as words, numbers as [Number::toString], arrays as
    their elements joined with commas, objects as [[object Object]], and
    an object with an own [toString] property throws a [TypeError].
    Nothing is escaped. *)

From stdpp Require Import base list strings.
From Stdlib Require Import ZArith Lia.
From S2P Require Import Prelude JsValue JsonCodec Store ArrayOps Handlers JsonPrint.

Local Open Scope string_scope.

(** ToString.  An array prints as [Array.prototype.join(",")]: an
    [undefined] or [null] element prints as the empty string.  An object
    prints as [[object Object]] through [Object.prototype.toString], unless
    it has an own [toString] property: a parsed object's own properties are
    never functions, so OrdinaryToPrimitive finds neither a callable
    [toString] nor a [valueOf] that gives a primitive, and throws. *)
Definition cannot_convert : js_error := TypeError "Cannot convert object to primitive value".

Fixpoint js_to_string (v : value) : throws string :=
  match v with
  | VUndef => Ok "undefined"
  | VNull => Ok "null"
  | VBool true => Ok "true"
  | VBool false => Ok "false"
  | VNum NaN => Ok "NaN"
  | VNum x => Ok (String.string_of_list_ascii (num_text x))
  | VStr s => Ok s
  | VArr xs =>
      let! ss := (fix G xs := match xs with
                  | [] => Ok []
                  | x :: xs' =>
                      let! s := match x with VUndef | VNull => Ok EmptyString | _ => js_to_string x end in
                      let! ss := G xs' in Ok (s :: ss)
                  end) xs in
      Ok (String.concat "," ss)
  | VObj ps =>
      match prop_lookup ps "toString" with
      | Some _ => Throw cannot_convert
      | None => Ok "[object Object]"
      end
  end.

(** [users.map(f)] with a callback that may throw: the first exception
    ends the map. *)
Fixpoint map_throws {A B} (f : A -> throws B) (xs : list A) : throws (list B) :=
  match xs with
  | [] => Ok []
  | x :: xs' => let! y := f x in let! ys := map_throws f xs' in Ok (y :: ys)
  end.

(** [(user) => `<li>${user.fullName} - ${user.email}</li>`] *)
Definition user_item (user : value) : throws string :=
  let! fullName := get_prop user "fullName" in
  let! s1 := js_to_string fullName in
  let! email := get_prop user "email" in
  let! s2 := js_to_string email in
  Ok ("<li>" ++ s1 ++ " - " ++ s2 ++ "</li>").

(** The template literal of lines 39-45 around the joined items. *)
Definition users_page (items : string) : string :=
  nl ++ "    <h1>Registered Users</h1>" ++ nl ++ "    <ul>" ++ nl ++ "    " ++ items ++ nl
  ++ "    </ul>" ++ nl ++ "    <a href=" ++ dq ++ "/register" ++ dq
  ++ ">Register New User</a>  <!-- Changed from /signup -->" ++ nl ++ "    ".

Section Render.
Context `{JsonCodec}.

(** GET /users *)
Definition get_users_page : io response :=
  users <- readUsers ;;
  lift (let! xs := as_array users "map" in
        let! items := map_throws user_item xs in
        Ok (String.concat EmptyString items))
    (fun items => Ret (RSend (users_page items))).
End Render.

Example to_string_forms :
  map js_to_string [VArr [VNum (num_of_nat 1); VNull; VArr [VBool true; VUndef]];
                    VObj []; VNum NaN; VNum (Fin 15 (-1));
                    VArr [VObj [("toString", VStr "x")]]]
  = [Ok "1,,true,"; Ok "[object Object]"; Ok "NaN"; Ok "1.5"; Throw cannot_convert].
Proof. reflexivity. Qed.

(** ** Strings and maps *)

Lemma str_app_assoc (a b c : string) : a ++ (b ++ c) = (a ++ b) ++ c.
Proof. induction a as [|x a IH]; [done|]. exact (f_equal (String x) IH). Qed.

Lemma str_app_nil_r (a : string) : a ++ EmptyString = a.
Proof. induction a as [|x a IH]; [done|]. exact (f_equal (String x) IH). Qed.

Lemma concat_empty_cons x l :
  String.concat EmptyString (x :: l) = x ++ String.concat EmptyString l.
Proof. destruct l; simpl; [by rewrite str_app_nil_r|done]. Qed.

Lemma concat_empty_app l1 x l2 :
  String.concat EmptyString (l1 ++ x :: l2)
  = String.concat EmptyString l1 ++ (x ++ String.concat EmptyString l2).
Proof.
  induction l1 as [|y l1 IH]; simpl app; [apply concat_empty_cons|].
  by rewrite !concat_empty_cons, IH, str_app_assoc.
Qed.

Definition throws_ok {A} (c : throws A) : Prop := exists a, c = Ok a.

Lemma map_throws_ok {A B} (f : A -> throws B) xs :
  Forall (fun x => throws_ok (f x)) xs ->
  exists ys, map_throws f xs = Ok ys /\ Forall2 (fun x y => f x = Ok y) xs ys.
Proof.
  induction 1 as [|x xs [y Hy] _ (ys & Hys & H2)]; [by exists []|].
  exists (y :: ys). simpl. rewrite Hy, Hys. split; [done|by constructor].
Qed.

Lemma map_throws_throw {A B} (f : A -> throws B) xs i x e :
  Forall (fun x => throws_ok (f x)) (take i xs) -> xs !! i = Some x -> f x = Throw e ->
  map_throws f xs = Throw e.
Proof.
  revert i. induction xs as [|y xs IH]; intros [|i]; simpl; try done.
  - intros _ [= ->] He. by rewrite He.
  - intros Hok%Forall_cons Hx He. destruct Hok as [[z Hz] Hok]. rewrite Hz. simpl.
    by rewrite (IH i).
Qed.

(** A user the callback can read: not [null] or [undefined]. *)
Definition readable (u : value) : Prop := u <> VNull /\ u <> VUndef.

(** Values ToString converts without throwing: no object with an own
    [toString], also inside arrays. *)
Fixpoint printable (v : value) : bool :=
  match v with
  | VArr xs => forallb printable xs
  | VObj ps => forallb (fun kv => negb (String.eqb kv.1 "toString")) ps
  | _ => true
  end.

(** A user the callback renders: readable, with a [fullName] and an
    [email] that convert to strings. *)
Definition field_ok (u : value) (k : string) : Prop :=
  forall x, get_prop u k = Ok x -> printable x = true.

Definition renders (u : value) : Prop :=
  readable u /\ field_ok u "fullName" /\ field_ok u "email".

Lemma js_to_string_ok v : printable v = true -> throws_ok (js_to_string v).
Proof.
  induction v as [| | | [|] | | xs IH | ps _] using value_ind; simpl; try (eexists; done).
  - destruct b; eexists; done.
  - intros Hxs. enough (Hss : exists ss, (fix G xs := match xs with
        | [] => Ok []
        | x :: xs' =>
            let! s := match x with VUndef | VNull => Ok EmptyString | _ => js_to_string x end in
            let! ss := G xs' in Ok (s :: ss)
        end) xs = Ok ss) by (destruct Hss as [ss ->]; by eexists).
    induction IH as [|x xs Hx _ IHl]; simpl in *; [by eexists|].
    apply andb_prop in Hxs as [H1 H2]. destruct (IHl H2) as [ss ->].
    destruct x; try (eexists; reflexivity);
      destruct (Hx H1) as [s Hs]; rewrite Hs; by eexists.
  - intros Hps. enough (Hn : prop_lookup ps "toString" = None) by (rewrite Hn; by eexists).
    induction ps as [|[k x] ps IHps]; cbn [forallb prop_lookup fst snd] in *; [done|].
    apply andb_prop in Hps as [Hk Hps]. rewrite String.eqb_sym.
    destruct (String.eqb k "toString"); [done|auto].
Qed.

Lemma js_to_string_unprintable v : printable v = false -> js_to_string v = Throw cannot_convert.
Proof.
  induction v as [| | | [|] | | xs IH | ps _] using value_ind; simpl; try done.
  - intros Hxs. enough (Hss : (fix G xs := match xs with
        | [] => Ok []
        | x :: xs' =>
            let! s := match x with VUndef | VNull => Ok EmptyString | _ => js_to_string x end in
            let! ss := G xs' in Ok (s :: ss)
        end) xs = Throw cannot_convert) by (rewrite Hss; done).
    induction IH as [|x xs Hx _ IHl]; cbn [forallb] in *; [done|].
    destruct (printable x) eqn:Hpx; simpl in Hxs.
    + rewrite IHl by done. destruct (js_to_string_ok x Hpx) as [s Hs].
      by destruct x; try rewrite Hs.
    + by destruct x; simpl in Hpx; try discriminate; rewrite Hx.
  - intros Hps. enough (Hn : exists x, prop_lookup ps "toString" = Some x) by (destruct Hn as [? ->]; done).
    induction ps as [|[k x] ps IHps]; cbn [forallb prop_lookup fst snd] in *; [done|].
    rewrite String.eqb_sym. destruct (String.eqb k "toString"); [by eexists|auto].
Qed.

Lemma user_item_ok u : renders u -> throws_ok (user_item u).
Proof.
  intros ([Hn Hu] & Hf & He). unfold user_item.
  destruct (get_prop u "fullName") as [x|e] eqn:Hx;
    [|by destruct u; simpl in Hx; try (case_match; simpl in Hx)].
  cbn [throws_bind]. destruct (js_to_string_ok x (Hf x Hx)) as [s1 ->]. cbn [throws_bind].
  destruct (get_prop u "email") as [y|e] eqn:Hy;
    [|by destruct u; simpl in Hy; try (case_match; simpl in Hy)].
  cbn [throws_bind]. destruct (js_to_string_ok y (He y Hy)) as [s2 ->]. by eexists.
Qed.

Lemma user_item_fullName ps s y :
  prop_lookup ps "fullName" = Some (VStr s) -> user_item (VObj ps) = Ok y ->
  exists rest, y = "<li>" ++ s ++ " - " ++ rest.
Proof.
  intros Hs. unfold user_item. simpl. rewrite Hs. simpl.
  destruct (js_to_string _) as [e|]; simpl; [|done]. intros [= <-]. by eexists.
Qed.

(** [s] occurs in [t]. *)
Definition infix (s t : string) : Prop := exists pre post, t = pre ++ s ++ post.

Lemma infix_refl s : infix s s.
Proof. exists EmptyString, EmptyString. simpl. by rewrite str_app_nil_r. Qed.

Lemma infix_app_l s a t : infix s t -> infix s (a ++ t).
Proof. intros (pre & post & ->). exists (a ++ pre), post. by rewrite str_app_assoc. Qed.

Lemma infix_app_r s t b : infix s t -> infix s (t ++ b).
Proof.
  intros (pre & post & ->). exists pre, (post ++ b). by rewrite <- !str_app_assoc.
Qed.

Ltac infix_tac :=
  first [ apply infix_refl
        | apply infix_app_r; infix_tac
        | apply infix_app_l; infix_tac ].

Section RenderLaws.
Context `{JsonCodec}.

(** C19. The listing does not escape what it prints: when the store holds
    users the callback renders and one of them has the string [s] as its
    [fullName], the page GET /users sends contains [s] verbatim (markup
    included), and the store and log are unchanged. *)
Theorem users_page_unescaped w us i ps s ws :
  holds w (VArr us) -> Forall renders us ->
  us !! i = Some (VObj ps) -> prop_lookup ps "fullName" = Some (VStr s) ->
  exists page, run get_users_page w ws = (RSend page, w) /\ infix s page.
Proof.
  intros Hw Hr Hi Hs. unfold get_users_page.
  rewrite (run_readUsers_holds _ _ _ (VArr us)) by done.
  destruct (map_throws_ok user_item us) as (ys & Hys & H2).
  { eapply Forall_impl; [done|apply user_item_ok]. }
  simpl. rewrite Hys. simpl. eexists. split; [done|].
  destruct (Forall2_lookup_l _ _ _ _ _ H2 Hi) as (y & Hy & Hxy).
  destruct (user_item_fullName ps s y Hs Hxy) as [rest ->].
  rewrite <- (take_drop_middle ys i _ Hy), concat_empty_app. unfold users_page.
  infix_tac.
Qed.

(** C20. A [null] element in the stored array makes GET /users reject with
    the [TypeError] of reading [fullName] of [null]: no page is sent. *)
Theorem users_page_null_user w us i ws :
  holds w (VArr us) -> Forall renders (take i us) -> us !! i = Some VNull ->
  run get_users_page w ws = (RUnhandled (read_null "fullName"), w).
Proof.
  intros Hw Hr Hi. unfold get_users_page.
  rewrite (run_readUsers_holds _ _ _ (VArr us)) by done. simpl.
  rewrite (map_throws_throw _ _ i VNull (read_null "fullName")); [done| |done|done].
  eapply Forall_impl; [done|apply user_item_ok].
Qed.
(** C21. One stored name that ToString cannot convert takes the listing
    down: when the stored array holds, after users the callback renders, an
    object whose [fullName] is an object with an own [toString] property
    (or an array holding one), GET /users rejects with the [TypeError] of
    the conversion and no page is sent. *)
Theorem users_page_unprintable_name w us i ps x ws :
  holds w (VArr us) -> Forall renders (take i us) -> us !! i = Some (VObj ps) ->
  prop_lookup ps "fullName" = Some x -> printable x = false ->
  run get_users_page w ws = (RUnhandled cannot_convert, w).
Proof.
  intros Hw Hr Hi Hx Hp. unfold get_users_page.
  rewrite (run_readUsers_holds _ _ _ (VArr us)) by done. simpl.
  rewrite (map_throws_throw _ _ i (VObj ps) cannot_convert); [done| |done|].
  - eapply Forall_impl; [done|apply user_item_ok].
  - unfold user_item. cbn [get_prop throws_bind]. rewrite Hx. simpl.
    by rewrite js_to_string_unprintable.
Qed.
End RenderLaws.
