(* ===== verification/Concurrency.v ===== *)
(** * Requests in flight: the interleaving of handlers on the shared file

    Express hands every request to its route handler ([handle], the route
    table of src/index.js 33-144).  The handlers are async: each runs until
    it [await]s the file (read or write), and other requests run
    meanwhile.  They share nothing but the file and the log.

    The pool of requests in flight is a list of [io response] programs, one
    per request.  A [step] lets one of them perform its next effect on the
    shared world: a read sees the file as it is at that moment, a write
    replaces it (or fails, leaving what the failure leaves), a log line is
    appended.  A finished request is [Ret] of its response.  The model takes
    each read and each write as one step: the JavaScript between two
    [await]s runs without interruption, as on Node's single thread.

    - [esteps E n] is [n] steps in sequence, with writes whose outcomes
      [E] allows ([step], [steps] allow every outcome); [exec] runs a
      schedule (which request, and how its write turns out) and is the
      executable form of [esteps] ([exec_steps]);
    - every interleaving of any requests stops after at most four effects
      per request ([requests_terminate]);
    - liveness ([requests_answered]): on a store that is missing,
      unparsable or an array of users whose printed fields convert, with
      bodies that keep it so and writes that fail only in ways that keep
      it so ([fail_ok]), no handler rejects: from every reachable state
      the run can be completed, and a run that stops has answered every
      request.  The proof uses [safe_io], a postcondition predicate on
      [io] programs with a bind rule, and the invariant [pool_ok];
    - a sequential [run] is one interleaving ([run_refines_steps]);
    - two POST /api/users whose reads both come before their writes both
      answer Success with the same id, and the second write erases the
      first user (the lost update of the specification, section 5). *)

From stdpp Require Import base list strings.
From Stdlib Require Import ZArith Lia.
From S2P Require Import Prelude JsValue JsonCodec Store ArrayOps Handlers Render.

(** ** Routing *)

Inductive request :=
| GetRegister
| GetUsersPage
| GetApiUsers
| GetUser (id : number)
| PatchUser (id : number) (body : value)
| DeleteUser (id : number)
| PostUser (body : value)
| SubmitRegistration (body : value).

Section Routing.
Context `{JsonCodec}.

Definition handle (r : request) : io response :=
  match r with
  | GetRegister => get_register
  | GetUsersPage => get_users_page
  | GetApiUsers => get_api_users
  | GetUser id => get_user id
  | PatchUser id body => patch_user id body
  | DeleteUser id => delete_user id
  | PostUser body => post_user body
  | SubmitRegistration body => submit_registration body
  end.
End Routing.

Abbreviation pool := (list (io response)).

(** ** The interleaving semantics

    [E] says which outcomes a write may have: [any_outcome] allows every
    outcome, including a failed write that leaves arbitrary content. *)

Section Semantics.
Variable E : write_outcome -> Prop.

Inductive estep : world -> pool -> world -> pool -> Prop :=
| StepRead i k w ts :
    ts !! i = Some (ReadFile k) -> estep w ts w (<[i := k (file w)]> ts)
| StepWrite i d k o w ts :
    E o -> ts !! i = Some (WriteFile d k) ->
    estep w ts (do_write w d o).1 (<[i := k (do_write w d o).2]> ts)
| StepLog i m k w ts :
    ts !! i = Some (LogError m k) ->
    estep w ts (World (file w) (log w ++ [m])) (<[i := k]> ts).

Inductive esteps : nat -> world -> pool -> world -> pool -> Prop :=
| steps_nil w ts : esteps 0 w ts w ts
| steps_cons n w ts w1 ts1 w2 ts2 :
    estep w ts w1 ts1 -> esteps n w1 ts1 w2 ts2 -> esteps (S n) w ts w2 ts2.
End Semantics.

Arguments StepRead {E} i k w ts _.
Arguments StepWrite {E} i d k o w ts _ _.
Arguments StepLog {E} i m k w ts _.
Arguments steps_nil {E} w ts.
Arguments steps_cons {E} n w ts w1 ts1 w2 ts2 _ _.

Definition any_outcome (o : write_outcome) : Prop := True.

Abbreviation step := (estep any_outcome).
Abbreviation steps := (esteps any_outcome).

(** One step of request [i]; [o] decides a write. *)
Definition step_at (i : nat) (o : write_outcome) (w : world) (ts : pool) : option (world * pool) :=
  match ts !! i with
  | Some (ReadFile k) => Some (w, <[i := k (file w)]> ts)
  | Some (WriteFile d k) => let '(w', ok) := do_write w d o in Some (w', <[i := k ok]> ts)
  | Some (LogError m k) => Some (World (file w) (log w ++ [m]), <[i := k]> ts)
  | _ => None
  end.

Fixpoint exec (sch : list (nat * write_outcome)) (w : world) (ts : pool) : option (world * pool) :=
  match sch with
  | [] => Some (w, ts)
  | (i, o) :: sch' =>
      match step_at i o w ts with
      | Some (w', ts') => exec sch' w' ts'
      | None => None
      end
  end.

Definition is_done (c : io response) : bool := match c with Ret _ => true | _ => false end.

(** ** The scheduler runs the semantics *)

Section SemanticsLaws.
Variable E : write_outcome -> Prop.

Lemma step_at_step i o w ts w' ts' :
  E o -> step_at i o w ts = Some (w', ts') -> estep E w ts w' ts'.
Proof.
  intros Ho. unfold step_at. destruct (ts !! i) as [[a|k|d k|m k]|] eqn:Hi; try done.
  - intros [= <- <-]. by apply StepRead.
  - pose proof (StepWrite i d k o w ts Ho Hi) as Hs.
    destruct (do_write w d o) as [w1 ok]. by intros [= <- <-].
  - intros [= <- <-]. by apply StepLog.
Qed.

Lemma exec_steps sch w ts w' ts' :
  Forall (fun p => E p.2) sch -> exec sch w ts = Some (w', ts') -> esteps E (length sch) w ts w' ts'.
Proof.
  revert w ts. induction sch as [|[i o] sch IH]; intros w ts Hsch; simpl.
  - intros [= <- <-]. constructor.
  - apply Forall_cons in Hsch as [Ho Hsch].
    destruct (step_at i o w ts) as [[w1 ts1]|] eqn:Hs; [|done]. intros H.
    econstructor; [by eapply step_at_step|by apply IH].
Qed.

(** ** Every interleaving stops *)

Lemma sum_list_insert (ns : list nat) i n x :
  ns !! i = Some n -> sum_list (<[i := x]> ns) + n = sum_list ns + x.
Proof.
  revert i. induction ns as [|m ns IH]; intros [|i]; simpl; try done.
  - intros [= ->]. lia.
  - intros Hi. specialize (IH i Hi). lia.
Qed.

Lemma step_bound w ts w' ts' ns :
  estep E w ts w' ts' -> Forall2 io_steps ts ns ->
  exists ns', Forall2 io_steps ts' ns' /\ sum_list ns' < sum_list ns.
Proof.
  intros Hs Hf. destruct Hs as [i k w ts Hi|i d k o w ts _ Hi|i m k w ts Hi];
    destruct (Forall2_lookup_l _ _ _ _ _ Hf Hi) as ([|b] & Hn & Hb); try done; simpl in Hb;
    exists (<[i := b]> ns); (split; [apply Forall2_insert; auto|]);
    pose proof (sum_list_insert _ _ _ b Hn); lia.
Qed.

Lemma steps_bounded n w ts w' ts' ns :
  esteps E n w ts w' ts' -> Forall2 io_steps ts ns -> n <= sum_list ns.
Proof.
  intros Hs. revert ns. induction Hs as [|n w ts w1 ts1 w2 ts2 Hs _ IH]; intros ns Hf; [lia|].
  destruct (step_bound _ _ _ _ _ Hs Hf) as (ns' & Hf' & Hlt). specialize (IH _ Hf'). lia.
Qed.

(** When a write may succeed, a pool in which no request can step has
    only finished programs. *)
Lemma stuck_done w ts :
  E WriteOk -> (forall w' ts', ~ estep E w ts w' ts') -> Forall (fun c => is_done c = true) ts.
Proof.
  intros Hok Hstuck. apply Forall_lookup. intros i [a|k|d k|m k] Hi; [done|..]; exfalso.
  - eapply Hstuck, StepRead, Hi.
  - eapply (Hstuck _ _), (StepWrite _ _ _ WriteOk), Hi. done.
  - eapply Hstuck, StepLog, Hi.
Qed.

Lemma done_stuck w ts :
  Forall (fun c => is_done c = true) ts -> forall w' ts', ~ estep E w ts w' ts'.
Proof.
  intros Hd w' ts' Hs. destruct Hs as [i ? ? ? Hi|i ? ? ? ? ? _ Hi|i ? ? ? ? Hi];
    by pose proof (proj1 (Forall_lookup _ _) Hd _ _ Hi).
Qed.
Lemma esteps_bounds n w ts w' ts' ns :
  esteps E n w ts w' ts' -> Forall2 io_steps ts ns -> exists ns', Forall2 io_steps ts' ns'.
Proof.
  intros Hs. revert ns. induction Hs as [w ts|n w ts w1 ts1 w2 ts2 Hs _ IH]; intros ns Hf; [eauto|].
  destruct (step_bound _ _ _ _ _ Hs Hf) as (ns' & Hf' & _). eauto.
Qed.

(** A request that has not finished can take a step when writes may succeed. *)
Lemma unfinished_steps w ts i c :
  E WriteOk -> ts !! i = Some c -> is_done c = false -> exists w' ts', estep E w ts w' ts'.
Proof.
  intros Hok Hi Hc. destruct c as [a|k|d k|m k]; try done; do 2 eexists.
  - by apply StepRead.
  - by apply (StepWrite i d k WriteOk).
  - by apply StepLog.
Qed.

(** Scheduling any unfinished request, every pool of bounded programs
    reaches a pool in which every request has finished. *)
Lemma run_to_done w ts ns :
  E WriteOk -> Forall2 io_steps ts ns ->
  exists m w' ts', esteps E m w ts w' ts' /\ Forall (fun c => is_done c = true) ts'.
Proof.
  intros Hok. remember (sum_list ns) as N eqn:HN.
  revert w ts ns HN. induction N as [N IH] using lt_wf_ind; intros w ts ns HN Hf.
  destruct (list_find (fun c => is_done c = false) ts) as [[i c]|] eqn:Hfind.
  - apply list_find_Some in Hfind as (Hi & Hc & _).
    destruct (unfinished_steps w ts i c Hok Hi Hc) as (w1 & ts1 & Hs).
    destruct (step_bound _ _ _ _ _ Hs Hf) as (ns' & Hf' & Hlt).
    destruct (IH (sum_list ns') ltac:(lia) w1 ts1 ns' eq_refl Hf') as (m & w' & ts' & Hm & Hd).
    exists (S m), w', ts'. split; [econstructor; eauto|done].
  - exists 0, w, ts. split; [constructor|]. apply list_find_None in Hfind.
    eapply Forall_impl; [exact Hfind|]. intros c Hnc. simpl in Hnc. by destruct (is_done c).
Qed.

End SemanticsLaws.

Section Requests.
Context `{JsonCodec}.

Lemma get_users_page_bounded : io_steps get_users_page 2.
Proof. unfold get_users_page. after_read 0. apply lift_steps. intros ?. exact I. Qed.

Lemma handle_bounded r : io_steps (handle r) 4.
Proof.
  destruct r as [| | |id|id body|id|body|body]; cbn [handle];
    [| eapply io_steps_mono; [apply get_users_page_bounded|lia] | ..];
    [ destruct (handlers_bounded (num_of_nat 0) VNull) as (H1 & H2 & H3 & H4 & H5 & H6 & H7)
    | destruct (handlers_bounded (num_of_nat 0) VNull) as (H1 & H2 & H3 & H4 & H5 & H6 & H7)
    | destruct (handlers_bounded id VNull) as (H1 & H2 & H3 & H4 & H5 & H6 & H7)
    | destruct (handlers_bounded id body) as (H1 & H2 & H3 & H4 & H5 & H6 & H7)
    | destruct (handlers_bounded id VNull) as (H1 & H2 & H3 & H4 & H5 & H6 & H7)
    | destruct (handlers_bounded (num_of_nat 0) body) as (H1 & H2 & H3 & H4 & H5 & H6 & H7)
    | destruct (handlers_bounded (num_of_nat 0) body) as (H1 & H2 & H3 & H4 & H5 & H6 & H7) ].
    all: match goal with Hx : io_steps ?c ?k |- io_steps ?c _ => apply (io_steps_mono c k); [exact Hx|lia] end.
Qed.
End Requests.

Lemma sum_list_replicate n k : sum_list (replicate n k) = n * k.
Proof. induction n as [|n IH]; simpl; lia. Qed.

Section Interleavings.
Context `{JsonCodec}.

Lemma handles_bounded rs : Forall2 io_steps (map handle rs) (replicate (length rs) 4).
Proof. induction rs as [|r rs IH]; simpl; constructor; [apply handle_bounded|done]. Qed.

(** C15. Every interleaving stops: whatever the outcomes of the writes and
    the order in which requests take turns, a run of any requests takes at
    most four effects per request. *)
Theorem requests_terminate E rs w n w' ts' :
  esteps E n w (map handle rs) w' ts' -> n <= 4 * length rs.
Proof.
  intros Hs. pose proof (steps_bounded _ _ _ _ _ _ _ Hs (handles_bounded rs)) as Hb.
  rewrite sum_list_replicate in Hb. lia.
Qed.

(** The sequential runner is one interleaving: running a program to
    completion with [run], its writes decided by [ws], is a sequence of
    steps of that program alone in any pool, ending with its result in its
    place and the world [run] computes. *)
Lemma run_refines_steps (c : io response) w ws ts i :
  ts !! i = Some c ->
  exists n, steps n w ts (run c w ws).2 (<[i := Ret (run c w ws).1]> ts).
Proof.
  revert w ws ts. induction c as [a|k IH|d k IH|m k IH]; intros w ws ts Hi; simpl.
  - exists 0. rewrite list_insert_id by done. constructor.
  - destruct (IH (file w) w ws (<[i := k (file w)]> ts)) as [n Hn].
    { apply list_lookup_insert_eq. by eapply lookup_lt_Some. }
    exists (S n). econstructor; [by apply StepRead|]. by rewrite list_insert_insert_eq in Hn.
  - destruct (match ws with [] => _ | _ => _ end) as [o ws'].
    pose proof (StepWrite (E := any_outcome) i d k o w ts I Hi) as Hs.
    destruct (do_write w d o) as [w' ok]. simpl in Hs.
    destruct (IH ok w' ws' (<[i := k ok]> ts)) as [n Hn].
    { apply list_lookup_insert_eq. by eapply lookup_lt_Some. }
    exists (S n). econstructor; [exact Hs|]. by rewrite list_insert_insert_eq in Hn.
  - destruct (IH (World (file w) (log w ++ [m])) ws (<[i := k]> ts)) as [n Hn].
    { apply list_lookup_insert_eq. by eapply lookup_lt_Some. }
    exists (S n). econstructor; [by apply StepLog|]. by rewrite list_insert_insert_eq in Hn.
Qed.

Definition created_for (us : list value) (body : value) : response :=
  RJson 200 (VObj [("status", VStr "Success"); ("user", new_api_user us body)]).

(** C13. Lost update: when two POST /api/users read the store before
    either writes, both answer Success with the same id [length + 1], and
    the store ends with the second user only: the first is lost, with no
    error logged. *)
Theorem lost_update w us a b :
  holds w (VArr us) ->
  value_wfb a = true -> json_cleanb a = true -> value_wfb b = true -> json_cleanb b = true ->
  exists w',
    steps 4 w [handle (PostUser a); handle (PostUser b)] w'
          [Ret (created_for us a); Ret (created_for us b)] /\
    log w' = log w /\ holds w' (VArr (us ++ [new_api_user us b])).
Proof.
  intros Hw Hwa Hca Hwb Hcb. destruct (holds_json _ _ Hw) as [Hwf Hcl].
  destruct Hw as (text & Hf & Hp).
  destruct (stringify_defined (VArr (js_push us (new_api_user us a)))) as [ta Hta]; [done|].
  destruct (stringify_defined (VArr (js_push us (new_api_user us b)))) as [tb Htb]; [done|].
  exists (World (Some tb) (log w)). split; [|split; [done|]].
  - change 4 with (length [(0, WriteOk); (1, WriteOk); (0, WriteOk); (1, WriteOk)]).
    apply exec_steps; [repeat constructor|]. simpl. rewrite Hf. simpl. rewrite Hp. simpl.
    unfold writeUsers. rewrite Hta, Htb. reflexivity.
  - apply holds_written; [apply forallb_app_snoc..|done]; try done.
    + by apply new_api_user_wf.
    + by apply new_api_user_clean.
Qed.
End Interleavings.

(** ** No request is left without a response

    The store invariant: the file is missing, does not parse, or parses to
    an array of objects whose [fullName] and [email], where present,
    ToString converts (GET /users prints them).  A request whose handler reads such a store never
    throws, and what it writes is again such a store.  A failed write is
    allowed when it leaves the file in that state (missing, or truncated so
    that it does not parse, or unchanged).  [safe_io Q c] says that [c]
    ends with a result satisfying [Q] on every path that reads files in
    that state, and writes only texts in that state. *)

(** The properties GET /users prints. *)
Definition field_key (k : string) : bool := String.eqb k "fullName" || String.eqb k "email".

Definition field_printable (k : string) (v : value) : bool := negb (field_key k) || printable v.

(** A stored user: an object whose printed fields convert to strings. *)
Definition user_obj (v : value) : bool :=
  match v with
  | VObj ps => forallb (fun kv => field_printable kv.1 kv.2) ps
  | _ => false
  end.

Definition obj_store (v : value) : Prop := exists us, v = VArr us /\ forallb user_obj us = true.

(** A body whose own printed fields convert to strings. *)
Definition body_ok (body : value) : bool := forallb (fun kv => field_printable kv.1 kv.2) (own_props body).

(** The response was sent: the handler did not reject. *)
Definition sent (r : response) : Prop := match r with RUnhandled _ => False | _ => True end.

Section Answered.
Context `{JsonCodec}.

Definition file_ok (f : option string) : Prop :=
  match f with
  | None => True
  | Some t => parse t = None \/ exists v, parse t = Some v /\ obj_store v
  end.

Definition fail_ok (o : write_outcome) : Prop :=
  match o with WriteOk => True | WriteFail after => file_ok after end.

Inductive safe_io {A} (Q : A -> Prop) : io A -> Prop :=
| safe_ret a : Q a -> safe_io Q (Ret a)
| safe_read k : (forall f, file_ok f -> safe_io Q (k f)) -> safe_io Q (ReadFile k)
| safe_write d k : file_ok (Some d) -> (forall ok, safe_io Q (k ok)) -> safe_io Q (WriteFile d k)
| safe_log m k : safe_io Q k -> safe_io Q (LogError m k).

Lemma safe_bind {A B} (Q : A -> Prop) (R : B -> Prop) c f :
  safe_io Q c -> (forall a, Q a -> safe_io R (f a)) -> safe_io R (io_bind c f).
Proof. induction 1; intros Hf; simpl; [by apply Hf|constructor; auto..]. Qed.

Lemma safe_lift {A} (c : throws A) k R a :
  c = Ok a -> safe_io R (k a) -> safe_io R (lift c k).
Proof. by intros ->. Qed.

Lemma printable_to_json v : printable v = true -> printable (to_json v) = true.
Proof.
  induction v as [| | | [|] | | xs IH | ps _] using value_ind; simpl; try done.
  - induction IH as [|x xs Hx _ IHl]; [done|]. cbn [forallb].
    intros [H1 H2]%andb_prop. rewrite IHl, andb_true_r by done. specialize (Hx H1). by destruct (to_json x).
  - induction ps as [|[k x] ps IHps]; [done|]. cbn [forallb fst snd].
    intros [H1 H2]%andb_prop. destruct (is_undef x); cbn [forallb fst]; rewrite ?H1; auto.
Qed.

Lemma user_obj_to_json u : user_obj u = true -> user_obj (to_json u) = true.
Proof.
  destruct u as [| | | [|] | | xs | ps]; try done. simpl.
  induction ps as [|[k x] ps IHps]; [done|]. cbn [forallb fst snd].
  intros [H1 H2]%andb_prop. destruct (is_undef x); cbn [forallb fst snd]; [auto|].
  rewrite IHps by done. unfold field_printable in *.
  destruct (field_key k); [|done]. simpl in *. by rewrite printable_to_json.
Qed.

Lemma to_json_objs xs : forallb user_obj xs = true -> obj_store (to_json (VArr xs)).
Proof.
  induction xs as [|x xs IH]; simpl; [by exists []|].
  intros [Hx Hxs]%andb_prop. destruct (IH Hxs) as (ys & Hys & Hobj).
  simpl in Hys. injection Hys as Hys. rewrite Hys.
  exists (undef_to_null (to_json x) :: ys). split; [done|]. cbn [forallb]. rewrite Hobj, andb_true_r.
  destruct x as [| | | | | |ps]; try done. by apply (user_obj_to_json (VObj ps)).
Qed.

Definition read_post (v : value) : Prop := obj_store v /\ value_wfb v = true.

Lemma read_post_empty : read_post (VArr []).
Proof. split; [by exists []|done]. Qed.

Lemma readUsers_safe : safe_io read_post readUsers.
Proof.
  constructor. intros [t|] Hf; simpl.
  - destruct (parse t) as [v|] eqn:Hp; [|apply safe_log, safe_ret, read_post_empty].
    apply safe_ret. destruct Hf as [Hn|(v' & Hp' & Hobj)]; [congruence|].
    rewrite Hp in Hp'. injection Hp' as <-. split; [done|]. by apply (parse_json t).
  - apply safe_log, safe_ret, read_post_empty.
Qed.

Lemma writeUsers_safe xs :
  forallb user_obj xs = true -> value_wfb (VArr xs) = true ->
  safe_io (fun _ => True) (writeUsers (VArr xs)).
Proof.
  intros Hobj Hwf. unfold writeUsers.
  destruct (stringify_defined (VArr xs)) as [t Ht]; [done|]. rewrite Ht. constructor.
  - right. exists (to_json (VArr xs)). split; [by apply parse_stringify|by apply to_json_objs].
  - intros []; repeat constructor.
Qed.

(** What the handlers need of a request: a well-formed body whose printed
    fields convert to strings, and for the form an object (the form parser
    always gives one). *)
Definition req_ok (r : request) : Prop :=
  match r with
  | PatchUser _ body | PostUser body => value_wfb body = true /\ body_ok body = true
  | SubmitRegistration body => value_wfb body = true /\ renders body
  | _ => True
  end.

Lemma match_id_obj id u : user_obj u = true -> exists b, match_id id u = Ok b.
Proof. destruct u; try done. intros _. by eexists. Qed.

Lemma forallb_match_id id us :
  forallb user_obj us = true -> Forall (fun x => exists b, match_id id x = Ok b) us.
Proof.
  intros Hus. apply Forall_forall. intros x Hx. apply match_id_obj.
  apply (proj1 (forallb_forall _ _) Hus). by apply list_elem_of_In.
Qed.

Lemma forallb_lookup_elem (P : value -> bool) us i x :
  forallb P us = true -> us !! i = Some x -> P x = true.
Proof.
  intros Hus Hi. apply (proj1 (forallb_forall _ _) Hus).
  by eapply list_elem_of_In, list_elem_of_lookup_2.
Qed.

Lemma find_user_index_total us id :
  forallb user_obj us = true ->
  exists index, find_user_index (VArr us) id = Ok (us, index) /\
    (index = (-1)%Z \/ (0 <= index < Z.of_nat (length us))%Z).
Proof.
  intros Hus. destruct (js_findIndex_total (match_id id) us) as [i Hi].
  { by apply forallb_match_id. }
  exists i. unfold find_user_index. simpl. rewrite Hi. split; [done|].
  by eapply js_findIndex_range.
Qed.

Lemma array_get_wf us i : forallb value_wfb us = true -> value_wfb (array_get us i) = true.
Proof.
  intros Hus. unfold array_get. destruct (0 <=? i)%Z; [|done].
  destruct (us !! Z.to_nat i) eqn:Hi; simpl; [|done]. by eapply forallb_lookup_elem.
Qed.

Lemma prop_lookup_forallb (P : string -> value -> bool) (ps : props) k x :
  forallb (fun kv => P kv.1 kv.2) ps = true -> prop_lookup ps k = Some x -> P k x = true.
Proof.
  induction ps as [|[k' v'] ps IH]; cbn [forallb prop_lookup fst snd]; [done|].
  intros [H1 H2]%andb_prop. destruct (String.eqb_spec k k') as [->|_]; [by intros [= <-]|auto].
Qed.

Lemma user_renders u : user_obj u = true -> renders u.
Proof.
  destruct u as [| | | | | |ps]; try done. intros Hu.
  split; [done|]. split; intros x [= <-]; destruct (prop_lookup ps _) as [x|] eqn:Hx; try done;
    apply (prop_lookup_forallb _ _ _ _ Hu) in Hx; unfold field_printable in Hx; by rewrite orb_false_l in Hx.
Qed.

Lemma get_prop_wf v k :
  readable v -> value_wfb v = true -> exists x, get_prop v k = Ok x /\ value_wfb x = true.
Proof.
  intros [Hn Hu] Hwf. destruct v as [| | | | s | xs | ps]; try done; simpl.
  - by eexists.
  - by eexists.
  - destruct (String.eqb k "length"); [eexists; split; [done|apply num_canonb_norm_dec]|].
    destruct (index_of_key k); (eexists; split; [done|]); [|done].
    by destruct (_ !! _).
  - destruct (String.eqb k "length"); [eexists; split; [done|apply num_canonb_norm_dec]|].
    destruct (index_of_key k) as [i|]; (eexists; split; [done|]); [|done].
    destruct (xs !! N.to_nat i) eqn:Hi; simpl; [|done]. by eapply forallb_lookup_elem.
  - eexists; split; [done|]. apply andb_prop in Hwf as [_ Hwf].
    destruct (prop_lookup ps k) eqn:Hk; simpl; [|done]. by eapply (prop_lookup_forallb (fun _ => value_wfb)).
Qed.

Lemma new_form_user_wf xs a b c d :
  value_wfb a = true -> value_wfb b = true -> value_wfb c = true -> value_wfb d = true ->
  value_wfb (new_form_user xs a b c d) = true.
Proof.
  intros Ha Hb Hc Hd. unfold new_form_user. simpl value_wfb.
  rewrite Ha, Hb, Hc, Hd. pose proof (value_wfb_num_of_nat (length xs + 1)) as Hn.
  simpl in Hn. rewrite Hn. reflexivity.
Qed.
Ltac safe_read :=
  apply (safe_bind read_post); [apply readUsers_safe|];
  intros ? [(?us & -> & ?Hobj) ?Hwf]; simpl in *.

Ltac safe_write :=
  apply (safe_bind (fun _ => True)); [apply writeUsers_safe|intros [] _; by repeat constructor].

Ltac safe_done := simpl; by repeat constructor.

Lemma spread_user_wf x body :
  value_wfb x = true -> value_wfb body = true ->
  value_wfb (VObj (obj_spread (obj_spread [] x) body)) = true.
Proof. intros Hx Hb. by apply value_wfb_spread; [apply value_wfb_spread|]. Qed.

Lemma array_get_own us i :
  forallb user_obj us = true ->
  forallb (fun kv => field_printable kv.1 kv.2) (own_props (array_get us i)) = true.
Proof.
  intros Hus. unfold array_get. destruct (0 <=? i)%Z; [|done].
  destruct (us !! Z.to_nat i) as [u|] eqn:Hi; simpl; [|done].
  pose proof (forallb_lookup_elem _ _ _ _ Hus Hi) as Hu. by destruct u.
Qed.

Lemma spread_user_obj x body :
  forallb (fun kv => field_printable kv.1 kv.2) (own_props x) = true -> body_ok body = true ->
  user_obj (VObj (obj_spread (obj_spread [] x) body)) = true.
Proof. intros Hx Hb. by apply forallb_spread_kv; [apply forallb_spread_kv|]. Qed.

Lemma new_api_user_obj xs body : body_ok body = true -> user_obj (new_api_user xs body) = true.
Proof. intros Hb. by apply forallb_spread_kv. Qed.

Lemma new_form_user_obj xs a b c d :
  printable a = true -> printable b = true -> user_obj (new_form_user xs a b c d) = true.
Proof.
  intros Ha Hb. unfold new_form_user, user_obj, field_printable. cbn [forallb fst snd].
  rewrite Ha, Hb. reflexivity.
Qed.

(** The array [patch_user] writes back: [array_set] at an index
    [findIndex] returned is a no-op or an in-range update. *)
Lemma array_set_found (P : value -> bool) us i v :
  (i = (-1)%Z \/ (0 <= i < Z.of_nat (length us))%Z) ->
  forallb P us = true -> P v = true -> forallb P (array_set us i v) = true.
Proof.
  intros [->|Hi] Hus Hv; [by rewrite array_set_neg|].
  rewrite <- (Z2Nat.id i), array_set_in_range by lia. by apply list_insert_wf.
Qed.

Lemma handle_safe r : req_ok r -> safe_io sent (handle r).
Proof.
  destruct r as [| | |id|id body|id|body|body]; simpl; intros Hr.
  - safe_done.
  - unfold get_users_page. safe_read.
    destruct (map_throws_ok user_item us) as (items & Hitems & _).
    { apply Forall_forall. intros u Hu%list_elem_of_In. apply user_item_ok, user_renders.
      by apply (proj1 (forallb_forall _ _) Hobj) in Hu. }
    simpl. rewrite Hitems. safe_done.
  - unfold get_api_users. safe_read. safe_done.
  - unfold get_user. safe_read.
    destruct (js_find_total (match_id id) us) as [u Hu]; [by apply forallb_match_id|].
    rewrite Hu. simpl. destruct (truthy u); safe_done.
  - unfold patch_user. safe_read.
    destruct (find_user_index_total us id) as (i & -> & Hi); [done|]. simpl.
    destruct Hr as [Hb Hbo]. safe_write; apply array_set_found; try done.
    + by apply spread_user_obj; [apply array_get_own|].
    + by apply spread_user_wf; [apply array_get_wf|].
  - unfold delete_user. safe_read.
    destruct (find_user_index_total us id) as (i & -> & Hi); [done|]. simpl.
    destruct (i =? -1)%Z; [safe_done|]. safe_write; by apply list_delete_wf.
  - unfold post_user. destruct Hr as [Hb Hbo]. safe_read.
    safe_write; apply forallb_app_snoc; try done.
    + by apply new_api_user_obj.
    + by apply new_api_user_wf.
  - unfold submit_registration. destruct Hr as [Hb (Hrd & Hfn & Hem)].
    destruct (get_prop_wf body "fullName") as (a & Ha & Hwa); [done..|].
    destruct (get_prop_wf body "email") as (b & Hb' & Hwb); [done..|].
    destruct (get_prop_wf body "phone") as (c & Hc & Hwc); [done..|].
    destruct (get_prop_wf body "password") as (d & Hd & Hwd); [done..|].
    destruct (get_prop_wf body "confirmPassword") as (e & He & _); [done..|].
    rewrite Ha, Hb', Hc, Hd, He. cbn -[readUsers writeUsers]. destruct (negb (strict_eq d e)); [safe_done|].
    safe_read.
    safe_write; apply forallb_app_snoc; try done.
    + by apply new_form_user_obj; [apply Hfn|apply Hem].
    + by apply new_form_user_wf.
Qed.

(** The invariant of the interleaving: the store is in shape and every
    request still running is safe. *)
Definition pool_ok (w : world) (ts : pool) : Prop :=
  file_ok (file w) /\ Forall (safe_io sent) ts.

Lemma pool_ok_insert (ts : pool) i c :
  Forall (safe_io sent) ts -> safe_io sent c -> Forall (safe_io sent) (<[i := c]> ts).
Proof. intros Hts Hc. by apply Forall_insert. Qed.

Lemma estep_pool_ok w ts w' ts' :
  estep fail_ok w ts w' ts' -> pool_ok w ts -> pool_ok w' ts'.
Proof.
  intros Hs [Hf Hts]. pose proof (fun i c Hi => proj1 (Forall_lookup _ _) Hts i c Hi) as Hsafe.
  destruct Hs as [i k w ts Hi|i d k o w ts Ho Hi|i m k w ts Hi];
    specialize (Hsafe i _ Hi); inversion Hsafe; subst; split; try done.
  - by apply pool_ok_insert; auto.
  - destruct o; simpl; done.
  - by apply pool_ok_insert; auto.
  - by apply pool_ok_insert.
Qed.

Lemma esteps_pool_ok n w ts w' ts' :
  esteps fail_ok n w ts w' ts' -> pool_ok w ts -> pool_ok w' ts'.
Proof. induction 1; eauto using estep_pool_ok. Qed.

(** Every request has finished and sent its response. *)
Definition answered (ts : pool) : Prop := Forall (fun c => exists r, c = Ret r /\ sent r) ts.

Lemma done_sent (ts : pool) :
  Forall (safe_io sent) ts -> Forall (fun c => is_done c = true) ts -> answered ts.
Proof.
  intros Hts Hdone. apply Forall_forall. intros c Hc.
  apply (proj1 (Forall_forall _ _) Hts) in Hc as Hs.
  apply (proj1 (Forall_forall _ _) Hdone) in Hc.
  destruct c; try done. inversion Hs; subst. eauto.
Qed.

Lemma stuck_sent w ts :
  pool_ok w ts -> (forall w' ts', ~ estep fail_ok w ts w' ts') -> answered ts.
Proof.
  intros [_ Hts] Hstuck. apply done_sent; [done|]. by apply (stuck_done fail_ok w ts I).
Qed.

Lemma handles_safe rs : Forall req_ok rs -> Forall (safe_io sent) (map handle rs).
Proof. intros Hrs. apply Forall_fmap. eapply Forall_impl; [exact Hrs|]. apply handle_safe. Qed.

(** C14. Every request is answered.  Start from a store that is missing,
    unparsable or an array of objects, and let requests with well-formed
    bodies (for the form, an object) run interleaved in any order, writes
    failing in any way that leaves the file in that shape.  Then no handler
    ever rejects: from every reachable state the run can be completed to a
    state where every request has sent its response, and every run that
    cannot go on has answered every request; the file stays in shape. *)
Theorem requests_answered rs w n w1 ts1 :
  Forall req_ok rs -> file_ok (file w) ->
  esteps fail_ok n w (map handle rs) w1 ts1 ->
  file_ok (file w1) /\
  (exists m w2 ts2, esteps fail_ok m w1 ts1 w2 ts2 /\ answered ts2) /\
  ((forall w' ts', ~ estep fail_ok w1 ts1 w' ts') -> answered ts1).
Proof.
  intros Hrs Hf Hs.
  assert (Hok : pool_ok w1 ts1) by (eapply esteps_pool_ok; [exact Hs|split; [done|by apply handles_safe]]).
  split; [apply Hok|split; [|by apply stuck_sent]].
  destruct (esteps_bounds _ _ _ _ _ _ _ Hs (handles_bounded rs)) as [ns Hns].
  destruct (run_to_done fail_ok w1 ts1 ns I Hns) as (m & w2 & ts2 & Hm & Hd).
  exists m, w2, ts2. split; [done|]. apply done_sent; [|done].
  apply (esteps_pool_ok _ _ _ _ _ Hm Hok).
Qed.

End Answered.
