(* ===== verification/Scenarios.v ===== *)
(** * Concrete runs of the server with the concrete codec

    The handlers of [Handlers] run here with [json_codec], the printer and
    parser of [JsonText], on small stores.  The first theorem replays the
    scenario of the specification (section 8) request by request; the
    others instantiate the theorems of [Handlers] at concrete stores and
    bodies, where every hypothesis is checked by evaluation. *)

From stdpp Require Import base list strings.
From Stdlib Require Import ZArith Lia.
From S2P Require Import Prelude JsValue JsonCodec Store ArrayOps Handlers JsonPrint JsonParse JsonText Render Concurrency.

Local Open Scope string_scope.

(** ** Stores and bodies *)

Definition text_of (v : value) : string := default EmptyString (json_stringify v).

(** A server whose file holds [JSON.stringify(v, null, 2)] and whose log is
    empty. *)
Definition store_of (v : value) : world := World (Some (text_of v)) [].

Definition num (n : nat) : value := VNum (num_of_nat n).

Definition ann_body : value := VObj [("fullName", VStr "Ann"); ("email", VStr "a@x.com")].
Definition bo_body : value := VObj [("fullName", VStr "Bo")].
Definition cy_body : value := VObj [("fullName", VStr "Cy")].

Definition with_id (n : nat) (body : value) : value :=
  VObj (("id", num n) :: own_props body).

Definition created (u : value) : response :=
  RJson 200 (VObj [("status", VStr "Success"); ("user", u)]).

Ltac holds_by_eval := eexists; split; [reflexivity | vm_compute; reflexivity].

(** ** The scenario of the specification *)

(** Starting from a missing file: creating Ann gives id 1, creating Bo
    gives id 2, deleting 1 succeeds, and creating Cy gives id 2 again
    (count + 1), so that the store holds two users with id 2 and GET
    /api/users/2 answers Bo, not Cy. *)
Example spec_scenario_id_reuse :
  let '(r1, w1) := run (post_user ann_body) (World None []) [] in
  let '(r2, w2) := run (post_user bo_body) w1 [] in
  let '(r3, w3) := run (delete_user (num_of_nat 1)) w2 [] in
  let '(r4, w4) := run (post_user cy_body) w3 [] in
  r1 = created (with_id 1 ann_body) /\ r2 = created (with_id 2 bo_body) /\
  r3 = RJson 200 (VObj [("status", VStr "Deleted"); ("id", num 1)]) /\
  r4 = created (with_id 2 cy_body) /\
  (run get_api_users w4 []).1 = RJson 200 (VArr [with_id 2 bo_body; with_id 2 cy_body]) /\
  (run (get_user (num_of_nat 2)) w4 []).1 = RJson 200 (with_id 2 bo_body) /\
  log w4 = ["Error reading users file:"].
Proof. vm_compute. repeat split. Qed.

(** ** The theorems of [Handlers] at concrete inputs *)

Definition ann1 : value := with_id 1 ann_body.
Definition bo2 : value := with_id 2 bo_body.
Definition email_patch : value := VObj [("email", VStr "b@x.com")].
Definition eve_with_id : value := VObj [("id", num 1); ("fullName", VStr "Eve")].
Definition form (p c : string) : props :=
  [("fullName", VStr "Dee"); ("password", VStr p); ("confirmPassword", VStr c)].

Ltac hyp_by_eval :=
  first [ holds_by_eval | left; reflexivity | reflexivity
        | repeat first [constructor | discriminate | intros ? [= <-]; vm_compute; reflexivity]
        | vm_compute; reflexivity ].
Ltac hyps_by_eval := repeat match goal with |- _ /\ _ => split end; hyp_by_eval.

Lemma create_then_get_witness :
  ((run (post_user bo_body) (store_of (VArr [ann1])) [WriteOk]).1 =
     RJson 200 (VObj [("status", VStr "Success"); ("user", new_api_user [ann1] bo_body)]) /\
   (run (get_user (num_of_nat (length [ann1] + 1)))
        (run (post_user bo_body) (store_of (VArr [ann1])) [WriteOk]).2 []).1 =
     RJson 200 (new_api_user [ann1] bo_body)) /\
  (holds (store_of (VArr [ann1])) (VArr [ann1]) /\ value_wfb bo_body = true /\
   json_cleanb bo_body = true /\ prop_lookup (own_props bo_body) "id" = None /\
   rejects (match_id (num_of_nat (length [ann1] + 1))) [ann1]).
Proof. split; [apply (create_then_get (store_of (VArr [ann1])) [ann1] bo_body)|]; hyps_by_eval. Defined.

Lemma delete_removes_exactly_one_witness :
  (exists t,
    run (delete_user (num_of_nat 1)) (store_of (VArr [ann1; bo2])) [WriteOk] =
      (RJson 200 (VObj [("status", VStr "Deleted"); ("id", VNum (num_of_nat 1))]),
       World (Some t) []) /\
    holds (World (Some t) []) (VArr (delete 0 [ann1; bo2])) /\
    length (delete 0 [ann1; bo2]) = length [ann1; bo2] - 1 /\
    rejects (match_id (num_of_nat 1)) (delete 0 [ann1; bo2])) /\
  (holds (store_of (VArr [ann1; bo2])) (VArr [ann1; bo2]) /\
   unique_at (num_of_nat 1) [ann1; bo2] 0 ann1).
Proof.
  assert (Hu : unique_at (num_of_nat 1) [ann1; bo2] 0 ann1).
  { split; [reflexivity|]. split; [reflexivity|].
    intros [|[|j]] y Hy Hj; simplify_eq/=; first [done | reflexivity]. }
  split; [apply (delete_removes_exactly_one (store_of (VArr [ann1; bo2])) _ _ 0 ann1)|split];
    (done || hyp_by_eval).
Defined.

Lemma delete_absent_witness :
  run (delete_user (num_of_nat 5)) (store_of (VArr [ann1])) [] = (not_found, store_of (VArr [ann1])) /\
  (holds (store_of (VArr [ann1])) (VArr [ann1]) /\ rejects (match_id (num_of_nat 5)) [ann1]).
Proof. split; [apply (delete_absent _ [ann1])|]; hyps_by_eval. Defined.

Lemma update_is_shallow_merge_witness :
  (exists q,
    (run (patch_user (num_of_nat 2) email_patch) (store_of (VArr [ann1; bo2])) [WriteOk]).1 =
      RJson 200 (VObj [("status", VStr "Updated"); ("user", VObj q)]) /\
    holds (run (patch_user (num_of_nat 2) email_patch) (store_of (VArr [ann1; bo2])) [WriteOk]).2
          (VArr (<[1 := VObj q]> [ann1; bo2])) /\
    forall k, prop_lookup q k =
      match prop_lookup (own_props email_patch) k with
      | Some v => Some v
      | None => prop_lookup (own_props bo2) k
      end) /\
  (holds (store_of (VArr [ann1; bo2])) (VArr [ann1; bo2]) /\
   rejects (match_id (num_of_nat 2)) (take 1 [ann1; bo2]) /\
   [ann1; bo2] !! 1 = Some (VObj (own_props bo2)) /\
   match_id (num_of_nat 2) (VObj (own_props bo2)) = Ok true /\
   value_wfb email_patch = true /\ json_cleanb email_patch = true).
Proof. split; [apply (update_is_shallow_merge _ [ann1; bo2] _ 1 (own_props bo2))|]; hyps_by_eval. Defined.

Lemma patch_missing_id_witness :
  (exists t,
    run (patch_user (num_of_nat 7) email_patch) (store_of (VArr [ann1])) [WriteOk] =
      (RJson 200 (VObj [("status", VStr "Updated");
                        ("user", VObj (obj_spread [] email_patch))]), World (Some t) []) /\
    holds (World (Some t) []) (VArr [ann1])) /\
  (holds (store_of (VArr [ann1])) (VArr [ann1]) /\ rejects (match_id (num_of_nat 7)) [ann1]).
Proof. split; [apply (patch_missing_id (store_of (VArr [ann1])) [ann1])|]; hyps_by_eval. Defined.

Lemma fail_open_list_witness :
  run get_api_users (World None []) [] =
    (RJson 200 (VArr []), World None ([] ++ ["Error reading users file:"])) /\
  unreadable (World None []).
Proof. split; [apply (fail_open_list (World None []))|]; hyps_by_eval. Defined.

Lemma post_on_unreadable_store_witness :
  holds (run (post_user ann_body) (World None []) [WriteOk]).2 (VArr [new_api_user [] ann_body]) /\
  (unreadable (World None []) /\ value_wfb ann_body = true /\ json_cleanb ann_body = true).
Proof. split; [apply post_on_unreadable_store|]; hyps_by_eval. Defined.

Lemma register_mismatch_witness :
  run (submit_registration (VObj (form "a" "b"))) (store_of (VArr [])) [] =
    (RSend "Passwords do not match. Please try again.", store_of (VArr [])) /\
  strict_eq (default VUndef (prop_lookup (form "a" "b") "password"))
            (default VUndef (prop_lookup (form "a" "b") "confirmPassword")) = false.
Proof. split; [apply register_mismatch|]; hyps_by_eval. Defined.

Lemma register_ignores_write_failure_witness :
  run (submit_registration (VObj (form "a" "a"))) (store_of (VArr [ann1])) [WriteFail None] =
    (RRedirect "/users", World None ([] ++ ["Error writing users file:"])) /\
  (holds (store_of (VArr [ann1])) (VArr [ann1]) /\
   strict_eq (default VUndef (prop_lookup (form "a" "a") "password"))
             (default VUndef (prop_lookup (form "a" "a") "confirmPassword")) = true).
Proof.
  split; [apply (register_ignores_write_failure _ (store_of (VArr [ann1])) [ann1])|]; hyps_by_eval.
Defined.

Lemma post_body_id_overrides_witness :
  (holds (run (post_user eve_with_id) (store_of (VArr [ann1])) [WriteOk]).2
         (VArr ([ann1] ++ [new_api_user [ann1] eve_with_id])) /\
   get_prop (new_api_user [ann1] eve_with_id) "id" = Ok (num 1)) /\
  (holds (store_of (VArr [ann1])) (VArr [ann1]) /\ value_wfb eve_with_id = true /\
   json_cleanb eve_with_id = true /\ prop_lookup (own_props eve_with_id) "id" = Some (num 1)).
Proof. split; [apply (post_body_id_overrides _ [ann1])|]; hyps_by_eval. Defined.

Lemma object_store_crashes_lookup_witness :
  ((run get_api_users (store_of (VObj [("a", num 1)])) []).1 = RJson 200 (VObj [("a", num 1)]) /\
   (run (get_user (num_of_nat 1)) (store_of (VObj [("a", num 1)])) []).1 =
     RUnhandled (TypeError "users.find is not a function")) /\
  holds (store_of (VObj [("a", num 1)])) (VObj [("a", num 1)]).
Proof. split; [apply (object_store_crashes_lookup _ [("a", num 1)])|]; hyps_by_eval. Defined.

Lemma create_then_get_collision_witness :
  (get_prop (new_api_user [bo2] cy_body) "id" = Ok (VNum (num_of_nat (length [bo2] + 1))) /\
   (run (get_user (num_of_nat (length [bo2] + 1)))
        (run (post_user cy_body) (store_of (VArr [bo2])) [WriteOk]).2 []).1 = RJson 200 bo2) /\
  (holds (store_of (VArr [bo2])) (VArr [bo2]) /\ value_wfb cy_body = true /\
   json_cleanb cy_body = true /\ prop_lookup (own_props cy_body) "id" = None /\
   rejects (match_id (num_of_nat (length [bo2] + 1))) (take 0 [bo2]) /\
   [bo2] !! 0 = Some bo2 /\ match_id (num_of_nat (length [bo2] + 1)) bo2 = Ok true).
Proof. split; [apply (create_then_get_collision _ [bo2] _ 0)|]; hyps_by_eval. Defined.

Lemma save_load_roundtrip_witness :
  (exists t, stringify (VArr [ann1]) = Some t /\
     run (writeUsers (VArr [ann1])) (store_of (VArr [ann1])) [WriteOk] =
       (true, World (Some t) (log (store_of (VArr [ann1])))) /\
     holds (World (Some t) (log (store_of (VArr [ann1])))) (VArr [ann1])) /\
  (holds (store_of (VArr [ann1])) (VArr [ann1]) /\ nums_safe (VArr [ann1]) = true).
Proof. split; [apply (save_load_roundtrip _ _ [])|]; hyps_by_eval. Defined.

(** ** The codec at a concrete value *)

Lemma json_parse_stringify_witness :
  json_parse (text_of (VArr [ann1; VUndef; VNum NaN])) = Some (to_json (VArr [ann1; VUndef; VNum NaN])) /\
  (value_wfb (VArr [ann1; VUndef; VNum NaN]) = true /\
   json_stringify (VArr [ann1; VUndef; VNum NaN]) = Some (text_of (VArr [ann1; VUndef; VNum NaN]))).
Proof. split; [apply (json_parse_stringify _ (text_of (VArr [ann1; VUndef; VNum NaN])))|]; hyps_by_eval. Defined.

Lemma json_parse_good_witness :
  (value_wfb (VArr [bo2]) = true /\ json_cleanb (VArr [bo2]) = true) /\
  json_parse (text_of (VArr [bo2])) = Some (VArr [bo2]).
Proof. split; [apply (json_parse_good (text_of (VArr [bo2])))|]; hyps_by_eval. Defined.

(** ** The listing, and requests in flight *)

Definition script_name : string := "<script>alert(1)</script>".
Definition eve_script : value := VObj [("id", num 1); ("fullName", VStr script_name)].

Lemma users_page_unescaped_witness :
  (exists page, run get_users_page (store_of (VArr [eve_script])) [] =
                  (RSend page, store_of (VArr [eve_script])) /\ infix script_name page) /\
  (holds (store_of (VArr [eve_script])) (VArr [eve_script]) /\ Forall renders [eve_script] /\
   [eve_script] !! 0 = Some (VObj (own_props eve_script)) /\
   prop_lookup (own_props eve_script) "fullName" = Some (VStr script_name)).
Proof. split; [apply (users_page_unescaped _ [eve_script] 0 (own_props eve_script))|]; hyps_by_eval. Defined.

Lemma users_page_null_user_witness :
  run get_users_page (store_of (VArr [ann1; VNull])) [] =
    (RUnhandled (read_null "fullName"), store_of (VArr [ann1; VNull])) /\
  (holds (store_of (VArr [ann1; VNull])) (VArr [ann1; VNull]) /\
   Forall renders (take 1 [ann1; VNull]) /\ [ann1; VNull] !! 1 = Some VNull).
Proof. split; [apply (users_page_null_user _ [ann1; VNull] 1)|]; hyps_by_eval. Defined.

Definition to_string_name : value := VObj [("toString", VStr "x")].
Definition mallory_body : value := VObj [("fullName", to_string_name)].
Definition mallory2 : value := with_id 2 mallory_body.

Lemma users_page_unprintable_name_witness :
  run get_users_page (store_of (VArr [ann1; mallory2])) [] =
    (RUnhandled cannot_convert, store_of (VArr [ann1; mallory2])) /\
  (holds (store_of (VArr [ann1; mallory2])) (VArr [ann1; mallory2]) /\
   Forall renders (take 1 [ann1; mallory2]) /\
   [ann1; mallory2] !! 1 = Some (VObj (own_props mallory2)) /\
   prop_lookup (own_props mallory2) "fullName" = Some to_string_name /\
   printable to_string_name = false).
Proof.
  split; [apply (users_page_unprintable_name _ [ann1; mallory2] 1 (own_props mallory2) to_string_name)|];
    hyps_by_eval.
Defined.

(** The JSON API stores such a body, and the listing is down from then on. *)
Example post_breaks_listing :
  let '(r1, w1) := run (post_user mallory_body) (store_of (VArr [ann1])) [] in
  r1 = created mallory2 /\ (run get_users_page w1 []).1 = RUnhandled cannot_convert.
Proof. vm_compute. split; reflexivity. Qed.

(** A POST from a missing file, then a GET of the list. *)
Definition post_then_list : list request := [PostUser ann_body; GetApiUsers].
Definition after_post_then_list : world :=
  World (Some (text_of (VArr [ann1]))) ["Error reading users file:"].
Definition answers_post_then_list : pool :=
  [Ret (created ann1); Ret (RJson 200 (VArr [ann1]))].

Lemma post_then_list_run :
  esteps fail_ok 4 (World None []) (map handle post_then_list) after_post_then_list answers_post_then_list.
Proof.
  apply (exec_steps fail_ok [(0, WriteOk); (0, WriteOk); (0, WriteOk); (1, WriteOk)]);
    [repeat constructor|vm_compute; reflexivity].
Qed.

Lemma requests_terminate_witness :
  4 <= 4 * length post_then_list /\
  steps 4 (World None []) (map handle post_then_list) after_post_then_list answers_post_then_list.
Proof.
  assert (Hs : steps 4 (World None []) (map handle post_then_list)
                 after_post_then_list answers_post_then_list).
  { apply (exec_steps any_outcome [(0, WriteOk); (0, WriteOk); (0, WriteOk); (1, WriteOk)]);
      [repeat constructor|vm_compute; reflexivity]. }
  split; [apply (requests_terminate any_outcome _ _ _ _ _ Hs)|exact Hs].
Defined.

Lemma requests_answered_witness :
  (file_ok (file after_post_then_list) /\
   (exists m w2 ts2, esteps fail_ok m after_post_then_list answers_post_then_list w2 ts2 /\
                     answered ts2) /\
   ((forall w' ts', ~ estep fail_ok after_post_then_list answers_post_then_list w' ts') ->
    answered answers_post_then_list)) /\
  (Forall req_ok post_then_list /\ file_ok (file (World None [])) /\
   esteps fail_ok 4 (World None []) (map handle post_then_list) after_post_then_list answers_post_then_list).
Proof.
  assert (Hr : Forall req_ok post_then_list) by (repeat constructor; vm_compute; reflexivity).
  assert (Hf : file_ok (file (World None []))) by exact I.
  split; [apply (requests_answered _ _ _ _ _ Hr Hf post_then_list_run)|].
  split; [exact Hr|split; [exact Hf|apply post_then_list_run]].
Defined.

Lemma lost_update_witness :
  (exists w', steps 4 (store_of (VArr [])) [handle (PostUser ann_body); handle (PostUser bo_body)]
                w' [Ret (created_for [] ann_body); Ret (created_for [] bo_body)] /\
              log w' = log (store_of (VArr [])) /\
              holds w' (VArr ([] ++ [new_api_user [] bo_body]))) /\
  (holds (store_of (VArr [])) (VArr []) /\ value_wfb ann_body = true /\ json_cleanb ann_body = true /\
   value_wfb bo_body = true /\ json_cleanb bo_body = true).
Proof. split; [apply lost_update|]; hyps_by_eval. Defined.
